(** * Cortex CLI client and delete endpoint: a shallow embedding

    Source files embedded here:
    - [cli/cmd/lib_client.go]: the HTTP and websocket client of the CLI
      ([operatorRequest], [makeRequest], [authHeader], [HTTPGet],
      [HTTPPostJSON], [HTTPUpload], [addFileToMultipart], [StreamLogs],
      [handleConnection], [closeConnection]);
    - [pkg/operator/endpoints/delete.go]: the [Delete] handler.

    Go strings and byte slices are sequences of bytes; they are modelled by
    Rocq's [string] (a list of 8-bit [ascii]).  Go maps are [gmap]s; a
    [range] over a map visits the entries in an order the language leaves
    open, which is modelled by [MapRange].  What the code takes from the
    outside (the network, the file system, the clock and time zone, the
    parts of the repository that are not in the two files) is gathered in
    the records [Env] and [OperatorEnv]. *)

From Stdlib Require Import ZArith NArith Ascii String List Lia.
From stdpp Require Import base option gmap strings list fin_maps sorting.

Local Open Scope string_scope.
Local Open Scope list_scope.
Local Set Warnings "-register-all".

(** ** Byte strings *)

Module bytes.

Definition byte_lt (a b : ascii) : bool := (N_of_ascii a <? N_of_ascii b)%N.
Definition byte_le (a b : ascii) : bool := (N_of_ascii a <=? N_of_ascii b)%N.
Definition in_range (lo hi c : ascii) : bool := byte_le lo c && byte_le c hi.

Definition is_digit (c : ascii) : bool := in_range "0" "9" c.
Definition is_lower (c : ascii) : bool := in_range "a" "z" c.
Definition is_upper (c : ascii) : bool := in_range "A" "Z" c.
Definition is_alnum (c : ascii) : bool := is_lower c || is_upper c || is_digit c.

Definition to_lower (c : ascii) : ascii :=
  if is_upper c then ascii_of_N (N_of_ascii c + 32) else c.
Definition to_upper (c : ascii) : ascii :=
  if is_lower c then ascii_of_N (N_of_ascii c - 32) else c.

Fixpoint map_string (f : ascii → ascii) (s : string) : string :=
  match s with
  | EmptyString => EmptyString
  | String c s' => String (f c) (map_string f s')
  end.

Fixpoint forallb_string (p : ascii → bool) (s : string) : bool :=
  match s with
  | EmptyString => true
  | String c s' => p c && forallb_string p s'
  end.

Definition contains_byte (c : ascii) (s : string) : bool :=
  negb (forallb_string (λ x, negb (Ascii.eqb x c)) s).

(** [strings.Cut(s, sep)] for a one-byte separator: the text before the
    first [sep] and the text after it, or [(s, None)] without one. *)
Fixpoint Cut (sep : ascii) (s : string) : string * option string :=
  match s with
  | EmptyString => (EmptyString, None)
  | String c s' =>
      if Ascii.eqb c sep then (EmptyString, Some s')
      else let '(before, after) := Cut sep s' in (String c before, after)
  end.

(** [strings.Split(s, sep)] for a one-byte separator. *)
Fixpoint Split (sep : ascii) (s : string) : list string :=
  match s with
  | EmptyString => [EmptyString]
  | String c s' =>
      if Ascii.eqb c sep then EmptyString :: Split sep s'
      else match Split sep s' with
           | [] => [String c EmptyString]
           | seg :: segs => String c seg :: segs
           end
  end.

(** The longest run of bytes of the class [p] at the head of [s], and
    what follows it. *)
Fixpoint span (p : ascii → bool) (s : string) : string * string :=
  match s with
  | String c s' =>
      if p c then let '(a, b) := span p s' in (String c a, b) else (EmptyString, s)
  | EmptyString => (EmptyString, EmptyString)
  end.

(** [strings.HasPrefix] and [strings.TrimPrefix] in one: the rest of [s]
    after [p], if [s] starts with [p]. *)
Fixpoint strip_prefix (p s : string) : option string :=
  match p, s with
  | EmptyString, _ => Some s
  | String a p', String b s' => if Ascii.eqb a b then strip_prefix p' s' else None
  | String _ _, EmptyString => None
  end.

(** [strings.Replace(s, old, new, 1)]: the first occurrence only. *)
Fixpoint Replace1 (old new s : string) : string :=
  match strip_prefix old s with
  | Some rest => new +:+ rest
  | None => match s with
            | EmptyString => EmptyString
            | String c s' => String c (Replace1 old new s')
            end
  end.

End bytes.

(** ** Go's [range] over a map

    The iteration order of a Go map is not specified and differs from run
    to run.  A [MapRange] picks, for every map, one order of its entries;
    the definitions below are parameterised by it, so that what is proved
    holds for every order. *)

Record MapRange := {
  range_map : ∀ {A : Type}, gmap string A → list (string * A);
  range_map_perm : ∀ (A : Type) (m : gmap string A), range_map m ≡ₚ map_to_list m
}.

Definition default_range : MapRange :=
  {| range_map := λ A m, map_to_list m;
     range_map_perm := λ A m, reflexivity (map_to_list m) |}.

(** ** Errors as values

    [errors.New(msg)] and [errors.Wrap(err, msg)] of
    [pkg/utils/errors] build the repository's error values; the package is
    not among the embedded files, so an error is kept as the tree of these
    two calls, and nothing is assumed about how a wrapped message is
    rendered. *)

Inductive error : Type :=
  | errors_New (msg : string)
  | errors_Wrap (cause : error) (msg : string).

(** A Go function returning [(T, error)]. *)
Inductive result (T : Type) : Type :=
  | Ok (v : T)
  | Err (e : error).
Arguments Ok {T} v.
Arguments Err {T} e.

(** ** [net/url]: query strings *)

Module url.
Import bytes.

(** [url.Values] is [map[string][]string]. *)
Abbreviation Values := (gmap string (list string)).

Definition ishex (c : ascii) : bool :=
  is_digit c || in_range "a" "f" c || in_range "A" "F" c.

Definition unhex (c : ascii) : N :=
  if is_digit c then N_of_ascii c - 48
  else if in_range "a" "f" c then N_of_ascii c - 97 + 10
  else if in_range "A" "F" c then N_of_ascii c - 65 + 10
  else 0.

(** ["0123456789ABCDEF"[n]] *)
Definition upperhex (n : N) : ascii :=
  if (n <? 10)%N then ascii_of_N (48 + n) else ascii_of_N (65 + (n - 10)).

(** [shouldEscape(c, encodeQueryComponent)]: everything but the
    unreserved characters is escaped. *)
Definition shouldEscape (c : ascii) : bool :=
  if is_alnum c then false
  else if Ascii.eqb c "-" || Ascii.eqb c "_" || Ascii.eqb c "." || Ascii.eqb c "~"
       then false
       else true.

(** [url.QueryEscape] *)
Fixpoint QueryEscape (s : string) : string :=
  match s with
  | EmptyString => EmptyString
  | String c s' =>
      if Ascii.eqb c " " then String "+" (QueryEscape s')
      else if shouldEscape c then
        String "%" (String (upperhex (N.shiftr (N_of_ascii c) 4))
                      (String (upperhex (N.land (N_of_ascii c) 15)) (QueryEscape s')))
      else String c (QueryEscape s')
  end.

(** [url.QueryUnescape]; [None] is Go's [EscapeError]. *)
Fixpoint QueryUnescape (s : string) : option string :=
  match s with
  | EmptyString => Some EmptyString
  | String "%" (String a (String b s')) =>
      if ishex a && ishex b
      then String (ascii_of_N (N.lor (N.shiftl (unhex a) 4) (unhex b))) <$> QueryUnescape s'
      else None
  | String "%" _ => None
  | String "+" s' => String " " <$> QueryUnescape s'
  | String c s' => String c <$> QueryUnescape s'
  end.

(** [v.Set(key, value)]: [v[key] = []string{value}] *)
Definition Values_Set (key value : string) (v : Values) : Values :=
  <[key := [value]]> v.

(** [v[key] = append(v[key], value)] *)
Definition Values_Add (key value : string) (v : Values) : Values :=
  <[key := default [] (v !! key) ++ [value]]> v.

(** One turn of the loop of [parseQuery] on the segment [key] cut off at
    ["&"]: the segment is dropped when it holds a semicolon, is empty, or
    does not unescape; the flag tells whether an error was recorded. *)
Definition parseQuery_segment (key : string) (m : Values) : Values * bool :=
  if contains_byte ";" key then (m, true)
  else if String.eqb key "" then (m, false)
  else
    let '(key, value) := Cut "=" key in
    let value := default "" value in
    match QueryUnescape key with
    | None => (m, true)
    | Some key =>
        match QueryUnescape value with
        | None => (m, true)
        | Some value => (Values_Add key value m, false)
        end
    end.

(** [url.ParseQuery]: the loop [for query != ""] cuts [query] at each
    ["&"]; the segments it sees are those of [Split], and an empty
    segment is skipped either way.  The result is the map built from the
    well-formed segments and whether some segment was rejected.  (A
    semicolon makes a segment ill-formed since Go 1.17; before, it
    separated segments as ["&"] does.  What [Encode] writes has none.) *)
Definition ParseQuery (query : string) : Values * bool :=
  foldl (λ '(m, failed) seg,
           let '(m', failed') := parseQuery_segment seg m in (m', failed || failed'))
        (∅, false) (Split "&" query).

(** The order of [sort.Strings]: byte by byte. *)
Definition string_le (s t : string) : Prop := String.leb s t = true.
#[global] Instance string_le_dec (s t : string) : Decision (string_le s t) :=
  decide (String.leb s t = true).

(** [v.Encode()]: the keys are sorted, and every value of every key is
    written as [key=value], escaped, with ["&"] between the pairs. *)
Definition Values_Encode (v : Values) : string :=
  let keys := merge_sort string_le (map_to_list v).*1 in
  foldl (λ buf k,
           let keyEscaped := QueryEscape k in
           foldl (λ buf val,
                    let buf := if String.eqb buf "" then buf else buf +:+ "&" in
                    buf +:+ keyEscaped +:+ "=" +:+ QueryEscape val)
                 buf (default [] (v !! k)))
        "" keys.

(** The parts of a [url.URL] the client reads and writes.  [Base] is the
    text before the query: scheme, authority and path, kept as written. *)
Record URL := {
  Base : string;
  ForceQuery : bool;   (* the URL ended in a bare "?" *)
  RawQuery : string;
  Fragment : string
}.

(** How [url.Parse] takes a URL apart: the fragment is cut off at the
    first ["#"], then the query at the first ["?"].  What is before the
    query is kept as written: [url.Parse] puts the scheme in lower case,
    [http.NewRequest] drops an empty port and [String] escapes the path,
    so [Base] is what Go holds for a URL written in that form, such as a
    [plain_origin] followed by a path of letters and slashes. *)
Definition split_url (rawURL : string) : URL :=
  let '(u, frag) := Cut "#" rawURL in
  let '(rest, query) := Cut "?" u in
  {| Base := rest;
     ForceQuery := match query with Some EmptyString => true | _ => false end;
     RawQuery := default "" query;
     Fragment := default "" frag |}.

(** [u.Query()]: [ParseQuery] with its error dropped. *)
Definition URL_Query (u : URL) : Values := (ParseQuery (RawQuery u)).1.

(** [u.String()], for a URL whose scheme, authority, path and fragment
    are written the way [String] writes them. *)
Definition URL_String (u : URL) : string :=
  Base u
  +:+ (if ForceQuery u || negb (String.eqb (RawQuery u) "")
     then "?" +:+ RawQuery u else "")
  +:+ (if String.eqb (Fragment u) "" then "" else "#" +:+ Fragment u).

Definition URL_set_RawQuery (q : string) (u : URL) : URL :=
  {| Base := Base u; ForceQuery := ForceQuery u; RawQuery := q;
     Fragment := Fragment u |}.

End url.

(** ** [encoding/json]: decoding an error envelope *)

Module json.
Import bytes.

(** A JSON text, parsed.  An object keeps its members in the order and
    with the repetitions of the text; a number keeps its literal. *)
Inductive value : Type :=
  | Null
  | Bool (b : bool)
  | Number (literal : string)
  | Str (s : string)
  | Array (elements : list value)
  | Object (members : list (string * value)).

Definition is_space (c : ascii) : bool :=
  Ascii.eqb c " " || Ascii.eqb c "009" || Ascii.eqb c "010" || Ascii.eqb c "013".

Fixpoint skip_space (s : string) : string :=
  match s with
  | String c s' => if is_space c then skip_space s' else s
  | EmptyString => s
  end.

(** *** Strings: [unquote] *)

Definition replacement_char : string :=
  String "239" (String "191" (String "189" EmptyString)).

(** [utf8.EncodeRune] *)
Definition encode_rune (r : N) : string :=
  let b (n : N) := ascii_of_N n in
  if (r <? 128)%N then String (b r) EmptyString
  else if (r <? 2048)%N then
    String (b (192 + N.shiftr r 6)%N) (String (b (128 + N.land r 63)%N) EmptyString)
  else if ((55296 <=? r) && (r <? 57344))%N || (1114111 <? r)%N then replacement_char
  else if (r <? 65536)%N then
    String (b (224 + N.shiftr r 12)%N)
      (String (b (128 + N.land (N.shiftr r 6) 63)%N)
         (String (b (128 + N.land r 63)%N) EmptyString))
  else
    String (b (240 + N.shiftr r 18)%N)
      (String (b (128 + N.land (N.shiftr r 12) 63)%N)
         (String (b (128 + N.land (N.shiftr r 6) 63)%N)
            (String (b (128 + N.land r 63)%N) EmptyString))).

Definition hex4 (a b c d : ascii) : option N :=
  if url.ishex a && url.ishex b && url.ishex c && url.ishex d
  then Some (url.unhex a * 4096 + url.unhex b * 256 + url.unhex c * 16 + url.unhex d)%N
  else None.

Definition is_cont (lo hi c : ascii) : bool := in_range lo hi c.

(** [utf8.DecodeRune] on the bytes at the head of [c :: s], for a first
    byte [c >= 0x80]: the number of further bytes of a well-formed
    encoding, or [None] for an ill-formed one. *)
Definition utf8_tail (c : ascii) (s : string) : option nat :=
  let n := N_of_ascii c in
  let second lo hi := match s with String x _ => is_cont lo hi x | _ => false end in
  let third := match s with String _ (String x _) => is_cont "128" "191" x | _ => false end in
  let fourth :=
    match s with String _ (String _ (String x _)) => is_cont "128" "191" x | _ => false end in
  if ((194 <=? n) && (n <=? 223))%N then
    (if second "128"%char "191"%char then Some 1%nat else None)
  else if (n =? 224)%N then
    (if second "160"%char "191"%char && third then Some 2%nat else None)
  else if ((225 <=? n) && (n <=? 236))%N || ((238 <=? n) && (n <=? 239))%N then
    (if second "128"%char "191"%char && third then Some 2%nat else None)
  else if (n =? 237)%N then
    (if second "128"%char "159"%char && third then Some 2%nat else None)
  else if (n =? 240)%N then
    (if second "144"%char "191"%char && third && fourth then Some 3%nat else None)
  else if ((241 <=? n) && (n <=? 243))%N then
    (if second "128"%char "191"%char && third && fourth then Some 3%nat else None)
  else if (n =? 244)%N then
    (if second "128"%char "143"%char && third && fourth then Some 3%nat else None)
  else None.

(** The text of a string literal after its opening quote: the decoded
    string and what follows the closing quote.  Escapes are decoded, a
    lone surrogate and an ill-formed UTF-8 byte become U+FFFD, a control
    character or an unknown escape is a syntax error.  [copy] counts the
    continuation bytes of a well-formed UTF-8 encoding still to be copied. *)
Fixpoint unquote (copy : nat) (s : string) : option (string * string) :=
  let cons (c : ascii) := fmap (M := option) (λ '(t, rest), (String c t, rest)) in
  let app (p : string) := fmap (M := option) (λ '(t, rest), (p +:+ t, rest)) in
  match copy, s with
  | S n, String c s' => cons c (unquote n s')
  | S _, EmptyString => None
  | O, EmptyString => None
  | O, String c s' =>
      if Ascii.eqb c "034" then Some (EmptyString, s')
      else if Ascii.eqb c "\" then
        match s' with
        | EmptyString => None
        | String e s1 =>
            if Ascii.eqb e "u" then
              match s1 with
              | String a (String b (String c (String d s2))) =>
                  match hex4 a b c d with
                  | None => None
                  | Some rr =>
                      if ((55296 <=? rr) && (rr <? 57344))%N then
                        (* a surrogate: it takes a low surrogate escape right after it *)
                        match s2 with
                        | String x (String y (String a1 (String b1 (String c1 (String d1 s3))))) =>
                            match hex4 a1 b1 c1 d1 with
                            | Some rr1 =>
                                if Ascii.eqb x "\" && Ascii.eqb y "u"
                                   && ((rr <? 56320) && (56320 <=? rr1) && (rr1 <? 57344))%N
                                then
                                  app (encode_rune
                                         ((rr - 55296) * 1024 + (rr1 - 56320) + 65536)%N)
                                      (unquote O s3)
                                else app replacement_char (unquote O s2)
                            | None => app replacement_char (unquote O s2)
                            end
                        | _ => app replacement_char (unquote O s2)
                        end
                      else app (encode_rune rr) (unquote O s2)
                  end
              | _ => None
              end
            else if Ascii.eqb e "034" then cons "034"%char (unquote O s1)
            else if Ascii.eqb e "\" then cons "\"%char (unquote O s1)
            else if Ascii.eqb e "/" then cons "/"%char (unquote O s1)
            else if Ascii.eqb e "b" then cons "008"%char (unquote O s1)
            else if Ascii.eqb e "f" then cons "012"%char (unquote O s1)
            else if Ascii.eqb e "n" then cons "010"%char (unquote O s1)
            else if Ascii.eqb e "r" then cons "013"%char (unquote O s1)
            else if Ascii.eqb e "t" then cons "009"%char (unquote O s1)
            else None
        end
      else if byte_lt c " " then None
      else if byte_lt c "128" then cons c (unquote O s')
      else match utf8_tail c s' with
           | Some n => cons c (unquote n s')
           | None => app replacement_char (unquote O s')
           end
  end.

(** *** Numbers *)

(** The head of [s] if it is one of the bytes in [set], and the rest. *)
Definition one_of (set : string) (s : string) : string * string :=
  match s with
  | String c s' => if contains_byte c set then (String c EmptyString, s') else (EmptyString, s)
  | EmptyString => (EmptyString, s)
  end.

(** A number literal and what follows it: an optional minus sign; a
    zero, or a non-zero digit and further digits; optionally a point and
    one or more digits; optionally an exponent mark, a sign and one or more
    digits. *)
Definition scan_number (s : string) : option (string * string) :=
  let '(sign, s1) := one_of "-" s in
  match s1 with
  | String d s2 =>
      if negb (is_digit d) then None else
      let '(int, s3) :=
        if Ascii.eqb d "0" then ("0", s2)
        else let '(ds, r) := span is_digit s2 in (String d ds, r) in
      let frac :=
        let '(point, s4) := one_of "." s3 in
        if String.eqb point "" then Some ("", s3)
        else let '(ds, r) := span is_digit s4 in
             if String.eqb ds "" then None else Some (point +:+ ds, r) in
      match frac with
      | None => None
      | Some (fr, s5) =>
          let exp :=
            let '(mark, s6) := one_of "eE" s5 in
            if String.eqb mark "" then Some ("", s5)
            else let '(sg, s7) := one_of "+-" s6 in
                 let '(ds, r) := span is_digit s7 in
                 if String.eqb ds "" then None else Some (mark +:+ sg +:+ ds, r) in
          match exp with
          | None => None
          | Some (ex, rest) => Some (sign +:+ int +:+ fr +:+ ex, rest)
          end
      end
  | EmptyString => None
  end.

(** *** Values *)

(** The next byte that is not white space, and what follows it. *)
Definition next_byte (s : string) : option (ascii * string) :=
  match skip_space s with
  | String c rest => Some (c, rest)
  | EmptyString => None
  end.

(** The elements of an array after its opening bracket or a comma: a
    value, read by [parse_value], then a comma and more elements, or the
    closing bracket.  [n] bounds the number of elements. *)
Fixpoint elements (parse_value : string → option (value * string)) (n : nat) (s : string)
  : option (list value * string) :=
  match n with
  | O => None
  | S n =>
      match parse_value s with
      | None => None
      | Some (v, rest) =>
          match next_byte rest with
          | Some (c, rest') =>
              if Ascii.eqb c "," then
                (λ '(vs, r), (v :: vs, r)) <$> elements parse_value n rest'
              else if Ascii.eqb c "]" then Some ([v], rest')
              else None
          | None => None
          end
      end
  end.

(** The members of an object after its opening brace or a comma: a key,
    a colon, a value, then a comma and more members, or the closing brace. *)
Fixpoint members (parse_value : string → option (value * string)) (n : nat) (s : string)
  : option (list (string * value) * string) :=
  match n with
  | O => None
  | S n =>
      match next_byte s with
      | Some (q, s1) =>
          if negb (Ascii.eqb q "034") then None else
          match unquote O s1 with
          | None => None
          | Some (key, s2) =>
              match next_byte s2 with
              | Some (colon, s3) =>
                  if negb (Ascii.eqb colon ":") then None else
                  match parse_value s3 with
                  | None => None
                  | Some (v, rest) =>
                      match next_byte rest with
                      | Some (c, rest') =>
                          if Ascii.eqb c "," then
                            (λ '(ms, r), ((key, v) :: ms, r)) <$> members parse_value n rest'
                          else if Ascii.eqb c "}" then Some ([(key, v)], rest')
                          else None
                      | None => None
                      end
                  end
              | None => None
              end
          end
      | None => None
      end
  end.

(** One value, its parts read by [parse_value]. *)
Definition value_with (parse_value : string → option (value * string)) (bound : nat)
    (s : string) : option (value * string) :=
  match next_byte s with
  | None => None
  | Some (c, s1) =>
      if Ascii.eqb c "{" then
        match next_byte s1 with
        | Some (c', rest) =>
            if Ascii.eqb c' "}" then Some (Object [], rest)
            else (λ '(ms, r), (Object ms, r)) <$> members parse_value bound s1
        | None => None
        end
      else if Ascii.eqb c "[" then
        match next_byte s1 with
        | Some (c', rest) =>
            if Ascii.eqb c' "]" then Some (Array [], rest)
            else (λ '(vs, r), (Array vs, r)) <$> elements parse_value bound s1
        | None => None
        end
      else if Ascii.eqb c "034" then (λ '(t, r), (Str t, r)) <$> unquote O s1
      else
        let s0 := String c s1 in
        match strip_prefix "true" s0, strip_prefix "false" s0, strip_prefix "null" s0 with
        | Some rest, _, _ => Some (Bool true, rest)
        | _, Some rest, _ => Some (Bool false, rest)
        | _, _, Some rest => Some (Null, rest)
        | None, None, None => (λ '(lit, r), (Number lit, r)) <$> scan_number s0
        end
  end.

(** A recursive descent with one unit of [fuel] per level of nesting;
    [parse] gives it more than the text has bytes, which is enough
    ([parse_fuel_enough] below).  The scanner of Go refuses a text nested
    deeper than 10000 levels; the model does not count the levels, and
    agrees with it on texts nested less deeply. *)
Fixpoint parse_value (fuel : nat) (s : string) : option (value * string) :=
  match fuel with
  | O => None
  | S fuel => value_with (parse_value fuel) (S fuel) s
  end.

(** [checkValid] and the scan of the one top-level value: a value, then
    nothing but white space. *)
Definition parse (data : string) : option value :=
  match parse_value (S (String.length data)) data with
  | Some (v, rest) => if String.eqb (skip_space rest) "" then Some v else None
  | None => None
  end.

(** *** The target

    Modelled from the spec: [schema.ErrorResponse] of [pkg/api/schema] is
    not among the embedded files; the error envelope is a JSON object
    with a single field [error: string]. *)
Record ErrorResponse := { Error : string }.

(** The JSON string literal of a text [s] that needs no escape, between
    double quotes (the byte 34), followed by [rest]. *)
Definition string_literal (s rest : string) : string :=
  String "034" (s +:+ String "034" rest).

(** The envelope with the message [msg]: an object whose one member is
    named [error] and has the string [msg] as its value. *)
Definition error_envelope (msg : string) : string :=
  "{" +:+ string_literal "error" (":" +:+ string_literal msg "}").

(** How [Unmarshal] finds the field for an object key: the tag name
    itself, or a key equal to it when letter case is ignored. *)
Definition key_matches (tag key : string) : bool :=
  String.eqb key tag || String.eqb (map_string to_lower key) (map_string to_lower tag).

Definition SyntaxError : error := errors_New "json: syntax error".
Definition UnmarshalTypeError : error := errors_New "json: cannot unmarshal".

(** The decoder keeps the first type error and goes on. *)
Definition saveError (saved : option error) (e : error) : option error :=
  match saved with Some _ => saved | None => Some e end.

(** One member of an object decoded into the struct: a member named
    [error] sets the field from a string, leaves it on [null], and is a
    type error for any other value; other members are skipped. *)
Definition decode_member (st : ErrorResponse * option error) (kv : string * value)
  : ErrorResponse * option error :=
  let '(output, saved) := st in
  if key_matches "error" kv.1 then
    match kv.2 with
    | Str s => ({| Error := s |}, saved)
    | Null => (output, saved)
    | _ => (output, saveError saved UnmarshalTypeError)
    end
  else (output, saved).

(** [json.Unmarshal(data, &output)] for [output] an [ErrorResponse]:
    the struct as decoding leaves it and the error returned. *)
Definition Unmarshal (data : string) (output : ErrorResponse)
  : ErrorResponse * option error :=
  match parse data with
  | None => (output, Some SyntaxError)
  | Some Null => (output, None)
  | Some (Object members) => foldl decode_member (output, None) members
  | Some _ => (output, Some UnmarshalTypeError)
  end.

End json.

(** ** [mime/multipart]: the writer

    The writer is kept as its boundary, the bytes it has written and
    whether a part is open.  Writing goes to a [bytes.Buffer] in memory,
    which never fails. *)

Module multipart.
Import bytes.

Record Writer := {
  boundary : string;
  written : string;        (* the bytes in the buffer the writer writes to *)
  lastpart : bool          (* a part is open: [w.lastpart != nil] *)
}.

(** [multipart.NewWriter(body)]; the boundary is drawn at random. *)
Definition NewWriter (boundary : string) : Writer :=
  {| boundary := boundary; written := EmptyString; lastpart := false |}.

Definition CRLF : string := String "013" (String "010" EmptyString).

(** [s] between double quotes (the byte 34). *)
Definition quoted (s : string) : string := String "034" (s +:+ String "034" EmptyString).

(** [escapeQuotes]: a backslash goes before every backslash and double
    quote; a carriage return is written [%0D] and a line feed [%0A]. *)
Fixpoint escapeQuotes (s : string) : string :=
  match s with
  | EmptyString => EmptyString
  | String c s' =>
      if Ascii.eqb c "\" || Ascii.eqb c "034"
      then String "\" (String c (escapeQuotes s'))
      else if Ascii.eqb c "013" then "%0D" +:+ escapeQuotes s'
      else if Ascii.eqb c "010" then "%0A" +:+ escapeQuotes s'
      else String c (escapeQuotes s')
  end.

(** [w.CreatePart(header)]: the delimiter, with a line end before it
    unless the part is the first, the fields of the header and an empty
    line.  The fields are given in the order of their keys, in which
    [CreatePart] writes them. *)
Definition CreatePart (header : list (string * string)) (w : Writer) : result Writer :=
  Ok {| boundary := boundary w;
        written :=
          written w
          +:+ (if lastpart w then CRLF else EmptyString) +:+ "--" +:+ boundary w +:+ CRLF
          +:+ foldr (λ '(k, v) rest, k +:+ ": " +:+ v +:+ CRLF +:+ rest) EmptyString header
          +:+ CRLF;
        lastpart := true |}.

(** [FileContentDisposition(fieldname, filename)]: the disposition of a
    file of a form, with the two names escaped and between quotes. *)
Definition FileContentDisposition (fieldname filename : string) : string :=
  "form-data; name=" +:+ quoted (escapeQuotes fieldname)
  +:+ "; filename=" +:+ quoted (escapeQuotes filename).

(** [w.CreateFormFile(fieldname, filename)] *)
Definition CreateFormFile (fieldname filename : string) (w : Writer) : result Writer :=
  CreatePart
    [("Content-Disposition", FileContentDisposition fieldname filename);
     ("Content-Type", "application/octet-stream")]
    w.

(** [part.Write(p)] on the part opened last. *)
Definition Write (p : string) (w : Writer) : Writer :=
  {| boundary := boundary w; written := written w +:+ p; lastpart := lastpart w |}.

(** [w.Close()]: the closing delimiter. *)
Definition Close (w : Writer) : Writer * option error :=
  ({| boundary := boundary w;
      written := written w +:+ CRLF +:+ "--" +:+ boundary w +:+ "--" +:+ CRLF;
      lastpart := false |},
   None).

(** [w.FormDataContentType()]: the boundary goes between quotes if it
    holds a space or one of the special bytes of RFC 2045. *)
Definition FormDataContentType (w : Writer) : string :=
  let b := boundary w in
  let special (c : ascii) :=
    contains_byte c "()<>@,;:\/[]?= " || Ascii.eqb c "034" in
  "multipart/form-data; boundary="
  +:+ (if forallb_string (λ c, negb (special c)) b then b else quoted b).

(** The bytes in the buffer the writer wrote to. *)
Definition Writer_bytes (w : Writer) : string := written w.

End multipart.

(** ** [io]: readers *)

(** An [io.Reader], by what reading it to the end gives: the bytes read
    and the error that ended the reading, if it was not the end of the
    data. *)
Record Reader := {
  content : string;
  failure : option error
}.

(** [bytes.NewReader(b)] and [bytes.NewBuffer(b)] *)
Definition bytes_NewReader (b : string) : Reader := {| content := b; failure := None |}.

(** [ioutil.ReadAll(r)] *)
Definition ioutil_ReadAll (r : Reader) : string * option error := (content r, failure r).

(** [io.Copy(part, reader)] into the open part of a multipart writer. *)
Definition io_Copy (w : multipart.Writer) (reader : Reader) : multipart.Writer * option error :=
  (multipart.Write (content reader) w, failure reader).

(** ** [net/http]: headers, requests, responses *)

Module http.
Import bytes.

(** [http.Header] is [map[string][]string], under canonical keys. *)
Abbreviation Header := (gmap string (list string)).

Definition validHeaderFieldByte (c : ascii) : bool :=
  is_alnum c || contains_byte c "!#$%&'*+-.^_`|~".

Fixpoint canonical (upper : bool) (s : string) : string :=
  match s with
  | EmptyString => EmptyString
  | String c s' =>
      let c' := if upper then to_upper c else to_lower c in
      String c' (canonical (Ascii.eqb c' "-") s')
  end.

(** [textproto.CanonicalMIMEHeaderKey]: a key made of token bytes gets
    an upper-case letter first and after each dash and lower-case letters
    elsewhere; any other key is left as it is. *)
Definition CanonicalMIMEHeaderKey (s : string) : string :=
  if forallb_string validHeaderFieldByte s then canonical true s else s.

(** [h.Set(key, value)] *)
Definition Header_Set (key value : string) (h : Header) : Header :=
  <[CanonicalMIMEHeaderKey key := [value]]> h.

(** The body of a request: bytes from a buffer, or the buffer a
    multipart writer wrote to. *)
Inductive Payload : Type :=
  | payload_bytes (b : string)
  | payload_multipart (w : multipart.Writer).

Definition Payload_bytes (p : Payload) : string :=
  match p with
  | payload_bytes b => b
  | payload_multipart w => multipart.Writer_bytes w
  end.

Record Request := {
  req_Method : string;
  req_URL : url.URL;
  req_Header : Header;
  req_Body : option Payload
}.

Definition Request_set_Header (h : Header) (r : Request) : Request :=
  {| req_Method := req_Method r; req_URL := req_URL r; req_Header := h;
     req_Body := req_Body r |}.

Definition Request_set_URL (u : url.URL) (r : Request) : Request :=
  {| req_Method := req_Method r; req_URL := u; req_Header := req_Header r;
     req_Body := req_Body r |}.

Record Response := {
  StatusCode : Z;
  resp_Body : Reader
}.

End http.

(** ** [net/textproto]: reading a MIME header *)

Module textproto.
Import bytes.

(** [textproto.MIMEHeader] *)
Abbreviation MIMEHeader := (gmap string (list string)).

Definition LF : ascii := "010".
Definition CR : ascii := "013".

Definition is_blank (c : ascii) : bool := Ascii.eqb c " " || Ascii.eqb c "009".

Fixpoint TrimLeft (p : ascii → bool) (s : string) : string :=
  match s with
  | String c s' => if p c then TrimLeft p s' else s
  | EmptyString => EmptyString
  end.

Fixpoint TrimRight (p : ascii → bool) (s : string) : string :=
  match s with
  | String c s' =>
      let t := TrimRight p s' in
      if String.eqb t "" && p c then EmptyString else String c t
  | EmptyString => EmptyString
  end.

(** [trim]: spaces and tabs off both ends *)
Definition trim (s : string) : string := TrimRight is_blank (TrimLeft is_blank s).

(** A line without a carriage return at its end. *)
Fixpoint dropCR (line : string) : string :=
  match line with
  | String c EmptyString => if Ascii.eqb c CR then EmptyString else line
  | String c rest => String c (dropCR rest)
  | EmptyString => EmptyString
  end.

(** [readLineSlice]: the next line without its end, and what follows it;
    [None] at the end of the input. *)
Definition readLineSlice (s : string) : option (string * string) :=
  if String.eqb s "" then None
  else match Cut LF s with
       | (line, Some rest) => Some (dropCR line, rest)
       | (line, None) => Some (line, EmptyString)
       end.

(** The continuation lines of a header field: each starts with a space
    or a tab and is joined to the field by one space. *)
Fixpoint continuation (fuel : nat) (buf s : string) : string * string :=
  match fuel, s with
  | S fuel, String c _ =>
      if is_blank c then
        match readLineSlice (TrimLeft is_blank s) with
        | Some (line, rest) => continuation fuel (buf +:+ " " +:+ trim line) rest
        | None => (buf +:+ " ", EmptyString)
        end
      else (buf, s)
  | _, _ => (buf, s)
  end.

(** [readContinuedLineSlice]: a field with its continuation lines; the
    first line must hold a colon ([mustHaveFieldNameColon]). *)
Definition readContinuedLineSlice (s : string) : option (string * string) :=
  match readLineSlice s with
  | None => None
  | Some (line, rest) =>
      if String.eqb line "" then Some (line, rest)
      else if negb (contains_byte ":" line) then None
      else Some (continuation (String.length rest) (trim line) rest)
  end.

(** [validHeaderValueByte]: the visible ASCII bytes, the space, the tab
    and the bytes above 127. *)
Definition validHeaderValueByte (c : ascii) : bool :=
  (byte_le " " c && negb (Ascii.eqb c "127")) || Ascii.eqb c "009".

(** [canonicalMIMEHeaderKey]: the key in canonical form; a key with a
    space in it is taken as it is, and an empty key or a key with another
    byte that is not allowed in a field name is an error. *)
Definition canonicalMIMEHeaderKey (k : string) : option string :=
  if String.eqb k "" then None
  else if forallb_string (λ c, http.validHeaderFieldByte c || Ascii.eqb c " ") k
  then Some (if contains_byte " " k then k else http.canonical true k)
  else None.

(** The fields of a header, up to the empty line that ends it. *)
Fixpoint fields (fuel : nat) (m : MIMEHeader) (s : string) : option (MIMEHeader * string) :=
  match fuel with
  | O => None
  | S fuel =>
      match readContinuedLineSlice s with
      | None => None
      | Some (kv, rest) =>
          if String.eqb kv "" then Some (m, rest)
          else
            match Cut ":" kv with
            | (k, Some v) =>
                match canonicalMIMEHeaderKey k with
                | None => None
                | Some key =>
                    if negb (forallb_string validHeaderValueByte v) then None
                    else
                      let value := TrimLeft is_blank v in
                      fields fuel (<[key := default [] (m !! key) ++ [value]]> m) rest
                end
            | (_, None) => None
            end
      end
  end.

(** [ReadMIMEHeader]: the header and what follows its empty line, or
    [None] for a header that is malformed or cut short.  The first line
    may not start with a space or a tab.  (The limits on the size of a
    header are not modelled.) *)
Definition ReadMIMEHeader (s : string) : option (MIMEHeader * string) :=
  match s with
  | String c _ => if is_blank c then None else fields (S (String.length s)) ∅ s
  | EmptyString => None
  end.

(** [h.Get(key)], for a canonical key *)
Definition Get (key : string) (h : MIMEHeader) : string :=
  match h !! key with
  | Some (v :: _) => v
  | _ => EmptyString
  end.

End textproto.

(** ** [mime]: a media type and its parameters *)

Module mime.
Import bytes.

Definition quote : ascii := "034".

(** [isTSpecial]: a round, angle or square bracket, an at sign, a comma,
    a semicolon, a colon, a backslash, a double quote, a slash, a question
    mark or an equals sign. *)
Definition isTSpecial (c : ascii) : bool :=
  contains_byte c "()<>@,;:\/[]?=" || Ascii.eqb c quote.

Definition isTokenChar (c : ascii) : bool :=
  byte_lt " " c && byte_lt c "127" && negb (isTSpecial c).

(** [unicode.IsSpace] on ASCII *)
Definition isSpace (c : ascii) : bool :=
  Ascii.eqb c " " || (byte_le "009" c && byte_le c "013").

Definition TrimSpace (s : string) : string :=
  textproto.TrimRight isSpace (textproto.TrimLeft isSpace s).

(** [consumeToken] *)
Definition consumeToken (v : string) : string * string := span isTokenChar v.

(** A quoted string after its opening quote: its value and what follows
    the closing quote.  A backslash before a special byte stands for that
    byte, any other backslash for itself; a carriage return, a line feed
    or a missing closing quote is an error. *)
Fixpoint consumeQuoted (v : string) : option (string * string) :=
  let cons (c : ascii) := fmap (M := option) (λ '(t, rest), (String c t, rest)) in
  match v with
  | EmptyString => None
  | String r v' =>
      if Ascii.eqb r quote then Some (EmptyString, v')
      else
        match v' with
        | String n v'' =>
            if Ascii.eqb r "\" && isTSpecial n then cons n (consumeQuoted v'')
            else if Ascii.eqb r "013" || Ascii.eqb r "010" then None
            else cons r (consumeQuoted v')
        | EmptyString => None
        end
  end.

(** [consumeValue]: a token or a quoted string; [("", v)] if there is
    none. *)
Definition consumeValue (v : string) : string * string :=
  match v with
  | EmptyString => (EmptyString, EmptyString)
  | String c v' =>
      if negb (Ascii.eqb c quote) then consumeToken v
      else match consumeQuoted v' with
           | Some (value, rest) => (value, rest)
           | None => (EmptyString, v)
           end
  end.

(** [consumeMediaParam]: a semicolon, a name, an equals sign and a
    value, with white space between them; the name is empty if there is
    no such parameter at the head of [v]. *)
Definition consumeMediaParam (v : string) : string * string * string :=
  let rest := textproto.TrimLeft isSpace v in
  match rest with
  | String c rest1 =>
      if negb (Ascii.eqb c ";") then (EmptyString, EmptyString, rest)
      else
        let '(param, rest2) := consumeToken (textproto.TrimLeft isSpace rest1) in
        let param := map_string to_lower param in
        if String.eqb param "" then (EmptyString, EmptyString, v)
        else
          match textproto.TrimLeft isSpace rest2 with
          | String e rest3 =>
              if negb (Ascii.eqb e "=") then (EmptyString, EmptyString, v)
              else
                let rest4 := textproto.TrimLeft isSpace rest3 in
                let '(value, rest5) := consumeValue rest4 in
                if String.eqb value "" && String.eqb rest5 rest4
                then (EmptyString, EmptyString, v)
                else (param, value, rest5)
          | EmptyString => (EmptyString, EmptyString, v)
          end
  | EmptyString => (EmptyString, EmptyString, rest)
  end.

(** [checkMediaTypeDisposition]: a token, or two with a slash between *)
Definition checkMediaTypeDisposition (s : string) : bool :=
  let '(typ, rest) := consumeToken s in
  if String.eqb typ "" then false
  else match rest with
       | EmptyString => true
       | String c rest' =>
           if negb (Ascii.eqb c "/") then false
           else let '(subtype, rest'') := consumeToken rest' in
                negb (String.eqb subtype "") && String.eqb rest'' ""
       end.

(** The parameters after the media type. *)
Fixpoint parameters (fuel : nat) (params : gmap string string) (v : string)
  : option (gmap string string) :=
  match fuel with
  | O => None
  | S fuel =>
      let v := textproto.TrimLeft isSpace v in
      if String.eqb v "" then Some params
      else
        let '(key, value, rest) := consumeMediaParam v in
        if String.eqb key "" then
          if String.eqb (TrimSpace rest) ";" then Some params else None
        else if contains_byte "*" key then None
        else
          match params !! key with
          | Some old => if String.eqb old value then parameters fuel params rest else None
          | None => parameters fuel (<[key := value]> params) rest
          end
  end.

(** [mime.ParseMediaType]: the media type in lower case and its
    parameters, or [None] for an error.  (Parameters in the extended
    notation of RFC 2231, whose names hold a star, are not modelled: they
    are an error here.) *)
Definition ParseMediaType (v : string) : option (string * gmap string string) :=
  let '(base, after) := Cut ";" v in
  let mediatype := TrimSpace (map_string to_lower base) in
  if negb (checkMediaTypeDisposition mediatype) then None
  else
    let v := match after with Some a => String ";" a | None => EmptyString end in
    (λ params, (mediatype, params)) <$> parameters (S (String.length v)) ∅ v.

End mime.

(** ** [mime/multipart]: the reader *)

Module multipart_reader.
Import bytes.

(** A part read from a body: its header and, read to its end, its
    content. *)
Record Part := {
  Header : textproto.MIMEHeader;
  Data : string
}.

(** The reader: what is left of the body, the line end in use ([r.nl])
    and the number of parts read. *)
Record Reader := {
  input : string;
  nl : string;
  partsRead : nat
}.

(** [multipart.NewReader(body, boundary)] *)
Definition NewReader (body : string) : Reader :=
  {| input := body; nl := multipart.CRLF; partsRead := 0 |}.

Definition skipLWSPChar (b : string) : string := textproto.TrimLeft textproto.is_blank b.

(** [r.isFinalBoundary(line)] *)
Definition isFinalBoundary (boundary nl line : string) : bool :=
  match strip_prefix ("--" +:+ boundary +:+ "--") line with
  | Some rest =>
      let rest := skipLWSPChar rest in
      String.eqb rest "" || String.eqb rest nl
  | None => false
  end.

(** [r.isBoundaryDelimiterLine(line)], with the line end in use after it:
    before the first part a delimiter line that ends in a bare line feed
    makes the reader go on with bare line feeds. *)
Definition isBoundaryDelimiterLine (boundary : string) (r : Reader) (line : string)
  : bool * string :=
  match strip_prefix ("--" +:+ boundary) line with
  | Some rest =>
      let rest := skipLWSPChar rest in
      let nl' :=
        if Nat.eqb (partsRead r) 0 && String.eqb rest (String textproto.LF EmptyString)
        then String textproto.LF EmptyString else nl r in
      (String.eqb rest nl', nl')
  | None => (false, nl r)
  end.

(** [matchAfterPrefix] on what follows the prefix, the whole input being
    at hand: the prefix is a delimiter if the input ends there or goes on
    with white space or two dashes. *)
Definition matchAfterPrefix (after : string) : bool :=
  match after with
  | EmptyString => true
  | String c rest =>
      if Ascii.eqb c " " || Ascii.eqb c "009" || Ascii.eqb c "013" || Ascii.eqb c "010"
      then true
      else if Ascii.eqb c "-" then
        match rest with
        | String c' _ => Ascii.eqb c' "-"
        | EmptyString => false
        end
      else false
  end.

(** [scanUntilBoundary], call after call, past the start of the content:
    the content up to the first delimiter and the input from that
    delimiter on; [None] if the input ends without one. *)
Fixpoint scan (fuel : nat) (nlDashBoundary s : string) : option (string * string) :=
  match fuel with
  | O => None
  | S fuel =>
      match strip_prefix nlDashBoundary s with
      | Some after =>
          if matchAfterPrefix after then Some (EmptyString, s)
          else (λ '(d, r), (nlDashBoundary +:+ d, r)) <$> scan fuel nlDashBoundary after
      | None =>
          match s with
          | String c s' => (λ '(d, r), (String c d, r)) <$> scan fuel nlDashBoundary s'
          | EmptyString => None
          end
      end
  end.

(** The content of a part, read to its end: at its start the boundary
    without a line end before it ends the part too. *)
Definition content (boundary nl s : string) : option (string * string) :=
  let dashBoundary := "--" +:+ boundary in
  let nlDashBoundary := nl +:+ dashBoundary in
  match strip_prefix dashBoundary s with
  | Some after =>
      if matchAfterPrefix after then Some (EmptyString, s)
      else (λ '(d, r), (dashBoundary +:+ d, r))
             <$> scan (S (String.length after)) nlDashBoundary after
  | None => scan (S (String.length s)) nlDashBoundary s
  end.

(** What [NextPart] comes to, the content of the part being read with it. *)
Inductive Next : Type :=
  | next_part (p : Part) (r : Reader)
  | next_EOF
  | next_error.

(** [newPart]: the header, then the content. *)
Definition newPart (boundary : string) (r : Reader) : Next :=
  match textproto.ReadMIMEHeader (input r) with
  | None => next_error
  | Some (header, rest) =>
      match content boundary (nl r) rest with
      | None => next_error
      | Some (data, rest') =>
          next_part {| Header := header; Data := data |}
                    {| input := rest'; nl := nl r; partsRead := partsRead r |}
      end
  end.

(** The loop of [r.NextPart()] over the lines up to the next delimiter. *)
Fixpoint nextLine (fuel : nat) (boundary : string) (r : Reader) (expectNewPart : bool)
  : Next :=
  match fuel with
  | O => next_error
  | S fuel =>
      match Cut textproto.LF (input r) with
      | (line, None) => if isFinalBoundary boundary (nl r) line then next_EOF else next_error
      | (line, Some rest) =>
          let line := line +:+ String textproto.LF EmptyString in
          let '(delimiter, nl') := isBoundaryDelimiterLine boundary r line in
          if delimiter then
            newPart boundary {| input := rest; nl := nl'; partsRead := S (partsRead r) |}
          else if isFinalBoundary boundary (nl r) line then next_EOF
          else if expectNewPart then next_error
          else
            let r' := {| input := rest; nl := nl r; partsRead := partsRead r |} in
            if Nat.eqb (partsRead r) 0 then nextLine fuel boundary r' false
            else if String.eqb line (nl r) then nextLine fuel boundary r' true
            else next_error
      end
  end.

(** [r.NextPart()] followed by [ioutil.ReadAll] on the part. *)
Definition NextPart (boundary : string) (r : Reader) : Next :=
  if String.eqb boundary "" then next_error
  else nextLine (S (String.length (input r))) boundary r false.

(** The parts of a body, in order, or [None] if reading fails. *)
Fixpoint parts (fuel : nat) (boundary : string) (r : Reader) : option (list Part) :=
  match fuel with
  | O => None
  | S fuel =>
      match NextPart boundary r with
      | next_part p r' => (λ ps, p :: ps) <$> parts fuel boundary r'
      | next_EOF => Some []
      | next_error => None
      end
  end.

Definition ReadAll (boundary body : string) : option (list Part) :=
  parts (S (String.length body)) boundary (NewReader body).

(** [p.FormName()] *)
Definition FormName (p : Part) : string :=
  match mime.ParseMediaType (textproto.Get "Content-Disposition" (Header p)) with
  | Some (disposition, params) =>
      if String.eqb disposition "form-data" then default EmptyString (params !! "name")
      else EmptyString
  | None => EmptyString
  end.

(** The [filename] parameter of the disposition, of which [p.FileName()]
    gives the last path element. *)
Definition filename (p : Part) : string :=
  match mime.ParseMediaType (textproto.Get "Content-Disposition" (Header p)) with
  | Some (_, params) => default EmptyString (params !! "filename")
  | None => EmptyString
  end.

End multipart_reader.

(** ** [regexp]: the fragment the client's pattern needs

    Matching is the backtracking search whose first success Go's
    [regexp] returns (leftmost, and greedy for [+]).  The engine runs on
    bytes; Go's runs on UTF-8 runes, which gives the same matches for the
    classes used here: the bytes of [\w] and the white space excluded by
    [\S] are ASCII, and no byte of a longer rune is ASCII. *)

Module regexp.
Import bytes.

Inductive Regexp : Type :=
  | Bol                                 (* [^] *)
  | Lit (text : string)                 (* literal text *)
  | Plus (class : ascii → bool)         (* [c+] for a character class [c] *)
  | Cat (r1 r2 : Regexp)
  | Group (index : nat) (r : Regexp).   (* a capturing group *)

(** [\w] *)
Definition word (c : ascii) : bool := is_alnum c || Ascii.eqb c "_".

(** [\S]: any byte but tab, line feed, form feed, carriage return, space *)
Definition non_space (c : ascii) : bool :=
  negb (Ascii.eqb c "009" || Ascii.eqb c "010" || Ascii.eqb c "012"
        || Ascii.eqb c "013" || Ascii.eqb c " ").

Fixpoint NumSubexp (r : Regexp) : nat :=
  match r with
  | Bol | Lit _ | Plus _ => 0
  | Cat r1 r2 => NumSubexp r1 `max` NumSubexp r2
  | Group i r1 => i `max` NumSubexp r1
  end.

(** What of [s] was consumed to leave [rest]. *)
Definition consumed (s rest : string) : string :=
  String.substring 0 (String.length s - String.length rest) s.

(** [c+] at the head of [s]: the longest run first, then shorter ones. *)
Fixpoint plus_loop {R : Type} (class : ascii → bool) (s : string)
    (k : string → option R) : option R :=
  match s with
  | String c s' =>
      if class c then
        match plus_loop class s' k with
        | Some r => Some r
        | None => k s'
        end
      else None
  | EmptyString => None
  end.

(** [r] at the head of [s], then the continuation [k] on what is left;
    [input] is the whole text, for [^]. *)
Fixpoint run {R : Type} (r : Regexp) (input s : string) (caps : list string)
    (k : string → list string → option R) : option R :=
  match r with
  | Bol => if Nat.eqb (String.length s) (String.length input) then k s caps else None
  | Lit text =>
      match strip_prefix text s with
      | Some s' => k s' caps
      | None => None
      end
  | Plus class => plus_loop class s (λ s', k s' caps)
  | Cat r1 r2 => run r1 input s caps (λ s' caps', run r2 input s' caps' k)
  | Group i r1 =>
      run r1 input s caps (λ s' caps', k s' (<[i := consumed s s']> caps'))
  end.

Fixpoint find_from (r : Regexp) (input s : string) : option (list string) :=
  match run r input s (replicate (S (NumSubexp r)) "")
            (λ s' caps, Some (<[0%nat := consumed s s']> caps)) with
  | Some m => Some m
  | None =>
      match s with
      | String _ s' => find_from r input s'
      | EmptyString => None
      end
  end.

(** [re.FindStringSubmatch(s)]: the leftmost match and the text of its
    groups, or [None] for Go's [nil]. *)
Definition FindStringSubmatch (re : Regexp) (s : string) : option (list string) :=
  find_from re s s.

(** [re.MatchString(s)] *)
Definition MatchString (re : Regexp) (s : string) : bool :=
  bool_decide (is_Some (FindStringSubmatch re s)).

End regexp.

(** ** The client's surroundings *)

(** [time.Time]: an instant and the offset of its zone. *)
Record Time := {
  unix_seconds : Z;
  nanoseconds : Z;
  zone_offset : Z
}.

(** The CLI configuration that [getValidCliConfig()] returns. *)
Record CliConfig := {
  CortexURL : string;
  AWSAccessKeyID : string;
  AWSSecretAccessKey : string
}.

(** What [dialer.Dial] returns.  The connection is kept as what its
    successive [ReadMessage] calls will return. *)
Record DialResult := {
  dial_connection : list (result string);
  dial_response : option http.Response;
  dial_err : option error
}.

(** Everything the client takes from outside the embedded file. *)
Record Env := {
  env_range : MapRange;
  (* [getValidCliConfig()] *)
  getValidCliConfig : CliConfig;
  (* [consts.CortexVersion] *)
  CortexVersion : string;
  (* the messages of [pkg/api/strings] *)
  ErrCantMakeRequest : string;
  ErrRead : string;
  ErrMarshalJson : string;
  ErrReadFile : string → string;
  ErrFailedToConnect : string → string;
  (* [util.CleanURL] *)
  CleanURL : string → string;
  (* [util.LocalTimestampHuman] *)
  LocalTimestampHuman : Time → string;
  (* the URLs [url.Parse] rejects for their scheme, authority or path *)
  url_Parse_error : string → option error;
  (* the operator, as seen through [httpClient.Do] and [dialer.Dial] *)
  httpClient_Do : http.Request → result http.Response;
  dialer_Dial : string → http.Header → DialResult;
  (* [os.Open] *)
  os_Open : string → result Reader;
  (* the boundary [multipart.NewWriter] draws *)
  randomBoundary : string;
  (* [time.Parse(time.RFC3339, value)] *)
  time_Parse_RFC3339 : string → result Time
}.

(** What the client hands to the network, in order. *)
Inductive Emitted : Type :=
  | emit_request (request : http.Request)                      (* [httpClient.Do] *)
  | emit_handshake (wsURL : string) (header : http.Header).    (* [dialer.Dial] *)

Record World := {
  emitted : list Emitted
}.

Definition emit (e : Emitted) (w : World) : World :=
  {| emitted := emitted w ++ [e] |}.

(** The argument of [errors.Exit], which ends the process. *)
Inductive ExitArg : Type :=
  | exit_error (err : error)
  | exit_message (msg : string).

(** ** The log stream session: two goroutines and two channels *)

Inductive Goroutine : Type :=
  | goroutine_running
  | goroutine_returned.

Record Session := {
  (* what [connection.ReadMessage()] will return, call after call *)
  incoming : list (result string);
  (* the [connection.WriteMessage(messageType, data)] calls made *)
  written : list (Z * string);
  (* the channel [done]: closed or not *)
  done_closed : bool;
  (* the channel [interrupt], of capacity 1: a signal is queued or not *)
  interrupt_queued : bool;
  (* standard output *)
  stdout : string;
  (* the goroutine of [handleConnection] *)
  reader : Goroutine;
  (* [closeConnection], on the goroutine of [StreamLogs] *)
  coordinator : Goroutine;
  (* the status [os.Exit] ended the process with *)
  exited : option Z
}.

Definition Session_start (connection : list (result string)) : Session :=
  {| incoming := connection; written := []; done_closed := false;
     interrupt_queued := false; stdout := ""; reader := goroutine_running;
     coordinator := goroutine_running; exited := None |}.

(** The outcome of [StreamLogs] up to the point where the two goroutines
    run: the process has exited, or a session has started. *)
Inductive StreamOutcome : Type :=
  | stream_exit (arg : ExitArg)
  | stream_session (s : Session).

(** ** [cli/cmd/lib_client.go] *)

Definition LF : string := String "010" EmptyString.

(** [fmt.Println(s)] on the standard output [out]. *)
Definition fmt_Println (s : string) (out : string) : string := out +:+ s +:+ LF.

(** [strconv.FormatBool] *)
Definition strconv_FormatBool (b : bool) : string := if b then "true" else "false".

(** gorilla/websocket: [CloseMessage], [CloseNormalClosure] and
    [FormatCloseMessage], which puts the code in two bytes, high byte
    first, before the text. *)
Definition websocket_CloseMessage : Z := 8.
Definition websocket_CloseNormalClosure : N := 1000.
Definition websocket_FormatCloseMessage (closeCode : N) (text : string) : string :=
  String (ascii_of_N (N.shiftr closeCode 8))
    (String (ascii_of_N (N.land closeCode 255)) text).

Record HTTPUploadInput := {
  FilePaths : gmap string string;
  Bytes : gmap string string
}.

(** A [for key, value := range m] loop over the entries [l] whose body
    may leave the function with an error. *)
Fixpoint for_range {A S : Type} (body : string → A → S → S * option error)
    (l : list (string * A)) (s : S) : S * option error :=
  match l with
  | [] => (s, None)
  | (key, value) :: l' =>
      match body key value s with
      | (s', Some err) => (s', Some err)
      | (s', None) => for_range body l' s'
      end
  end.

(** The turns of the reading loop of [handleConnection]: the loop goes
    on after printing, the process exits, or the goroutine returns and
    its deferred [close(done)] runs. *)
Inductive ReaderAction : Type :=
  | reader_continue (out : string)
  | reader_exit (code : Z)
  | reader_return.

(** [regexp.MustCompile(`^workload: (\w+), completed: (\S+)`)] *)
Definition lastLogRe : regexp.Regexp :=
  regexp.Cat regexp.Bol
    (regexp.Cat (regexp.Lit "workload: ")
       (regexp.Cat (regexp.Group 1 (regexp.Plus regexp.word))
          (regexp.Cat (regexp.Lit ", completed: ")
             (regexp.Group 2 (regexp.Plus regexp.non_space))))).

Section Client.
Context (env : Env).

Definition range {A : Type} (m : gmap string A) : list (string * A) :=
  range_map (env_range env) m.

(** [validMethod] of [net/http] *)
Definition validMethod (method : string) : bool :=
  negb (String.eqb method "") && bytes.forallb_string http.validHeaderFieldByte method.

(** [http.NewRequest(method, url, body)] *)
Definition http_NewRequest (method rawURL : string) (body : option http.Payload)
  : result http.Request :=
  let method := if String.eqb method "" then "GET" else method in
  if negb (validMethod method) then Err (errors_New "net/http: invalid method")
  else match url_Parse_error env rawURL with
       | Some err => Err err
       | None =>
           Ok {| http.req_Method := method;
                 http.req_URL := url.split_url rawURL;
                 http.req_Header := ∅;
                 http.req_Body := body |}
       end.

Definition authHeader : string :=
  let cliConfig := getValidCliConfig env in
  "CortexAWS " +:+ AWSAccessKeyID cliConfig +:+ "|" +:+ AWSSecretAccessKey cliConfig.

Definition operatorRequest (method endpoint : string) (body : option http.Payload)
    (qParams : list (gmap string string)) : result http.Request :=
  let cliConfig := getValidCliConfig env in
  match http_NewRequest method (CortexURL cliConfig +:+ endpoint) body with
  | Err err => Err (errors_Wrap err (ErrCantMakeRequest env))
  | Ok req =>
      let values := url.URL_Query (http.req_URL req) in
      let values :=
        foldl (λ values paramMap,
                 foldl (λ values '(key, value), url.Values_Set key value values)
                       values (range paramMap))
              values qParams in
      Ok (http.Request_set_URL
            (url.URL_set_RawQuery (url.Values_Encode values) (http.req_URL req)) req)
  end.

Definition makeRequest (request : http.Request) (w : World) : result string * World :=
  let request :=
    http.Request_set_Header
      (http.Header_Set "Authorization" authHeader (http.req_Header request)) request in
  let request :=
    http.Request_set_Header
      (http.Header_Set "CortexAPIVersion" (CortexVersion env) (http.req_Header request))
      request in
  let w := emit (emit_request request) w in
  match httpClient_Do env request with
  | Err err =>
      (Err (errors_Wrap err
              (ErrFailedToConnect env (CleanURL env (url.URL_String (http.req_URL request))))),
       w)
  | Ok response =>
      if negb (http.StatusCode response =? 200)%Z then
        let '(bodyBytes, err) := ioutil_ReadAll (http.resp_Body response) in
        match err with
        | Some _ => (Err (errors_New (ErrRead env)), w)
        | None =>
            let '(output, err) := json.Unmarshal bodyBytes {| json.Error := "" |} in
            if bool_decide (err ≠ None) || String.eqb (json.Error output) ""
            then (Err (errors_New bodyBytes), w)
            else (Err (errors_New (json.Error output)), w)
        end
      else
        let '(bodyBytes, err) := ioutil_ReadAll (http.resp_Body response) in
        match err with
        | Some err => (Err (errors_Wrap err (ErrRead env)), w)
        | None => (Ok bodyBytes, w)
        end
  end.

Definition HTTPGet (endpoint : string) (qParams : list (gmap string string)) (w : World)
  : result string * World :=
  match operatorRequest "GET" endpoint None qParams with
  | Err err => (Err err, w)
  | Ok req => makeRequest req w
  end.

Definition HTTPPostJSON (endpoint : string) (jsonRequestData : string)
    (qParams : list (gmap string string)) (w : World) : result string * World :=
  let payload := http.payload_bytes jsonRequestData in
  match operatorRequest "POST" endpoint (Some payload) qParams with
  | Err err => (Err err, w)
  | Ok req =>
      let req :=
        http.Request_set_Header
          (http.Header_Set "Content-Type" "application/json" (http.req_Header req)) req in
      makeRequest req w
  end.

(** [json_Marshal] stands for [json.Marshal] on the type of the data. *)
Definition HTTPPostJSONData {RequestData : Type}
    (json_Marshal : RequestData → result string)
    (endpoint : string) (requestData : RequestData)
    (qParams : list (gmap string string)) (w : World) : result string * World :=
  match json_Marshal requestData with
  | Err err => (Err (errors_Wrap err (ErrMarshalJson env)), w)
  | Ok jsonRequestData => HTTPPostJSON endpoint jsonRequestData qParams w
  end.

Definition addFileToMultipart (fileName : string) (writer : multipart.Writer)
    (reader : Reader) : multipart.Writer * option error :=
  match multipart.CreateFormFile fileName fileName writer with
  | Err err => (writer, Some (errors_Wrap err (ErrCantMakeRequest env)))
  | Ok writer =>
      match io_Copy writer reader with
      | (writer, Some err) => (writer, Some (errors_Wrap err (ErrCantMakeRequest env)))
      | (writer, None) => (writer, None)
      end
  end.

Definition HTTPUpload (endpoint : string) (input : HTTPUploadInput)
    (qParams : list (gmap string string)) (w : World) : result string * World :=
  let writer := multipart.NewWriter (randomBoundary env) in
  match for_range
          (λ fileName filePath writer,
             match os_Open env filePath with
             | Err err => (writer, Some (errors_Wrap err (ErrReadFile env filePath)))
             | Ok file => addFileToMultipart fileName writer file
             end)
          (range (FilePaths input)) writer with
  | (_, Some err) => (Err err, w)
  | (writer, None) =>
      match for_range
              (λ fileName fileBytes writer,
                 addFileToMultipart fileName writer (bytes_NewReader fileBytes))
              (range (Bytes input)) writer with
      | (_, Some err) => (Err err, w)
      | (writer, None) =>
          match multipart.Close writer with
          | (_, Some err) => (Err (errors_Wrap err (ErrCantMakeRequest env)), w)
          | (writer, None) =>
              match operatorRequest "POST" endpoint
                      (Some (http.payload_multipart writer)) qParams with
              | Err err => (Err err, w)
              | Ok req =>
                  let req :=
                    http.Request_set_Header
                      (http.Header_Set "Content-Type"
                         (multipart.FormDataContentType writer) (http.req_Header req))
                      req in
                  makeRequest req w
              end
          end
      end
  end.

(** [ZipToMem] stands for [util.ZipToMem]. *)
Definition HTTPUploadZip {ZipInput : Type} (ZipToMem : ZipInput → result string)
    (endpoint : string) (zipInput : ZipInput) (fileName : string)
    (qParams : list (gmap string string)) (w : World) : result string * World :=
  match ZipToMem zipInput with
  | Err err => (Err (errors_Wrap err "failed to zip configuration file"), w)
  | Ok zipBytes =>
      let uploadInput := {| FilePaths := ∅; Bytes := {[ fileName := zipBytes ]} |} in
      HTTPUpload endpoint uploadInput qParams w
  end.

(** The URL [StreamLogs] dials. *)
Definition StreamLogs_wsURL (req : http.Request)
    (appName resourceName resourceType : string) (verbose : bool) : string :=
  let values := url.URL_Query (http.req_URL req) in
  let values := url.Values_Set "resourceName" resourceName values in
  let values := url.Values_Set "resourceType" resourceType values in
  let values := url.Values_Set "appName" appName values in
  let values := url.Values_Set "verbose" (strconv_FormatBool verbose) values in
  let u := url.URL_set_RawQuery (url.Values_Encode values) (http.req_URL req) in
  let wsURL := url.URL_String u in
  bytes.Replace1 "http" "ws" wsURL.

(** [StreamLogs] up to the start of the two goroutines. *)
Definition StreamLogs (appName resourceName resourceType : string) (verbose : bool)
    (w : World) : StreamOutcome * World :=
  match operatorRequest "GET" "/logs/read" None [] with
  | Err err => (stream_exit (exit_error err), w)
  | Ok req =>
      let wsURL := StreamLogs_wsURL req appName resourceName resourceType verbose in
      let header : http.Header := ∅ in
      let header := http.Header_Set "Authorization" authHeader header in
      let header := http.Header_Set "CortexAPIVersion" (CortexVersion env) header in
      let w := emit (emit_handshake wsURL header) w in
      let dialed := dialer_Dial env wsURL header in
      match dial_response dialed with
      | None => (stream_exit (exit_message (ErrFailedToConnect env (CleanURL env wsURL))), w)
      | Some response =>
          match dial_err dialed with
          | Some _ =>
              let '(bodyBytes, err) := ioutil_ReadAll (http.resp_Body response) in
              if bool_decide (err ≠ None) || String.eqb bodyBytes ""
              then (stream_exit (exit_message (ErrFailedToConnect env (CleanURL env wsURL))), w)
              else
                let '(output, err) := json.Unmarshal bodyBytes {| json.Error := "" |} in
                if bool_decide (err ≠ None) || String.eqb (json.Error output) ""
                then (stream_exit (exit_message bodyBytes), w)
                else (stream_exit (exit_message (json.Error output)), w)
          | None => (stream_session (Session_start (dial_connection dialed)), w)
          end
      end
  end.

(** One turn of the loop [for { ... }] of the goroutine started by
    [handleConnection], on what [connection.ReadMessage()] returned. *)
Definition handleConnection_turn (read : result string) (out : string) : ReaderAction :=
  match read with
  | Err _ => reader_exit 1
  | Ok message =>
      let msgStr := message in
      if regexp.MatchString lastLogRe msgStr then
        let match_ := default [] (regexp.FindStringSubmatch lastLogRe msgStr) in
        match time_Parse_RFC3339 env (default "" (match_ !! 2%nat)) with
        | Err _ => reader_continue (fmt_Println msgStr out)
        | Ok timestamp =>
            let timestampHuman := LocalTimestampHuman env timestamp in
            reader_continue (fmt_Println (LF +:+ "Completed on " +:+ timestampHuman) out)
        end
      else reader_continue (fmt_Println msgStr out)
  end.

(** A step of the goroutine of [handleConnection]: it takes the next
    result of [ReadMessage], if the connection has one. *)
Definition handleConnection_step (s : Session) : option Session :=
  match exited s, reader s, incoming s with
  | None, goroutine_running, read :: rest =>
      Some match handleConnection_turn read (stdout s) with
           | reader_continue out =>
               {| incoming := rest; written := written s; done_closed := done_closed s;
                  interrupt_queued := interrupt_queued s; stdout := out;
                  reader := goroutine_running; coordinator := coordinator s;
                  exited := None |}
           | reader_exit code =>
               {| incoming := rest; written := written s; done_closed := done_closed s;
                  interrupt_queued := interrupt_queued s; stdout := stdout s;
                  reader := goroutine_running; coordinator := coordinator s;
                  exited := Some code |}
           | reader_return =>
               {| incoming := rest; written := written s; done_closed := true;
                  interrupt_queued := interrupt_queued s; stdout := stdout s;
                  reader := goroutine_returned; coordinator := coordinator s;
                  exited := None |}
           end
  | _, _, _ => None
  end.

(** The [select] of [closeConnection]: the states it can lead to, one
    for each case that is ready. *)
Definition closeConnection_select (s : Session) : list Session :=
  match exited s, coordinator s with
  | None, goroutine_running =>
      (if done_closed s then
         [ {| incoming := incoming s; written := written s; done_closed := true;
              interrupt_queued := interrupt_queued s; stdout := stdout s;
              reader := reader s; coordinator := goroutine_returned; exited := None |} ]
       else [])
      ++
      (if interrupt_queued s then
         [ {| incoming := incoming s;
              written := written s
                         ++ [(websocket_CloseMessage,
                              websocket_FormatCloseMessage websocket_CloseNormalClosure "")];
              done_closed := done_closed s; interrupt_queued := false;
              stdout := stdout s; reader := reader s;
              coordinator := goroutine_returned; exited := None |} ]
       else [])
  | _, _ => []
  end.

(** The operating system delivers an interrupt: [signal.Notify] queues it
    on the channel unless one is queued already. *)
Definition deliver_interrupt (s : Session) : option Session :=
  match exited s with
  | None =>
      Some {| incoming := incoming s; written := written s; done_closed := done_closed s;
              interrupt_queued := true; stdout := stdout s; reader := reader s;
              coordinator := coordinator s; exited := None |}
  | Some _ => None
  end.

(** The interleavings of a session. *)
Inductive step : Session → Session → Prop :=
  | step_interrupt s s' : deliver_interrupt s = Some s' → step s s'
  | step_reader s s' : handleConnection_step s = Some s' → step s s'
  | step_coordinator s s' : s' ∈ closeConnection_select s → step s s'.

Definition reachable (s0 s : Session) : Prop := rtc step s0 s.

End Client.

(** ** [pkg/operator/endpoints/delete.go] *)

Module endpoints.

(** [schema.DeleteResponse] *)
Record DeleteResponse := { Message : string }.

(** What a handler wrote to its [http.ResponseWriter]: a call of
    [RespondError] or of [Respond]. *)
Inductive Responded : Type :=
  | responded_error (err : error)
  | responded (response : DeleteResponse).

(** What the operator side takes from outside the embedded file. *)
Record OperatorEnv := {
  Cluster : Type;
  (* [workloads.DeleteApp] *)
  workloads_DeleteApp : string → bool → Cluster → bool * Cluster;
  (* the messages of [pkg/api/strings] *)
  ErrAppNotDeployed : string → string;
  ResDeploymentDeleted : string;
  (* the helpers of the package that read query parameters *)
  getRequiredQParam : string → http.Request → result string;
  getOptionalBoolQParam : string → bool → http.Request → bool
}.

(** Modelled from the spec: [RespondError], [Respond] and
    [RespondIfError] are not among the embedded files.  The first two
    write an error and a payload to the response writer; the third writes
    the error, if there is one, and tells whether it did. *)
Definition RespondError (w : list Responded) (err : error) : list Responded :=
  w ++ [responded_error err].
Definition Respond (w : list Responded) (response : DeleteResponse) : list Responded :=
  w ++ [responded response].
Definition RespondIfError (w : list Responded) (err : option error)
  : list Responded * bool :=
  match err with
  | Some err => (RespondError w err, true)
  | None => (w, false)
  end.

Definition Delete (op : OperatorEnv) (w : list Responded) (r : http.Request)
    (cluster : Cluster op) : list Responded * Cluster op :=
  let '(appName, err) :=
    match getRequiredQParam op "appName" r with
    | Ok appName => (appName, None)
    | Err err => ("", Some err)
    end in
  match RespondIfError w err with
  | (w, true) => (w, cluster)
  | (w, false) =>
      let keepCache := getOptionalBoolQParam op "keepCache" false r in
      let '(wasDeployed, cluster) := workloads_DeleteApp op appName keepCache cluster in
      if negb wasDeployed then
        (RespondError w (errors_New (ErrAppNotDeployed op appName)), cluster)
      else
        let response := {| Message := ResDeploymentDeleted op |} in
        (Respond w response, cluster)
  end.

End endpoints.

(** ** Notions used to state the properties *)

(** The [Authorization] header of something handed to the network. *)
Definition Authorization_of (e : Emitted) : option (list string) :=
  match e with
  | emit_request request => http.req_Header request !! "Authorization"
  | emit_handshake _ header => header !! "Authorization"
  end.

(** The request as [makeRequest] hands it to [httpClient.Do]. *)
Definition with_client_headers (env : Env) (request : http.Request) : http.Request :=
  let request :=
    http.Request_set_Header
      (http.Header_Set "Authorization" (authHeader env) (http.req_Header request)) request in
  http.Request_set_Header
    (http.Header_Set "CortexAPIVersion" (CortexVersion env) (http.req_Header request)) request.

(** The header [StreamLogs] hands to [dialer.Dial]. *)
Definition StreamLogs_header (env : Env) : http.Header :=
  http.Header_Set "CortexAPIVersion" (CortexVersion env)
    (http.Header_Set "Authorization" (authHeader env) ∅).

(** Between [w] and [w'] the client handed the network only requests
    with the [Authorization] header of the configuration. *)
Definition emits_authorized (env : Env) (w w' : World) : Prop :=
  ∃ new, emitted w' = emitted w ++ new
         ∧ Forall (λ e, Authorization_of e = Some [authHeader env]) new.

(** The value the last of the mappings that has [key] gives it. *)
Definition last_binding (key : string) (qParams : list (gmap string string))
  : option string :=
  foldl (λ acc paramMap, match paramMap !! key with Some v => Some v | None => acc end)
        None qParams.

(** The merge of [operatorRequest]: the mappings written over [values]. *)
Definition merged (env : Env) (values : url.Values) (qParams : list (gmap string string))
  : url.Values :=
  foldl (λ values paramMap,
           foldl (λ values '(key, value), url.Values_Set key value values)
                 values (range env paramMap))
        values qParams.

(** No key of the map has an empty list of values. *)
Definition nonempty_values (v : url.Values) : Prop := map_Forall (λ _ l, l ≠ []) v.

(** The pieces [Values.Encode] is made of. *)
Definition escape_byte (c : ascii) : string := url.QueryEscape (String c "").
Definition query_safe (c : ascii) : bool :=
  negb (Ascii.eqb c "&") && negb (Ascii.eqb c "=") && negb (Ascii.eqb c ";").
Definition encode_pair (k val : string) : string :=
  url.QueryEscape k +:+ "=" +:+ url.QueryEscape val.
Definition encode_binding (kv : string * string) : string := encode_pair kv.1 kv.2.
Definition encode_add (buf item : string) : string :=
  (if String.eqb buf "" then buf else buf +:+ "&") +:+ item.
Definition bindings (v : url.Values) (keys : list string) : list (string * string) :=
  keys ≫= (λ k, (λ val, (k, val)) <$> default [] (v !! k)).

(** The message [makeRequest] and [StreamLogs] make of the body of a
    refused request: the [error] field of the envelope if the body
    decodes to one that is not empty, the body itself otherwise. *)
Definition unified_message (bodyBytes : string) : string :=
  let '(output, err) := json.Unmarshal bodyBytes {| json.Error := "" |} in
  if bool_decide (err ≠ None) || String.eqb (json.Error output) ""
  then bodyBytes else json.Error output.

(** A byte that stands for itself in a JSON string literal. *)
Definition json_plain (c : ascii) : bool :=
  negb (bytes.byte_lt c " ") && bytes.byte_lt c "128"
  && negb (Ascii.eqb c "034") && negb (Ascii.eqb c "\").

(** What [os.Open] and reading to the end give for a path, if both succeed. *)
Definition file_content (env : Env) (filePath : string) : option string :=
  match os_Open env filePath with
  | Ok file => match failure file with None => Some (content file) | Some _ => None end
  | Err _ => None
  end.

(** [strings.Contains(s, sub)] *)
Fixpoint contains_string (sub s : string) : bool :=
  match bytes.strip_prefix sub s with
  | Some _ => true
  | None => match s with
            | String _ s' => contains_string sub s'
            | EmptyString => false
            end
  end.

(** The entries of an upload in the order [HTTPUpload] writes them, each
    a logical name and a content: the files, then the buffers. *)
Definition upload_entries (env : Env) (input : HTTPUploadInput) : list (string * string) :=
  ((λ kv, (kv.1, default "" (file_content env kv.2))) <$> range env (FilePaths input))
  ++ range env (Bytes input).

(** A byte of visible ASCII, or a space. *)
Definition printable (c : ascii) : bool := bytes.byte_le " " c && bytes.byte_lt c "127".

(** A logical name that a reader of the form gets back as it was
    written: at least one and at most 255 bytes, each of them printable.
    (A carriage return or a line feed is rewritten by [escapeQuotes]; the
    reader refuses a header with another control byte in it, or one above
    its size limit; a form has no part to give under the empty name.) *)
Definition upload_name (name : string) : bool :=
  bytes.forallb_string printable name && negb (String.eqb name "")
  && (String.length name <=? 255)%nat.

(** A boundary as [multipart.NewWriter] draws them: letters and digits,
    at least one and at most 70. *)
Definition plain_boundary (boundary : string) : bool :=
  negb (String.eqb boundary "") && bytes.forallb_string bytes.is_alnum boundary
  && (String.length boundary <=? 70)%nat.

(** The boundary after two dashes does not occur in the content. *)
Definition free_of_boundary (boundary data : string) : bool :=
  negb (contains_string ("--" +:+ boundary) data).

(** What a reader finds in a body: the form name, the [filename]
    parameter and the content of each part, in the order of the body;
    [None] if the body cannot be read. *)
Definition uploads_read (boundary body : string) : option (list (string * string * string)) :=
  match multipart_reader.ReadAll boundary body with
  | Some parts =>
      Some (map (λ p, (multipart_reader.FormName p, multipart_reader.filename p,
                       multipart_reader.Data p)) parts)
  | None => None
  end.

(** The delimiter between the parts of a body: a line end, two dashes
    and the boundary. *)
Definition delimiter (boundary : string) : string :=
  String "013" (String "010" (String "-" (String "-" boundary))).

(** The header lines [CreateFormFile] writes for a logical name, with the
    empty line that ends them. *)
Definition part_header (name : string) : string :=
  "Content-Disposition: " +:+ multipart.FileContentDisposition name name
  +:+ multipart.CRLF +:+ "Content-Type: application/octet-stream"
  +:+ multipart.CRLF +:+ multipart.CRLF.

(** The line of the disposition without its first and its last byte. *)
Definition disposition_line (fieldname filename : string) : string :=
  "ontent-Disposition: form-data; name=" +:+ multipart.quoted (multipart.escapeQuotes fieldname)
  +:+ "; filename=" +:+ String "034" (multipart.escapeQuotes filename).

(** The header of such a part as [ReadMIMEHeader] gives it. *)
Definition form_file_header (fieldname filename : string) : textproto.MIMEHeader :=
  <["Content-Type" := ["application/octet-stream"]]>
    (<["Content-Disposition" := [multipart.FileContentDisposition fieldname filename]]> ∅).

(** The bytes of the parts of a form, one per entry, each with its
    delimiter line, its header and its content; the first part of a body
    has no line end before its delimiter line. *)
Fixpoint parts_bytes (boundary : string) (first : bool) (entries : list (string * string))
  : string :=
  match entries with
  | [] => EmptyString
  | entry :: entries =>
      (if first then "--" +:+ boundary else delimiter boundary) +:+ multipart.CRLF
      +:+ part_header entry.1 +:+ entry.2 +:+ parts_bytes boundary false entries
  end.

(** The bytes of a closed form: the parts, then the closing delimiter. *)
Definition upload_bytes (boundary : string) (entries : list (string * string)) : string :=
  parts_bytes boundary true entries +:+ delimiter boundary +:+ "--" +:+ multipart.CRLF.

(** The part of an entry as a reader gives it. *)
Definition part_read (entry : string * string) : multipart_reader.Part :=
  {| multipart_reader.Header := form_file_header entry.1 entry.1;
     multipart_reader.Data := entry.2 |}.

(** Entries a reader takes back as they were written: logical names that
    are upload names, contents without the boundary after two dashes. *)
Definition entries_legible (boundary : string) (entries : list (string * string)) : Prop :=
  Forall (λ entry, upload_name entry.1 = true ∧ free_of_boundary boundary entry.2 = true)
         entries.

(** A writer after [addFileToMultipart] was called for the entries. *)
Definition add_entries (entries : list (string * string)) (w : multipart.Writer)
  : multipart.Writer :=
  {| multipart.boundary := multipart.boundary w;
     multipart.written :=
       multipart.written w
       +:+ parts_bytes (multipart.boundary w) (negb (multipart.lastpart w)) entries;
     multipart.lastpart :=
       match entries with [] => multipart.lastpart w | _ :: _ => true end |}.

(** A byte of a host name in lower case. *)
Definition host_byte (c : ascii) : bool :=
  bytes.is_lower c || bytes.is_digit c || Ascii.eqb c "." || Ascii.eqb c "-".

(** A base URL that [url.Parse] followed by [URL.String] gives back byte
    for byte: the scheme [http] or [https] in lower case, a host of
    lower-case letters, digits, dots and dashes, and either no port or a
    colon and a port of digits; no path, query or fragment. *)
Definition plain_origin (base : string) : bool :=
  let hostport :=
    match bytes.strip_prefix "http://" base with
    | Some hostport => Some hostport
    | None => bytes.strip_prefix "https://" base
    end in
  match hostport with
  | None => false
  | Some hostport =>
      let '(host, port) := bytes.span host_byte hostport in
      negb (String.eqb host "")
      && match port with
         | EmptyString => true
         | String c digits =>
             Ascii.eqb c ":" && negb (String.eqb digits "")
             && bytes.forallb_string bytes.is_digit digits
         end
  end.

(** The completion marker [workload: <identifier>, completed: <timestamp>]
    at the head of a frame, read off directly: the identifier is the run of
    word bytes after ["workload: "], the timestamp the run of bytes that
    are not white space after [", completed: "]. *)
Definition completion_marker (msgStr : string) : option (string * string) :=
  match bytes.strip_prefix "workload: " msgStr with
  | None => None
  | Some s1 =>
      let '(identifier, s2) := bytes.span regexp.word s1 in
      if String.eqb identifier "" then None
      else match bytes.strip_prefix ", completed: " s2 with
           | None => None
           | Some s3 =>
               let '(timestamp, _) := bytes.span regexp.non_space s3 in
               if String.eqb timestamp "" then None else Some (identifier, timestamp)
           end
  end.

(** The close frame [closeConnection] writes. *)
Definition normal_closure_frame : Z * string :=
  (websocket_CloseMessage, websocket_FormatCloseMessage websocket_CloseNormalClosure "").

(** What holds of a log stream session at every moment: nothing has
    closed [done], the reading goroutine is in its loop, and
    [closeConnection] has written the close frame exactly when it has
    returned. *)
Definition session_invariant (s : Session) : Prop :=
  done_closed s = false
  ∧ reader s = goroutine_running
  ∧ (coordinator s = goroutine_running → written s = [])
  ∧ (coordinator s = goroutine_returned → written s = [normal_closure_frame]).

(** The environment [env] with another order for [range]. *)
Definition Env_with_range (order : MapRange) (env : Env) : Env :=
  {| env_range := order;
     getValidCliConfig := getValidCliConfig env;
     CortexVersion := CortexVersion env;
     ErrCantMakeRequest := ErrCantMakeRequest env;
     ErrRead := ErrRead env;
     ErrMarshalJson := ErrMarshalJson env;
     ErrReadFile := ErrReadFile env;
     ErrFailedToConnect := ErrFailedToConnect env;
     CleanURL := CleanURL env;
     LocalTimestampHuman := LocalTimestampHuman env;
     url_Parse_error := url_Parse_error env;
     httpClient_Do := httpClient_Do env;
     dialer_Dial := dialer_Dial env;
     os_Open := os_Open env;
     randomBoundary := randomBoundary env;
     time_Parse_RFC3339 := time_Parse_RFC3339 env |}.

(** The bytes a query string written by [Values.Encode] is made of: the
    unreserved characters, the percent sign and the plus sign of the
    escapes, and the separators of the pairs. *)
Definition query_byte (c : ascii) : bool :=
  negb (url.shouldEscape c) || bytes.contains_byte c "%+&=".

(** The standard output after the reading loop of [handleConnection] has
    taken the frames [frames] in order, starting from the output [out]. *)
Definition transcript (env : Env) (frames : list string) (out : string) : string :=
  foldl (λ out msgStr,
           match handleConnection_turn env (Ok msgStr) out with
           | reader_continue out' => out'
           | _ => out
           end) out frames.

(** A step of a session in which no interrupt arrives. *)
Definition quiet_step (env : Env) (s s' : Session) : Prop :=
  handleConnection_step env s = Some s' ∨ s' ∈ closeConnection_select s.

(** ** An environment to run the definitions in *)

Module example.

Definition digit (n : Z) : ascii := ascii_of_N (48 + Z.to_N n).
Definition pad2 (n : Z) : string :=
  String (digit (n / 10 mod 10)) (String (digit (n mod 10)) "").
Definition pad4 (n : Z) : string := pad2 (n / 100) +:+ pad2 n.

Definition days_from_civil (y m d : Z) : Z :=
  let y := if (m <=? 2)%Z then (y - 1)%Z else y in
  let era := (y / 400)%Z in
  let yoe := (y - era * 400)%Z in
  let mp := ((m + 9) mod 12)%Z in
  let doy := ((153 * mp + 2) / 5 + d - 1)%Z in
  let doe := (yoe * 365 + yoe / 4 - yoe / 100 + doy)%Z in
  (era * 146097 + doe - 719468)%Z.

Definition civil_from_days (z : Z) : Z * Z * Z :=
  let z := (z + 719468)%Z in
  let era := (z / 146097)%Z in
  let doe := (z - era * 146097)%Z in
  let yoe := ((doe - doe / 1460 + doe / 36524 - doe / 146096) / 365)%Z in
  let doy := (doe - (365 * yoe + yoe / 4 - yoe / 100))%Z in
  let mp := ((5 * doy + 2) / 153)%Z in
  let d := (doy - (153 * mp + 2) / 5 + 1)%Z in
  let m := if (mp <? 10)%Z then (mp + 3)%Z else (mp - 9)%Z in
  ((yoe + era * 400 + (if (m <=? 2)%Z then 1 else 0))%Z, m, d).

Definition days_in (y m : Z) : Z :=
  if (m =? 2)%Z then
    if ((y mod 4 =? 0) && (negb (y mod 100 =? 0) || (y mod 400 =? 0)))%Z then 29%Z else 28%Z
  else if ((m =? 4) || (m =? 6) || (m =? 9) || (m =? 11))%Z then 30%Z else 31%Z.

Definition num (s : string) : option Z :=
  if bytes.forallb_string bytes.is_digit s && negb (String.eqb s "")
  then Some (fold_left (λ acc c, (acc * 10 + (Z.of_N (N_of_ascii c) - 48))%Z)
               (list_ascii_of_string s) 0%Z)
  else None.

(** Timestamps of the form [2006-01-02T15:04:05Z] or with a numeric zone
    [+07:00], the strict reading of RFC 3339 without fractional seconds. *)
Definition parse_rfc3339 (s : string) : result Time :=
  let bad := Err (errors_New "parsing time") in
  let field (from len : nat) := num (String.substring from len s) in
  let sep (at_ : nat) (c : ascii) := bool_decide (String.get at_ s = Some c) in
  match field 0%nat 4%nat, field 5%nat 2%nat, field 8%nat 2%nat,
        field 11%nat 2%nat, field 14%nat 2%nat, field 17%nat 2%nat with
  | Some y, Some m, Some d, Some hh, Some mm, Some ss =>
      if sep 4%nat "-"%char && sep 7%nat "-"%char && sep 10%nat "T"%char
         && sep 13%nat ":"%char && sep 16%nat ":"%char
         && (1 <=? m)%Z && (m <=? 12)%Z && (1 <=? d)%Z && (d <=? days_in y m)%Z
         && (hh <? 24)%Z && (mm <? 60)%Z && (ss <? 60)%Z
      then
        let local := (days_from_civil y m d * 86400 + hh * 3600 + mm * 60 + ss)%Z in
        let zone := String.substring 19 (String.length s - 19) s in
        if String.eqb zone "Z"
        then Ok {| unix_seconds := local; nanoseconds := 0; zone_offset := 0 |}
        else
          match String.get 0 zone, num (String.substring 1 2 zone),
                num (String.substring 4 2 zone) with
          | Some sign, Some zh, Some zm =>
              if (Ascii.eqb sign "+" || Ascii.eqb sign "-")
                 && bool_decide (String.get 3 zone = Some ":"%char)
                 && Nat.eqb (String.length zone) 6 && (zh <? 24)%Z && (zm <? 60)%Z
              then
                let off := ((if Ascii.eqb sign "-" then -1 else 1) * (zh * 3600 + zm * 60))%Z in
                Ok {| unix_seconds := (local - off)%Z; nanoseconds := 0; zone_offset := off |}
              else bad
          | _, _, _ => bad
          end
      else bad
  | _, _, _, _, _, _ => bad
  end.

(** The instant on a clock set to UTC. *)
Definition utc_timestamp_human (t : Time) : string :=
  let days := (unix_seconds t / 86400)%Z in
  let secs := (unix_seconds t mod 86400)%Z in
  let '(y, m, d) := civil_from_days days in
  pad4 y +:+ "-" +:+ pad2 m +:+ "-" +:+ pad2 d +:+ " "
  +:+ pad2 (secs / 3600) +:+ ":" +:+ pad2 (secs / 60 mod 60) +:+ ":" +:+ pad2 (secs mod 60)
  +:+ " UTC".

Definition cliConfig : CliConfig :=
  {| CortexURL := "http://operator.example:8888";
     AWSAccessKeyID := "AKIAEXAMPLE";
     AWSSecretAccessKey := "wJalrXUtnFEMI" |}.

Definition respond (status : Z) (body : string) : result http.Response :=
  Ok {| http.StatusCode := status; http.resp_Body := bytes_NewReader body |}.

(** An operator with a few routes, told apart by the path of the URL. *)
Definition operator (request : http.Request) : result http.Response :=
  let base := url.Base (http.req_URL request) in
  if String.eqb base "http://operator.example:8888/resources" then
    respond 200 "{}"
  else if String.eqb base "http://operator.example:8888/deploy" then
    respond 400 (json.error_envelope "app is not deployed")
  else if String.eqb base "http://operator.example:8888/gateway" then
    respond 502 "<html>Bad Gateway</html>"
  else if String.eqb base "http://operator.example:8888/down" then
    Err (errors_New "dial tcp: connection refused")
  else respond 404 ("{" +:+ json.string_literal "message"
                           (":" +:+ json.string_literal "not found" "}")).

(** A file system with one file. *)
Definition files (filePath : string) : result Reader :=
  if String.eqb filePath "/tmp/app.yaml"
  then Ok (bytes_NewReader "kind: app")
  else Err (errors_New "open: no such file or directory").

(** A server that refuses the websocket handshake with the body [refusal]. *)
Definition refusing (refusal : string) (wsURL : string) (header : http.Header)
  : DialResult :=
  {| dial_connection := [];
     dial_response :=
       Some {| http.StatusCode := 401; http.resp_Body := bytes_NewReader refusal |};
     dial_err := Some (errors_New "websocket: bad handshake") |}.

(** A server that accepts the handshake and sends [frames]. *)
Definition streaming (frames : list (result string)) (wsURL : string)
    (header : http.Header) : DialResult :=
  {| dial_connection := frames;
     dial_response :=
       Some {| http.StatusCode := 101; http.resp_Body := bytes_NewReader "" |};
     dial_err := None |}.

(** Modelled from the spec: [ErrFailedToConnect] of [pkg/api/strings] is
    not among the embedded files; it is a canned "failed to connect to
    <sanitized URL>" message. *)
Definition ErrFailedToConnect_message (cleanURL : string) : string :=
  "failed to connect to " +:+ cleanURL.

Definition env_with (dial : string → http.Header → DialResult) : Env :=
  {| env_range := default_range;
     getValidCliConfig := cliConfig;
     CortexVersion := "0.7.0";
     ErrCantMakeRequest := "unable to make request";
     ErrRead := "unable to read";
     ErrMarshalJson := "invalid json cannot be serialized";
     ErrReadFile := λ filePath, "unable to read file at " +:+ filePath;
     ErrFailedToConnect := ErrFailedToConnect_message;
     CleanURL := λ u, u;
     LocalTimestampHuman := utc_timestamp_human;
     url_Parse_error := λ rawURL,
       if bytes.forallb_string (λ c, negb (bytes.byte_lt c " ")) rawURL then None
       else Some (errors_New "net/url: invalid control character in URL");
     httpClient_Do := operator;
     dialer_Dial := dial;
     os_Open := files;
     randomBoundary := "4b1d0c5e";
     time_Parse_RFC3339 := parse_rfc3339 |}.

Definition env : Env := env_with (streaming []).

Definition world : World := {| emitted := [] |}.

(** A cluster with the set of deployed applications as its state. *)
Definition operator_env : endpoints.OperatorEnv :=
  {| endpoints.Cluster := gset string;
     endpoints.workloads_DeleteApp := λ appName keepCache cluster,
       (bool_decide (appName ∈ cluster), cluster ∖ {[appName]});
     endpoints.ErrAppNotDeployed := λ appName, "app " +:+ appName +:+ " is not deployed";
     endpoints.ResDeploymentDeleted := "deployment deleted";
     endpoints.getRequiredQParam := λ name r,
       match url.URL_Query (http.req_URL r) !! name with
       | Some (v :: _) =>
           if String.eqb v "" then Err (errors_New "query parameter is required") else Ok v
       | _ => Err (errors_New "query parameter is required")
       end;
     endpoints.getOptionalBoolQParam := λ name defaultVal r,
       match url.URL_Query (http.req_URL r) !! name with
       | Some (v :: _) =>
           if String.eqb v "true" then true
           else if String.eqb v "false" then false else defaultVal
       | _ => defaultVal
       end |}.

Definition delete_request (rawQuery : string) : http.Request :=
  {| http.req_Method := "POST";
     http.req_URL := {| url.Base := "/delete"; url.ForceQuery := false;
                        url.RawQuery := rawQuery; url.Fragment := "" |};
     http.req_Header := ∅;
     http.req_Body := None |}.

(** An operator that answers every request with [status] and [body]. *)
Definition answering (status : Z) (body : string) : Env :=
  {| env_range := default_range;
     getValidCliConfig := cliConfig;
     CortexVersion := "0.7.0";
     ErrCantMakeRequest := "unable to make request";
     ErrRead := "unable to read";
     ErrMarshalJson := "invalid json cannot be serialized";
     ErrReadFile := λ filePath, "unable to read file at " +:+ filePath;
     ErrFailedToConnect := ErrFailedToConnect_message;
     CleanURL := λ u, u;
     LocalTimestampHuman := utc_timestamp_human;
     url_Parse_error := url_Parse_error env;
     httpClient_Do := λ _, respond status body;
     dialer_Dial := streaming [];
     os_Open := files;
     randomBoundary := "4b1d0c5e";
     time_Parse_RFC3339 := parse_rfc3339 |}.

(** A request for a path of the operator. *)
Definition get (path : string) : http.Request :=
  {| http.req_Method := "GET";
     http.req_URL := url.split_url ("http://operator.example:8888" +:+ path);
     http.req_Header := ∅;
     http.req_Body := None |}.

End example.

(** * Properties *)

#[local] Arguments append !_ _ / : simpl nomatch.

(** A case for each of the 256 bytes. *)
Ltac each_byte c := destruct c as [[] [] [] [] [] [] [] []].

(** ** Byte strings *)

Section ByteStrings.
Import bytes.

Lemma forallb_string_app p s t :
  forallb_string p (s +:+ t) = forallb_string p s && forallb_string p t.
Proof. induction s as [|c s IH]; simpl; [done|]. by rewrite IH, andb_assoc. Qed.

Lemma forallb_string_impl (p q : ascii → bool) s :
  (∀ c, p c = true → q c = true) → forallb_string p s = true → forallb_string q s = true.
Proof.
  intros Hpq. induction s as [|a s IH]; simpl; [done|].
  intros [Ha Hs]%andb_prop. by rewrite (Hpq _ Ha), (IH Hs).
Qed.

Lemma contains_byte_false c s :
  contains_byte c s = false → forallb_string (λ x, negb (Ascii.eqb x c)) s = true.
Proof. unfold contains_byte. by intros ->%negb_false_iff. Qed.

Lemma app_assoc_s (a b c : string) : (a +:+ b) +:+ c = a +:+ (b +:+ c).
Proof. induction a; simpl; congruence. Qed.

Lemma length_app_s (a b : string) : String.length (a +:+ b) = String.length a + String.length b.
Proof. induction a; cbn; congruence. Qed.

Lemma substring_prefix (a b : string) : String.substring 0 (String.length a) (a +:+ b) = a.
Proof.
  induction a as [|c a IH]; cbn.
  - by destruct b.
  - by rewrite IH.
Qed.

Lemma strip_prefix_Some p s r : strip_prefix p s = Some r ↔ s = p +:+ r.
Proof.
  revert s. induction p as [|a p IH]; intros s; cbn.
  - split; congruence.
  - destruct s as [|b s]; [split; discriminate|].
    destruct (Ascii.eqb_spec a b) as [->|Hne].
    + rewrite IH. split; congruence.
    + split; [discriminate|]. congruence.
Qed.

Lemma strip_prefix_app p r : strip_prefix p (p +:+ r) = Some r.
Proof. by apply strip_prefix_Some. Qed.

Lemma Split_nonempty c s : Split c s ≠ [].
Proof. destruct s as [|a s]; simpl; [done|]. destruct (Ascii.eqb a c); [done|]. by destruct (Split c s). Qed.

Lemma Split_app_sep c s t : Split c (s +:+ String c t) = Split c s ++ Split c t.
Proof.
  induction s as [|a s IH]; simpl.
  - by rewrite Ascii.eqb_refl.
  - destruct (Ascii.eqb a c); [by rewrite IH|].
    rewrite IH. pose proof (Split_nonempty c s). by destruct (Split c s).
Qed.

Lemma Split_no_sep c s :
  forallb_string (λ x, negb (Ascii.eqb x c)) s = true → Split c s = [s].
Proof.
  induction s as [|a s IH]; simpl; [done|]. intros [Ha Hs]%andb_prop.
  destruct (Ascii.eqb a c); [done|]. by rewrite (IH Hs).
Qed.

Lemma Cut_app_sep c s t :
  forallb_string (λ x, negb (Ascii.eqb x c)) s = true →
  Cut c (s +:+ String c t) = (s, Some t).
Proof.
  induction s as [|a s IH]; simpl.
  - by rewrite Ascii.eqb_refl.
  - intros [Ha Hs]%andb_prop. destruct (Ascii.eqb a c); [done|]. by rewrite (IH Hs).
Qed.

Lemma Cut_app_no_sep c s t :
  forallb_string (λ x, negb (Ascii.eqb x c)) s = true →
  Cut c (s +:+ t) = ((s +:+ (Cut c t).1), (Cut c t).2).
Proof.
  induction s as [|a s IH]; simpl.
  - by destruct (Cut c t).
  - intros [Ha Hs]%andb_prop. destruct (Ascii.eqb a c); [done|]. by rewrite (IH Hs).
Qed.

Lemma span_app p s : (bytes.span p s).1 +:+ (bytes.span p s).2 = s.
Proof.
  induction s as [|c s IH]; cbn; [done|]. destruct (p c); [|done].
  destruct (bytes.span p s) as [a b]. cbn in *. by rewrite IH.
Qed.

Lemma span_forallb p s : forallb_string p (bytes.span p s).1 = true.
Proof.
  induction s as [|c s IH]; cbn; [done|]. destruct (p c) eqn:Hc; [|done].
  destruct (bytes.span p s) as [a b]. cbn in *. by rewrite Hc, IH.
Qed.

Lemma span_empty p s : (bytes.span p s).1 = "" → (bytes.span p s).2 = s.
Proof. intros H. pose proof (span_app p s) as Happ. by rewrite H in Happ. Qed.

Lemma span_rest p s c t : (bytes.span p s).2 = String c t → p c = false.
Proof.
  induction s as [|a s IH]; cbn; [done|]. destruct (p a) eqn:Ha.
  - destruct (bytes.span p s) as [x y]. cbn in *. done.
  - cbn. by intros [= <- <-].
Qed.

Lemma span_maximal p a b :
  forallb_string p a = true → (∀ c t, b = String c t → p c = false) →
  bytes.span p (a +:+ b) = (a, b).
Proof.
  intros Ha Hb. induction a as [|c a IH]; cbn.
  - destruct b as [|c t]; [done|]. cbn. by rewrite (Hb c t).
  - cbn in Ha. apply andb_prop in Ha as [Hc Ha]. by rewrite Hc, (IH Ha).
Qed.

End ByteStrings.

(** ** Query strings: [ParseQuery] reads back what [Encode] writes *)

Section QueryStrings.
Import bytes url.

Lemma QueryEscape_cons c s : QueryEscape (String c s) = escape_byte c +:+ QueryEscape s.
Proof. each_byte c; reflexivity. Qed.

Lemma QueryUnescape_escape_byte c t :
  QueryUnescape (escape_byte c +:+ t) = String c <$> QueryUnescape t.
Proof. each_byte c; reflexivity. Qed.

(** Unescaping undoes escaping, whatever the bytes. *)
Lemma QueryUnescape_QueryEscape s : QueryUnescape (QueryEscape s) = Some s.
Proof.
  induction s as [|c s IH]; [reflexivity|].
  by rewrite QueryEscape_cons, QueryUnescape_escape_byte, IH.
Qed.

Lemma escape_byte_safe c : forallb_string query_safe (escape_byte c) = true.
Proof. each_byte c; reflexivity. Qed.

(** An escaped text has none of the bytes [&], [=] and [;]. *)
Lemma QueryEscape_safe s : forallb_string query_safe (QueryEscape s) = true.
Proof.
  induction s as [|c s IH]; [reflexivity|].
  by rewrite QueryEscape_cons, forallb_string_app, escape_byte_safe, IH.
Qed.

Lemma query_safe_amp c : query_safe c = true → negb (Ascii.eqb c "&") = true.
Proof. unfold query_safe. intros [[? ?]%andb_prop ?]%andb_prop. done. Qed.

Lemma query_safe_eq c : query_safe c = true → negb (Ascii.eqb c "=") = true.
Proof. unfold query_safe. intros [[? ?]%andb_prop ?]%andb_prop. done. Qed.

Lemma query_safe_semi c : query_safe c = true → negb (Ascii.eqb c ";") = true.
Proof. unfold query_safe. intros [[? ?]%andb_prop ?]%andb_prop. done. Qed.

Lemma encode_pair_safe_amp k val :
  forallb_string (λ x, negb (Ascii.eqb x "&")) (encode_pair k val) = true.
Proof.
  unfold encode_pair. rewrite !forallb_string_app.
  rewrite !(forallb_string_impl _ _ _ query_safe_amp (QueryEscape_safe _)). done.
Qed.

Lemma encode_pair_nonempty k val : encode_pair k val ≠ "".
Proof. unfold encode_pair. destruct (QueryEscape k); done. Qed.

(** [parseQuery] reads an encoded pair back as the pair. *)
Lemma parseQuery_segment_encode_pair k val m :
  parseQuery_segment (encode_pair k val) m = (Values_Add k val m, false).
Proof.
  unfold parseQuery_segment.
  assert (contains_byte ";" (encode_pair k val) = false) as ->.
  { unfold contains_byte, encode_pair. rewrite !forallb_string_app.
    rewrite !(forallb_string_impl _ _ _ query_safe_semi (QueryEscape_safe _)). done. }
  assert (String.eqb (encode_pair k val) "" = false) as ->.
  { apply String.eqb_neq, encode_pair_nonempty. }
  change (encode_pair k val) with (QueryEscape k +:+ String "=" (QueryEscape val)).
  rewrite Cut_app_sep.
  2:{ apply (forallb_string_impl _ _ _ query_safe_eq (QueryEscape_safe _)). }
  simpl. by rewrite !QueryUnescape_QueryEscape.
Qed.

(** The pairs written one after the other, with [&] between them, are the
    segments [Split] finds. *)
Lemma Split_encode items buf :
  Forall (λ x, x ≠ "" ∧ forallb_string (λ c, negb (Ascii.eqb c "&")) x = true) items →
  buf ≠ "" →
  Split "&" (foldl encode_add buf items) = Split "&" buf ++ items
  ∧ foldl encode_add buf items ≠ "".
Proof.
  intros Hit. revert buf. induction Hit as [|x items [Hx Hamp] _ IH]; intros buf Hbuf; simpl.
  - by rewrite app_nil_r.
  - assert (encode_add buf x = buf +:+ String "&" x) as ->.
    { unfold encode_add. apply String.eqb_neq in Hbuf. rewrite Hbuf.
      by rewrite app_assoc_s. }
    destruct (IH (buf +:+ String "&" x)) as [-> ?]; [by destruct buf|].
    split; [|done]. rewrite Split_app_sep, (Split_no_sep _ x Hamp).
    by rewrite <-app_assoc.
Qed.

Lemma Split_encode_empty items :
  Forall (λ x, x ≠ "" ∧ forallb_string (λ c, negb (Ascii.eqb c "&")) x = true) items →
  Split "&" (foldl encode_add "" items) = if items is [] then [""] else items.
Proof.
  destruct 1 as [|x items [Hx Hamp] Hit]; simpl; [done|].
  assert (encode_add "" x = x) as -> by done.
  destruct (Split_encode items x Hit Hx) as [-> _].
  by rewrite (Split_no_sep _ x Hamp).
Qed.

Lemma Values_Encode_fold (v : Values) keys buf :
  foldl (λ buf k,
           let keyEscaped := QueryEscape k in
           foldl (λ buf val,
                    let buf := if String.eqb buf "" then buf else buf +:+ "&" in
                    buf +:+ keyEscaped +:+ "=" +:+ QueryEscape val)
                 buf (default [] (v !! k)))
        buf keys
  = foldl encode_add buf (encode_binding <$> bindings v keys).
Proof.
  unfold bindings. revert buf.
  induction keys as [|k keys IH]; intros buf; [done|].
  rewrite bind_cons, fmap_app, foldl_app. cbn [foldl]. rewrite IH. f_equal.
  rewrite <-list_fmap_compose, foldl_fmap. done.
Qed.

(** [Encode] writes the bindings of the map, key after key in sorted
    order, each as an escaped pair. *)
Lemma Values_Encode_flat v :
  Values_Encode v
  = foldl encode_add "" (encode_binding <$> bindings v (merge_sort string_le (map_to_list v).*1)).
Proof. apply Values_Encode_fold. Qed.

Lemma parseQuery_segments_encoded (kvs : list (string * string)) (m : Values) :
  foldl (λ '(m, failed) seg,
           let '(m', failed') := parseQuery_segment seg m in (m', failed || failed'))
        (m, false) (encode_binding <$> kvs)
  = (foldl (λ m kv, Values_Add kv.1 kv.2 m) m kvs, false).
Proof.
  revert m. induction kvs as [|[k val] kvs IH]; intros m; [done|].
  rewrite fmap_cons. cbn [foldl]. unfold encode_binding at 1. cbn [fst snd].
  rewrite parseQuery_segment_encode_pair. apply IH.
Qed.

Lemma ParseQuery_encoded (kvs : list (string * string)) :
  ParseQuery (foldl encode_add "" (encode_binding <$> kvs))
  = (foldl (λ m kv, Values_Add kv.1 kv.2 m) ∅ kvs, false).
Proof.
  unfold ParseQuery. rewrite Split_encode_empty.
  2:{ apply Forall_fmap, Forall_forall. intros [k val] _. split.
      - apply encode_pair_nonempty.
      - apply encode_pair_safe_amp. }
  destruct kvs as [|kv kvs]; [done|].
  rewrite fmap_cons. rewrite <-fmap_cons. apply parseQuery_segments_encoded.
Qed.

Lemma foldl_Values_Add_key k vals (m : Values) k' :
  foldl (λ m kv, Values_Add kv.1 kv.2 m) m ((λ val, (k, val)) <$> vals) !! k'
  = if decide (k = k' ∧ vals ≠ []) then Some (default [] (m !! k) ++ vals) else m !! k'.
Proof.
  revert m. induction vals as [|val vals IH]; intros m.
  - cbn. case_decide; naive_solver.
  - rewrite fmap_cons. cbn [foldl fst snd]. rewrite IH. unfold Values_Add.
    destruct (decide (k = k')) as [->|Hne].
    + rewrite lookup_insert_eq. cbn [default]. unfold id.
      rewrite (decide_True (P := (k' = k' ∧ val :: vals ≠ []))) by done.
      destruct vals as [|val' vals].
      * by rewrite decide_False by naive_solver.
      * rewrite decide_True by naive_solver. by rewrite <-app_assoc.
    + rewrite !decide_False by naive_solver. by rewrite lookup_insert_ne.
Qed.

Lemma foldl_Values_Add_bindings (v : Values) keys (m : Values) k' :
  NoDup keys →
  foldl (λ m kv, Values_Add kv.1 kv.2 m) m (bindings v keys) !! k'
  = if decide (k' ∈ keys ∧ default [] (v !! k') ≠ [])
    then Some (default [] (m !! k') ++ default [] (v !! k')) else m !! k'.
Proof.
  unfold bindings. intros Hnd. revert m.
  induction Hnd as [|k keys Hk Hnd IH]; intros m.
  - cbn. case_decide as H; [|done]. destruct H as [H _]. by apply elem_of_nil in H.
  - rewrite bind_cons, foldl_app, IH.
    rewrite !foldl_Values_Add_key.
    destruct (decide (k = k')) as [->|Hne].
    + rewrite (decide_False (P := (k' ∈ keys ∧ _))) by naive_solver.
      destruct (decide (default [] (v !! k') = [])) as [He|He].
      * rewrite !decide_False by naive_solver. done.
      * rewrite !decide_True; [done| |done]. split; [left|done].
    + rewrite (decide_False (P := (k = k' ∧ _))) by naive_solver.
      destruct (decide (k' ∈ keys ∧ default [] (v !! k') ≠ [])) as [[Hin He]|Hn].
      * rewrite decide_True; [done|]. split; [by right|done].
      * rewrite decide_False; [done|]. intros [Hin He]. apply Hn. split; [|done].
        apply elem_of_cons in Hin as [->|Hin]; done.
Qed.

(** [ParseQuery] reads back the map [Encode] wrote, with no error, when no
    key of the map has an empty list of values (a key with no value is not
    written). *)
Lemma ParseQuery_Values_Encode v :
  nonempty_values v → ParseQuery (Values_Encode v) = (v, false).
Proof.
  intros Hv. rewrite Values_Encode_flat, ParseQuery_encoded. f_equal.
  apply map_eq. intros k.
  assert (NoDup (merge_sort string_le (map_to_list v).*1)) as Hnd.
  { rewrite merge_sort_Permutation. apply NoDup_fst_map_to_list. }
  rewrite (foldl_Values_Add_bindings v _ ∅ k Hnd). rewrite lookup_empty. simpl.
  case_decide as H.
  - destruct H as [_ H]. destruct (v !! k); naive_solver.
  - destruct (v !! k) as [l|] eqn:Hl; [|done]. exfalso. apply H. split.
    + rewrite merge_sort_Permutation. apply list_elem_of_fmap. exists (k, l).
      split; [done|]. by apply elem_of_map_to_list.
    + simpl. by apply (Hv k l).
Qed.

Lemma nonempty_Values_Add k val v : nonempty_values v → nonempty_values (Values_Add k val v).
Proof.
  intros Hv. unfold Values_Add. apply map_Forall_insert_2; [|done].
  by destruct (default [] (v !! k)).
Qed.

Lemma nonempty_parseQuery_segment seg v :
  nonempty_values v → nonempty_values (parseQuery_segment seg v).1.
Proof.
  intros Hv. unfold parseQuery_segment.
  destruct (contains_byte ";" seg); [done|]. destruct (String.eqb seg ""); [done|].
  destruct (Cut "=" seg) as [k val]. destruct (QueryUnescape k); [|done].
  destruct (QueryUnescape (default "" val)); [|done]. by apply nonempty_Values_Add.
Qed.

(** [ParseQuery] makes no key with an empty list of values. *)
Lemma nonempty_ParseQuery query : nonempty_values (ParseQuery query).1.
Proof.
  unfold ParseQuery. generalize (Split "&" query) as segs. intros segs.
  assert (nonempty_values (∅ : Values)) as H0 by apply map_Forall_empty.
  revert H0. generalize (∅ : Values) as m. generalize false as failed.
  induction segs as [|seg segs IH]; intros failed m Hm; [done|].
  cbn [foldl]. pose proof (nonempty_parseQuery_segment seg m Hm) as H.
  destruct (parseQuery_segment seg m) as [m' failed']. by apply IH.
Qed.

End QueryStrings.

(** ** The query parameters of a request *)

Section QueryParameters.
Import bytes url.

Lemma foldl_Values_Set_lookup (l : list (string * string)) (values : Values) key :
  NoDup l.*1 →
  foldl (λ values '(key, value), Values_Set key value values) values l !! key
  = match (list_to_map l : gmap string string) !! key with
    | Some v => Some [v]
    | None => values !! key
    end.
Proof.
  revert values. induction l as [|[k v] l IH]; intros values Hnd; [done|].
  rewrite fmap_cons in Hnd. apply NoDup_cons in Hnd as [Hk Hnd]. cbn [fst] in Hk.
  cbn [foldl]. rewrite IH by done. rewrite list_to_map_cons. unfold Values_Set.
  destruct (decide (k = key)) as [->|Hne].
  - rewrite (not_elem_of_list_to_map_1 _ key Hk). by rewrite !lookup_insert_eq.
  - rewrite !(lookup_insert_ne _ k key) by done. done.
Qed.

(** A [range] over a mapping that sets every entry: whatever the order,
    the keys of the mapping get its values and the others keep theirs. *)
Lemma range_lookup env (paramMap : gmap string string) (values : Values) key :
  foldl (λ values '(key, value), Values_Set key value values) values (range env paramMap) !! key
  = match paramMap !! key with
    | Some v => Some [v]
    | None => values !! key
    end.
Proof.
  unfold range. pose proof (range_map_perm (env_range env) _ paramMap) as Hp.
  assert (NoDup (range_map (env_range env) paramMap).*1) as Hnd.
  { rewrite Hp. apply NoDup_fst_map_to_list. }
  rewrite foldl_Values_Set_lookup by done.
  rewrite (list_to_map_proper _ _ Hnd Hp).
  by rewrite list_to_map_to_list.
Qed.

(** The merge of [operatorRequest], key by key. *)
Lemma merged_lookup env qParams values key :
  merged env values qParams !! key
  = match last_binding key qParams with
    | Some v => Some [v]
    | None => values !! key
    end.
Proof.
  unfold merged, last_binding.
  induction qParams as [|paramMap qParams IH] using rev_ind; [done|].
  rewrite !foldl_snoc, range_lookup. destruct (paramMap !! key); [done|]. apply IH.
Qed.

Lemma last_binding_last key qParams i paramMap value :
  qParams !! i = Some paramMap → paramMap !! key = Some value →
  (∀ j later, i < j → qParams !! j = Some later → later !! key = None) →
  last_binding key qParams = Some value.
Proof.
  unfold last_binding. revert i.
  induction qParams as [|pm qParams IH] using rev_ind; intros i Hi Hv Hlast; [done|].
  rewrite foldl_snoc.
  destruct (decide (i = length qParams)) as [->|Hne].
  - rewrite lookup_app_r, Nat.sub_diag in Hi by lia. injection Hi as ->. by rewrite Hv.
  - assert (i < length qParams).
    { apply lookup_lt_Some in Hi. rewrite length_app in Hi. simpl in Hi. lia. }
    rewrite lookup_app_l in Hi by done.
    rewrite (Hlast (length qParams) pm); [| lia |].
    2:{ by rewrite lookup_app_r, Nat.sub_diag by lia. }
    apply (IH i); [done..|]. intros j later Hj Hl. apply (Hlast j); [done|].
    rewrite lookup_app_l; [done|]. by apply lookup_lt_Some in Hl.
Qed.

Lemma last_binding_None key qParams :
  last_binding key qParams = None ↔ ∀ paramMap, paramMap ∈ qParams → paramMap !! key = None.
Proof.
  unfold last_binding.
  induction qParams as [|pm qParams IH] using rev_ind.
  - split; [|done]. intros _ pm H. by apply elem_of_nil in H.
  - rewrite foldl_snoc. destruct (pm !! key) as [v|] eqn:Hpm.
    + split; [done|]. intros H. specialize (H pm). rewrite Hpm in H.
      apply H. apply elem_of_app. right. by left.
    + rewrite IH. split.
      * intros H p [Hp|Hp]%elem_of_app; [by apply H|]. apply list_elem_of_singleton in Hp. by subst.
      * intros H p Hp. apply H. apply elem_of_app. by left.
Qed.

Lemma last_binding_is_Some key qParams paramMap :
  paramMap ∈ qParams → is_Some (paramMap !! key) → is_Some (last_binding key qParams).
Proof.
  intros Hin [v Hv]. destruct (last_binding key qParams) eqn:E; [done|].
  pose proof (proj1 (last_binding_None _ _) E _ Hin) as Hn. by rewrite Hn in Hv.
Qed.

(** The merge does not depend on the order in which [range] visits the
    entries of a mapping. *)
Lemma merged_any_order env env' values qParams :
  merged env values qParams = merged env' values qParams.
Proof. apply map_eq. intros key. by rewrite !merged_lookup. Qed.

Lemma nonempty_merged env values qParams :
  nonempty_values values → nonempty_values (merged env values qParams).
Proof.
  intros Hv k l Hl. rewrite merged_lookup in Hl.
  destruct (last_binding k qParams); [by injection Hl as <-|]. by apply (Hv k).
Qed.

(** The query of the request [operatorRequest] builds is the merge of the
    mappings into the query of the URL it started from. *)
Lemma operatorRequest_Query env method endpoint body qParams req :
  operatorRequest env method endpoint body qParams = Ok req →
  URL_Query (http.req_URL req)
  = merged env (URL_Query (split_url (CortexURL (getValidCliConfig env) +:+ endpoint))) qParams.
Proof.
  unfold operatorRequest, http_NewRequest.
  destruct (negb (validMethod _)); [done|].
  destruct (url_Parse_error env _); [done|].
  intros [= <-]. cbn [http.req_URL http.Request_set_URL].
  unfold URL_Query at 1. cbn [RawQuery URL_set_RawQuery].
  fold (merged env (URL_Query (split_url (CortexURL (getValidCliConfig env) +:+ endpoint))) qParams).
  rewrite ParseQuery_Values_Encode; [done|].
  apply nonempty_merged, nonempty_ParseQuery.
Qed.

(** A base URL without [?] and [#] leaves the query of the endpoint as the
    query of the whole URL. *)
Lemma RawQuery_split_url_app base endpoint :
  contains_byte "?" base = false → contains_byte "#" base = false →
  url.RawQuery (url.split_url (base +:+ endpoint)) = url.RawQuery (url.split_url endpoint).
Proof.
  intros Hq%contains_byte_false Hf%contains_byte_false. unfold url.split_url.
  rewrite (Cut_app_no_sep _ _ _ Hf). destruct (Cut "#" endpoint) as [u frag]. cbn [fst snd].
  rewrite (Cut_app_no_sep _ _ _ Hq). destruct (Cut "?" u) as [rest query]. done.
Qed.

(** C5.  For every request [operatorRequest] builds from the mappings
    [qParams], the query string of its URL parses without error, and for
    every key:
    - the value the query string gives the key is the one of the last
      mapping, in argument order, that has the key, and no other;
    - a key that some mapping has is in the query string. *)
Theorem C5_later_mappings_override env method endpoint body qParams req :
  operatorRequest env method endpoint body qParams = Ok req →
  ∀ key : string,
    let final := url.ParseQuery (url.RawQuery (http.req_URL req)) in
    final.2 = false
    ∧ (∀ i paramMap value,
         qParams !! i = Some paramMap → paramMap !! key = Some value →
         (∀ j later, i < j → qParams !! j = Some later → later !! key = None) →
         final.1 !! key = Some [value])
    ∧ (∀ paramMap, paramMap ∈ qParams → is_Some (paramMap !! key) →
         is_Some (final.1 !! key)).
Proof.
  intros Hreq key final.
  pose proof (operatorRequest_Query _ _ _ _ _ _ Hreq) as HQ.
  assert (final = (merged env (url.URL_Query
            (url.split_url (CortexURL (getValidCliConfig env) +:+ endpoint))) qParams, false))
    as Hfinal.
  { subst final. revert Hreq. unfold operatorRequest, http_NewRequest.
    destruct (negb (validMethod _)); [done|].
    destruct (url_Parse_error env _); [done|]. intros [= <-].
    cbn [http.req_URL http.Request_set_URL url.RawQuery url.URL_set_RawQuery].
    apply ParseQuery_Values_Encode, nonempty_merged, nonempty_ParseQuery. }
  rewrite Hfinal. cbn [fst snd]. split; [done|]. split.
  - intros i paramMap value Hi Hv Hlast. rewrite merged_lookup.
    by rewrite (last_binding_last _ _ _ _ _ Hi Hv Hlast).
  - intros paramMap Hin Hsome. rewrite merged_lookup.
    destruct (last_binding_is_Some _ _ _ Hin Hsome) as [v ->]. done.
Qed.

(** C5 at two mappings that both have [appName]. *)
Lemma C5_later_mappings_override_witness :
  let qParams : list (gmap string string) :=
    [ {[ "appName" := "first"; "verbose" := "true" ]}; {[ "appName" := "second" ]} ] in
  let req :=
    {| http.req_Method := "GET";
       http.req_URL := {| url.Base := "http://operator.example:8888/resources";
                          url.ForceQuery := false;
                          url.RawQuery := "appName=second&verbose=true";
                          url.Fragment := "" |};
       http.req_Header := ∅;
       http.req_Body := None |} in
  operatorRequest example.env "GET" "/resources" None qParams = Ok req
  ∧ (url.ParseQuery (url.RawQuery (http.req_URL req))).1 !! "appName" = Some ["second"].
Proof.
  intros qParams req.
  assert (operatorRequest example.env "GET" "/resources" None qParams = Ok req) as Hreq.
  { vm_compute. reflexivity. }
  split; [exact Hreq|].
  destruct (C5_later_mappings_override example.env "GET" "/resources" None qParams req
              Hreq "appName") as (_ & Hlast & _).
  apply (Hlast 1%nat {[ "appName" := "second" ]} "second").
  - reflexivity.
  - reflexivity.
  - intros j later Hj Hl. destruct j as [|[|j]]; [lia|lia|]. discriminate Hl.
Defined.

(** C10.  When the configured base URL has no [?] and no [#], the
    parameters in the query string of the endpoint behave as the earliest
    mapping: in the URL of the request [operatorRequest] builds, a key that
    no mapping has keeps the values the endpoint gave it, and a key that a
    mapping has gets the value of the last such mapping instead. *)
Theorem C10_embedded_query_is_earliest_mapping env method endpoint body qParams req :
  contains_byte "?" (CortexURL (getValidCliConfig env)) = false →
  contains_byte "#" (CortexURL (getValidCliConfig env)) = false →
  operatorRequest env method endpoint body qParams = Ok req →
  ∀ key : string,
    let embedded := (url.ParseQuery (url.RawQuery (url.split_url endpoint))).1 in
    let final := (url.ParseQuery (url.RawQuery (http.req_URL req))).1 in
    ((∀ paramMap, paramMap ∈ qParams → paramMap !! key = None) →
       final !! key = embedded !! key)
    ∧ (∀ i paramMap value,
         qParams !! i = Some paramMap → paramMap !! key = Some value →
         (∀ j later, i < j → qParams !! j = Some later → later !! key = None) →
         final !! key = Some [value]).
Proof.
  intros Hq Hf Hreq key embedded final.
  pose proof (operatorRequest_Query _ _ _ _ _ _ Hreq) as HQ.
  unfold url.URL_Query in HQ. rewrite RawQuery_split_url_app in HQ by done.
  fold embedded in HQ. fold final in HQ. rewrite HQ, merged_lookup. split.
  - intros Hnone. apply last_binding_None in Hnone. by rewrite Hnone.
  - intros i paramMap value Hi Hv Hlast.
    by rewrite (last_binding_last _ _ _ _ _ Hi Hv Hlast).
Qed.

(** C10 at an endpoint with two parameters, one of them overridden. *)
Lemma C10_embedded_query_is_earliest_mapping_witness :
  let qParams : list (gmap string string) := [ {[ "appName" := "explicit" ]} ] in
  let req :=
    {| http.req_Method := "GET";
       http.req_URL := {| url.Base := "http://operator.example:8888/resources";
                          url.ForceQuery := false;
                          url.RawQuery := "appName=explicit&verbose=true";
                          url.Fragment := "" |};
       http.req_Header := ∅;
       http.req_Body := None |} in
  operatorRequest example.env "GET" "/resources?verbose=true&appName=embedded" None qParams
  = Ok req
  ∧ (url.ParseQuery (url.RawQuery (http.req_URL req))).1 !! "verbose" = Some ["true"]
  ∧ (url.ParseQuery (url.RawQuery (http.req_URL req))).1 !! "appName" = Some ["explicit"].
Proof.
  intros qParams req.
  assert (operatorRequest example.env "GET" "/resources?verbose=true&appName=embedded" None
            qParams = Ok req) as Hreq.
  { vm_compute. reflexivity. }
  split; [exact Hreq|].
  pose proof (C10_embedded_query_is_earliest_mapping example.env "GET"
                "/resources?verbose=true&appName=embedded" None qParams req
                eq_refl eq_refl Hreq) as H.
  split.
  - destruct (H "verbose") as [Hkeep _]. rewrite Hkeep; [vm_compute; reflexivity|].
    intros paramMap Hin. apply list_elem_of_singleton in Hin. subst paramMap. reflexivity.
  - destruct (H "appName") as [_ Hover].
    apply (Hover 0%nat {[ "appName" := "explicit" ]} "explicit").
    + reflexivity.
    + reflexivity.
    + intros j later Hj Hl. destruct j as [|j]; [lia|]. discriminate Hl.
Defined.

End QueryParameters.

(** ** JSON: the fuel of the parser is enough *)

Section JsonFuel.
Import bytes.

Lemma skip_space_length s : (String.length (json.skip_space s) ≤ String.length s)%nat.
Proof.
  induction s as [|c s IH]; cbn; [lia|]. destruct (json.is_space c); cbn; lia.
Qed.

Lemma next_byte_length s c rest :
  json.next_byte s = Some (c, rest) → String.length rest < String.length s.
Proof.
  unfold json.next_byte. pose proof (skip_space_length s) as H.
  destruct (json.skip_space s); [done|]. intros [= <- <-]. cbn in H. lia.
Qed.

Lemma span_length p s : (String.length (bytes.span p s).2 ≤ String.length s)%nat.
Proof.
  induction s as [|c s IH]; cbn; [lia|]. destruct (p c); [|cbn; lia].
  destruct (bytes.span p s). cbn in *. lia.
Qed.

Lemma one_of_length set s : (String.length (json.one_of set s).2 ≤ String.length s)%nat.
Proof.
  destruct s as [|c s]; cbn; [lia|]. destruct (contains_byte c set); cbn; lia.
Qed.

Lemma strip_prefix_length p s r :
  strip_prefix p s = Some r → String.length s = String.length p + String.length r.
Proof. intros ->%strip_prefix_Some. apply length_app_s. Qed.

Lemma scan_number_length s lit rest :
  json.scan_number s = Some (lit, rest) → String.length rest < String.length s.
Proof.
  unfold json.scan_number.
  pose proof (one_of_length "-" s) as H1. destruct (json.one_of "-" s) as [sign s1].
  cbn [snd] in H1. destruct s1 as [|d s2]; [done|]. destruct (negb (is_digit d)); [done|].
  assert (∀ s3 fr s5 ex rest',
            (String.length s3 ≤ String.length s2 )%nat→ 
            (let '(point, s4) := json.one_of "." s3 in
             if String.eqb point "" then Some ("", s3)
             else let '(ds, r) := bytes.span is_digit s4 in
                  if String.eqb ds "" then None else Some (point +:+ ds, r)) = Some (fr, s5) →
            (let '(mark, s6) := json.one_of "eE" s5 in
             if String.eqb mark "" then Some ("", s5)
             else let '(sg, s7) := json.one_of "+-" s6 in
                  let '(ds, r) := bytes.span is_digit s7 in
                  if String.eqb ds "" then None else Some (mark +:+ sg +:+ ds, r))
            = Some (ex, rest') →
            (String.length rest' ≤ String.length s2)%nat) as Hstep.
  { intros s3 fr s5 ex rest' Hs3 Hfrac Hexp.
    assert ((String.length s5 ≤ String.length s3)%nat) as Hs5.
    { pose proof (one_of_length "." s3) as Ho. destruct (json.one_of "." s3) as [point s4].
      cbn [snd] in Ho. destruct (String.eqb point ""); [by injection Hfrac as _ <-|].
      pose proof (span_length is_digit s4) as Hsp. destruct (bytes.span is_digit s4) as [ds r].
      cbn [snd] in Hsp. destruct (String.eqb ds ""); [done|]. injection Hfrac as _ <-. lia. }
    pose proof (one_of_length "eE" s5) as Ho. destruct (json.one_of "eE" s5) as [mark s6].
    cbn [snd] in Ho. destruct (String.eqb mark ""); [injection Hexp as _ <-; lia|].
    pose proof (one_of_length "+-" s6) as Ho2. destruct (json.one_of "+-" s6) as [sg s7].
    cbn [snd] in Ho2.
    pose proof (span_length is_digit s7) as Hsp. destruct (bytes.span is_digit s7) as [ds r].
    cbn [snd] in Hsp. destruct (String.eqb ds ""); [done|]. injection Hexp as _ <-. lia. }
  cbn in H1.
  destruct (Ascii.eqb d "0").
  - destruct (let '(point, s4) := json.one_of "." s2 in _) as [[fr s5]|] eqn:Hfrac; [|done].
    destruct (let '(mark, s6) := json.one_of "eE" s5 in _) as [[ex rest']|] eqn:Hexp; [|done].
    intros [= _ <-]. pose proof (Hstep s2 fr s5 ex rest' ltac:(lia) Hfrac Hexp). lia.
  - pose proof (span_length is_digit s2) as Hsp. destruct (bytes.span is_digit s2) as [ds r].
    cbn [snd] in Hsp.
    destruct (let '(point, s4) := json.one_of "." r in _) as [[fr s5]|] eqn:Hfrac; [|done].
    destruct (let '(mark, s6) := json.one_of "eE" s5 in _) as [[ex rest']|] eqn:Hexp; [|done].
    intros [= _ <-]. pose proof (Hstep r fr s5 ex rest' ltac:(lia) Hfrac Hexp). lia.
Qed.

Lemma unquote_length_bounded n :
  ∀ s k t rest,
    (String.length s ≤ n)%nat → json.unquote k s = Some (t, rest) →
    String.length rest < String.length s.
Proof.
  induction n as [|n IH]; intros s k t rest Hn.
  - destruct s; [|cbn in Hn; lia]. by destruct k.
  - destruct s as [|c s']; [by destruct k|]. cbn [String.length] in Hn.
    cbn [json.unquote].
    assert (∀ (f : string * string → string * string) k' x,
              (∀ p, (f p).2 = p.2) → (String.length x ≤ n)%nat →
              f <$> json.unquote k' x = Some (t, rest) →
              String.length rest < String.length x) as Hcall.
    { intros f k' x Hf Hx Hcall.
      destruct (json.unquote k' x) as [[t' r']|] eqn:E; [|done].
      cbn in Hcall. injection Hcall as Hcall. pose proof (Hf (t', r')) as Hsnd.
      rewrite Hcall in Hsnd. cbn in Hsnd. subst r'. by apply (IH x k' t'). }
    destruct k as [|k].
    + destruct (Ascii.eqb c "034"); [intros [= _ <-]; cbn; lia|].
      destruct (Ascii.eqb c "\").
      * destruct s' as [|e s1]; [done|]. cbn [String.length] in Hn.
        destruct (Ascii.eqb e "u").
        -- destruct s1 as [|a [|b [|c0 [|d s2]]]]; try done. cbn [String.length] in Hn.
           destruct (json.hex4 a b c0 d) as [rr|]; [|done].
           destruct ((55296 <=? rr)%N && (rr <? 57344)%N).
           ++ destruct s2 as [|x [|y [|a1 [|b1 [|c1 [|d1 s3]]]]]];
                try (intros H; apply Hcall in H; [cbn [String.length] in *; lia|by intros []|cbn [String.length] in *; lia]).
              cbn [String.length] in Hn.
              destruct (json.hex4 a1 b1 c1 d1) as [rr1|];
                [destruct (_ && _)|];
                intros H; apply Hcall in H; try (cbn [String.length] in *; lia); by intros [].
           ++ intros H; apply Hcall in H; [cbn [String.length] in *; lia|by intros []|cbn [String.length] in *; lia].
        -- repeat (destruct (Ascii.eqb e _);
                   [intros H; apply Hcall in H; [cbn [String.length] in *; lia|by intros []|cbn [String.length] in *; lia]|]).
           done.
      * destruct (byte_lt c " "); [done|].
        destruct (byte_lt c "128");
          [intros H; apply Hcall in H; [cbn [String.length] in *; lia|by intros []|cbn [String.length] in *; lia]|].
        destruct (json.utf8_tail c s');
          intros H; apply Hcall in H; try (cbn [String.length] in *; lia); by intros [].
    + intros H; apply Hcall in H; [cbn [String.length] in *; lia|by intros []|cbn [String.length] in *; lia].
Qed.

(** A string literal takes at least its closing quote. *)
Lemma unquote_length s k t rest :
  json.unquote k s = Some (t, rest) → String.length rest < String.length s.
Proof. by apply (unquote_length_bounded (String.length s)). Qed.

Lemma parse_value_S fuel s :
  json.parse_value (S fuel) s = json.value_with (json.parse_value fuel) (S fuel) s.
Proof. reflexivity. Qed.

Lemma elements_more pv pv' k :
  ∀ k' s vs rest,
    (∀ s' r, (String.length s' ≤ String.length s)%nat → pv s' = Some r →
       pv' s' = Some r ∧ String.length r.2 < String.length s') →
    json.elements pv k s = Some (vs, rest) → String.length s < k' →
    json.elements pv' k' s = Some (vs, rest) ∧ String.length rest < String.length s.
Proof.
  induction k as [|k IH]; intros k' s vs rest Hpv Hk Hk'; [done|].
  destruct k' as [|k']; [lia|]. cbn [json.elements] in *.
  destruct (pv s) as [[v r1]|] eqn:Epv; [|done].
  destruct (Hpv s (v, r1) ltac:(lia) Epv) as [-> Hr1]. cbn [snd] in Hr1.
  destruct (json.next_byte r1) as [[c r2]|] eqn:En; [|done].
  pose proof (next_byte_length _ _ _ En) as Hr2.
  destruct (Ascii.eqb c ",").
  - destruct (json.elements pv k r2) as [[vs' rest']|] eqn:Erec; [|done].
    cbn in Hk. injection Hk as <- <-.
    destruct (IH k' r2 vs' rest') as [-> Hrest]; [|done|lia|cbn; split; [done|lia]].
    intros s' r Hs'. apply Hpv. lia.
  - destruct (Ascii.eqb c "]"); [|done]. injection Hk as <- <-. split; [done|lia].
Qed.

Lemma members_more pv pv' k :
  ∀ k' s ms rest,
    (∀ s' r, String.length s' < String.length s → pv s' = Some r →
       pv' s' = Some r ∧ String.length r.2 < String.length s') →
    json.members pv k s = Some (ms, rest) → String.length s < k' →
    json.members pv' k' s = Some (ms, rest) ∧ String.length rest < String.length s.
Proof.
  induction k as [|k IH]; intros k' s ms rest Hpv Hk Hk'; [done|].
  destruct k' as [|k']; [lia|]. cbn [json.members] in *.
  destruct (json.next_byte s) as [[q s1]|] eqn:En1; [|done].
  pose proof (next_byte_length _ _ _ En1) as Hs1.
  destruct (negb (Ascii.eqb q "034")); [done|].
  destruct (json.unquote 0 s1) as [[key s2]|] eqn:Eq; [|done].
  pose proof (unquote_length _ _ _ _ Eq) as Hs2.
  destruct (json.next_byte s2) as [[colon s3]|] eqn:En2; [|done].
  pose proof (next_byte_length _ _ _ En2) as Hs3.
  destruct (negb (Ascii.eqb colon ":")); [done|].
  destruct (pv s3) as [[v r1]|] eqn:Epv; [|done].
  destruct (Hpv s3 (v, r1) ltac:(lia) Epv) as [-> Hr1]. cbn [snd] in Hr1.
  destruct (json.next_byte r1) as [[c r2]|] eqn:En; [|done].
  pose proof (next_byte_length _ _ _ En) as Hr2.
  destruct (Ascii.eqb c ",").
  - destruct (json.members pv k r2) as [[ms' rest']|] eqn:Erec; [|done].
    cbn in Hk. injection Hk as <- <-.
    destruct (IH k' r2 ms' rest') as [-> Hrest]; [|done|lia|cbn; split; [done|lia]].
    intros s' r Hs'. apply Hpv. lia.
  - destruct (Ascii.eqb c "}"); [|done]. injection Hk as <- <-. split; [done|lia].
Qed.

Lemma value_with_more pv pv' b b' s r :
  (∀ s' r', String.length s' < String.length s → pv s' = Some r' →
     pv' s' = Some r' ∧ String.length r'.2 < String.length s') →
  json.value_with pv b s = Some r → (String.length s ≤ b')%nat →
  json.value_with pv' b' s = Some r ∧ String.length r.2 < String.length s.
Proof.
  intros Hpv Hv Hb. unfold json.value_with in *.
  destruct (json.next_byte s) as [[c s1]|] eqn:En; [|done].
  pose proof (next_byte_length _ _ _ En) as Hs1.
  destruct (Ascii.eqb c "{").
  { destruct (json.next_byte s1) as [[c' rest]|] eqn:En1; [|done].
    pose proof (next_byte_length _ _ _ En1) as Hrest.
    destruct (Ascii.eqb c' "}"); [injection Hv as <-; split; [done|cbn; lia]|].
    destruct (json.members pv b s1) as [[ms rest']|] eqn:Em; [|done].
    cbn in Hv. injection Hv as <-.
    destruct (members_more pv pv' b b' s1 ms rest') as [-> Hr]; [|done|lia|cbn; split; [done|lia]].
    intros s' r' Hs'. apply Hpv. lia. }
  destruct (Ascii.eqb c "[").
  { destruct (json.next_byte s1) as [[c' rest]|] eqn:En1; [|done].
    pose proof (next_byte_length _ _ _ En1) as Hrest.
    destruct (Ascii.eqb c' "]"); [injection Hv as <-; split; [done|cbn; lia]|].
    destruct (json.elements pv b s1) as [[vs rest']|] eqn:Em; [|done].
    cbn in Hv. injection Hv as <-.
    destruct (elements_more pv pv' b b' s1 vs rest') as [-> Hr]; [|done|lia|cbn; split; [done|lia]].
    intros s' r' Hs'. apply Hpv. lia. }
  destruct (Ascii.eqb c "034").
  { destruct (json.unquote 0 s1) as [[t rest]|] eqn:Eq; [|done].
    pose proof (unquote_length _ _ _ _ Eq) as Hrest.
    cbn in Hv. injection Hv as <-. split; [done|cbn; lia]. }
  split; [exact Hv|].
  assert (String.length (json.skip_space s) = S (String.length s1)) as Hskip.
  { unfold json.next_byte in En. destruct (json.skip_space s); [done|].
    by injection En as <- <-. }
  pose proof (skip_space_length s) as Hle.
  cbv zeta in Hv.
  destruct (strip_prefix "true" (String c s1)) as [rest|] eqn:Et.
  { injection Hv as <-. apply strip_prefix_length in Et. cbn in *. lia. }
  destruct (strip_prefix "false" (String c s1)) as [rest|] eqn:Ef.
  { injection Hv as <-. apply strip_prefix_length in Ef. cbn in *. lia. }
  destruct (strip_prefix "null" (String c s1)) as [rest|] eqn:Enull.
  { injection Hv as <-. apply strip_prefix_length in Enull. cbn in *. lia. }
  destruct (json.scan_number (String c s1)) as [[lit rest]|] eqn:Enum; [|done].
  cbn in Hv. injection Hv as <-. apply scan_number_length in Enum. cbn in *. lia.
Qed.

(** More fuel than the text has bytes gives what any fuel gives, and a
    value takes at least one byte. *)
Lemma parse_value_more n :
  ∀ s r m,
    json.parse_value n s = Some r → String.length s < m →
    json.parse_value m s = Some r ∧ String.length r.2 < String.length s.
Proof.
  induction n as [|n IH]; intros s r m Hn Hm; [done|].
  destruct m as [|m]; [lia|]. rewrite parse_value_S in *.
  apply (value_with_more (json.parse_value n) (json.parse_value m) (S n) (S m) s r);
    [|done|lia].
  intros s' r' Hs' Hr'. apply (IH s' r' m Hr'). lia.
Qed.

(** The fuel [parse] gives is enough: a text that parses to a value with
    some fuel is a text [parse] accepts, with that value. *)
Lemma parse_fuel_enough n data v rest :
  json.parse_value n data = Some (v, rest) → json.skip_space rest = "" →
  json.parse data = Some v.
Proof.
  intros Hn Hrest. unfold json.parse.
  destruct (parse_value_more n data (v, rest) (S (String.length data)) Hn ltac:(lia))
    as [-> _].
  by rewrite Hrest.
Qed.

End JsonFuel.

(** ** Decoding the error envelope *)

Section ErrorEnvelope.
Import bytes.

Lemma unquote_plain_byte c s :
  json_plain c = true →
  json.unquote O (String c s) = (λ '(t, rest), (String c t, rest)) <$> json.unquote O s.
Proof.
  unfold json_plain. intros [[[H1 H2]%andb_prop H3]%andb_prop H4]%andb_prop.
  apply negb_true_iff in H1, H3, H4.
  cbn [json.unquote]. by rewrite H3, H4, H1, H2.
Qed.

Lemma unquote_plain X t :
  forallb_string json_plain X = true →
  json.unquote O (X +:+ String "034" t) = Some (X, t).
Proof.
  induction X as [|c X IH]; [done|]. intros [Hc HX]%andb_prop.
  cbn [append]. rewrite (unquote_plain_byte _ _ Hc), (IH HX). done.
Qed.

Lemma next_byte_cons c s :
  json.is_space c = false → json.next_byte (String c s) = Some (c, s).
Proof. intros H. unfold json.next_byte. cbn [json.skip_space]. by rewrite H. Qed.

Lemma parse_value_string fuel X rest :
  forallb_string json_plain X = true →
  json.parse_value (S fuel) (String "034" (X +:+ String "034" rest)) = Some (json.Str X, rest).
Proof.
  intros HX. rewrite parse_value_S. unfold json.value_with.
  rewrite next_byte_cons by done.
  change (Ascii.eqb "034" "{") with false. change (Ascii.eqb "034" "[") with false.
  change (Ascii.eqb "034" "034") with true. cbv iota.
  by rewrite (unquote_plain X rest HX).
Qed.

Lemma parse_value_envelope fuel X :
  forallb_string json_plain X = true →
  json.parse_value (S (S fuel)) (json.error_envelope X)
  = Some (json.Object [("error", json.Str X)], "").
Proof.
  intros HX.
  change (json.error_envelope X)
    with (String "{" (String "034" ("error" +:+ String "034"
            (String ":" (String "034" (X +:+ String "034" "}")))))).
  set (tail := X +:+ String "034" "}").
  rewrite parse_value_S. unfold json.value_with at 1.
  rewrite !next_byte_cons by done.
  change (Ascii.eqb "{" "{") with true. change (Ascii.eqb "034" "}") with false. cbv iota.
  cbn [json.members]. rewrite !next_byte_cons by done.
  change (negb (Ascii.eqb "034" "034")) with false. cbv iota.
  rewrite (unquote_plain "error") by done.
  rewrite !next_byte_cons by done.
  change (negb (Ascii.eqb ":" ":")) with false. cbv iota.
  subst tail.
  rewrite (parse_value_string fuel X "}" HX).
  rewrite !next_byte_cons by done.
  change (Ascii.eqb "}" ",") with false. change (Ascii.eqb "}" "}") with true. cbv iota.
  done.
Qed.

(** The envelope with a message that needs no escape decodes to the
    message. *)
Lemma Unmarshal_envelope X :
  forallb_string json_plain X = true →
  json.Unmarshal (json.error_envelope X) {| json.Error := "" |}
  = ({| json.Error := X |}, None).
Proof.
  intros HX. unfold json.Unmarshal, json.parse.
  assert (∃ n, String.length (json.error_envelope X) = S n) as [n ->].
  { eexists. reflexivity. }
  rewrite (parse_value_envelope n X HX). done.
Qed.

(** A text that is not JSON does not decode. *)
Lemma Unmarshal_not_json data output :
  json.parse data = None → json.Unmarshal data output = (output, Some json.SyntaxError).
Proof. unfold json.Unmarshal. by intros ->. Qed.

(** Only an object gives the field a value. *)
Lemma Unmarshal_object data :
  json.Error (json.Unmarshal data {| json.Error := "" |}).1 ≠ "" →
  ∃ members, json.parse data = Some (json.Object members).
Proof.
  unfold json.Unmarshal. destruct (json.parse data) as [[]|]; try done. eauto.
Qed.

(** An object without a member named [error] leaves the field empty. *)
Lemma Unmarshal_no_field data members :
  json.parse data = Some (json.Object members) →
  Forall (λ kv, json.key_matches "error" kv.1 = false) members →
  json.Unmarshal data {| json.Error := "" |} = ({| json.Error := "" |}, None).
Proof.
  unfold json.Unmarshal. intros -> Hm.
  generalize {| json.Error := "" |} as output. intros output.
  induction Hm as [|kv members Hkv _ IH]; [done|].
  cbn [foldl]. unfold json.decode_member at 2. by rewrite Hkv.
Qed.

Lemma unified_message_field bodyBytes :
  (json.Unmarshal bodyBytes {| json.Error := "" |}).2 = None →
  json.Error (json.Unmarshal bodyBytes {| json.Error := "" |}).1 ≠ "" →
  unified_message bodyBytes = json.Error (json.Unmarshal bodyBytes {| json.Error := "" |}).1.
Proof.
  unfold unified_message. destruct (json.Unmarshal _ _) as [output err]. cbn [fst snd].
  intros -> Hne. apply String.eqb_neq in Hne. rewrite Hne. done.
Qed.

Lemma unified_message_raw bodyBytes :
  (json.Unmarshal bodyBytes {| json.Error := "" |}).2 ≠ None
  ∨ json.Error (json.Unmarshal bodyBytes {| json.Error := "" |}).1 = "" →
  unified_message bodyBytes = bodyBytes.
Proof.
  unfold unified_message. destruct (json.Unmarshal _ _) as [output err]. cbn [fst snd].
  intros [Herr|Hempty].
  - by rewrite bool_decide_eq_true_2.
  - rewrite Hempty. cbn. by rewrite orb_true_r.
Qed.

End ErrorEnvelope.

(** ** The response unifier *)

Section ResponseUnifier.
Import bytes.
Context (env : Env).

(** [makeRequest] hands the network one request, with its two headers. *)
Lemma makeRequest_emitted request w :
  emitted (makeRequest env request w).2
  = emitted w ++ [emit_request (with_client_headers env request)].
Proof.
  unfold makeRequest. fold (with_client_headers env request).
  destruct (httpClient_Do env _) as [response|err]; [|done].
  destruct (negb _); destruct (ioutil_ReadAll _) as [bodyBytes [e|]]; try done.
  destruct (json.Unmarshal _ _) as [output err]. by destruct (_ || _).
Qed.

(** A response whose status is not 200 and whose body is read gives the
    unified message of the body as the error. *)
Lemma makeRequest_refused request w response bodyBytes :
  httpClient_Do env (with_client_headers env request) = Ok response →
  http.StatusCode response ≠ 200%Z →
  ioutil_ReadAll (http.resp_Body response) = (bodyBytes, None) →
  (makeRequest env request w).1 = Err (errors_New (unified_message bodyBytes)).
Proof.
  intros Hdo Hstatus Hread. unfold makeRequest. fold (with_client_headers env request).
  rewrite Hdo. apply Z.eqb_neq in Hstatus. rewrite Hstatus. cbn [negb]. rewrite Hread.
  unfold unified_message. destruct (json.Unmarshal _ _) as [output err].
  by destruct (_ || _).
Qed.

(** A response with status 200 whose body is read gives the body. *)
Lemma makeRequest_success request w response bodyBytes :
  httpClient_Do env (with_client_headers env request) = Ok response →
  http.StatusCode response = 200%Z →
  ioutil_ReadAll (http.resp_Body response) = (bodyBytes, None) →
  (makeRequest env request w).1 = Ok bodyBytes.
Proof.
  intros Hdo Hstatus Hread. unfold makeRequest. fold (with_client_headers env request).
  rewrite Hdo, Hstatus. cbn [Z.eqb Pos.eqb negb]. by rewrite Hread.
Qed.

(** C1.  For every request dispatched through [makeRequest] whose
    response arrives and whose body is read:
    - if the status is not 200 and the body decodes to an envelope with a
      non-empty [error] field, the body parses as a JSON object and the
      error returned carries exactly the value of the field; in particular
      the body [{"error":"X"}], for a text [X] that needs no escape, gives
      the message [X];
    - if the status is not 200 and the body does not decode or the field is
      empty, in particular if the body is not JSON or is an object with no
      member named [error] (names are compared as [encoding/json] does,
      letter case apart), the error returned carries the raw body;
    - if the status is 200, the bytes returned are the body, untouched. *)
Theorem C1_makeRequest_unifies_responses request w response bodyBytes :
  httpClient_Do env (with_client_headers env request) = Ok response →
  ioutil_ReadAll (http.resp_Body response) = (bodyBytes, None) →
  let decoded := json.Unmarshal bodyBytes {| json.Error := "" |} in
  let returned := (makeRequest env request w).1 in
  (http.StatusCode response ≠ 200%Z →
     (decoded.2 = None → json.Error decoded.1 ≠ "" →
        (∃ members, json.parse bodyBytes = Some (json.Object members))
        ∧ returned = Err (errors_New (json.Error decoded.1)))
     ∧ (∀ X, forallb_string json_plain X = true → X ≠ "" →
          bodyBytes = json.error_envelope X → returned = Err (errors_New X))
     ∧ (decoded.2 ≠ None ∨ json.Error decoded.1 = "" →
          returned = Err (errors_New bodyBytes))
     ∧ (json.parse bodyBytes = None → returned = Err (errors_New bodyBytes))
     ∧ (∀ members, json.parse bodyBytes = Some (json.Object members) →
          Forall (λ kv, json.key_matches "error" kv.1 = false) members →
          returned = Err (errors_New bodyBytes)))
  ∧ (http.StatusCode response = 200%Z → returned = Ok bodyBytes).
Proof.
  intros Hdo Hread decoded returned. split.
  - intros Hstatus.
    pose proof (makeRequest_refused request w response bodyBytes Hdo Hstatus Hread) as Hret.
    fold returned in Hret. rewrite Hret. repeat split.
    + apply Unmarshal_object. done.
    + by rewrite unified_message_field.
    + intros X HX Hne ->. rewrite unified_message_field; rewrite Unmarshal_envelope; done.
    + intros Hraw. by rewrite unified_message_raw.
    + intros Hnot. rewrite unified_message_raw; [done|]. left.
      by rewrite Unmarshal_not_json.
    + intros members Hparse Hno. rewrite unified_message_raw; [done|]. right.
      by rewrite (Unmarshal_no_field _ _ Hparse Hno).
  - intros Hstatus. by apply (makeRequest_success request w response).
Qed.

End ResponseUnifier.

(** C1 at a response with status 400 and an envelope as its body. *)
Lemma C1_makeRequest_unifies_responses_witness :
  let request :=
    {| http.req_Method := "GET";
       http.req_URL := url.split_url "http://operator.example:8888/deploy";
       http.req_Header := ∅;
       http.req_Body := None |} in
  (makeRequest example.env request example.world).1
  = Err (errors_New "app is not deployed").
Proof.
  intros request.
  pose (response :=
          {| http.StatusCode := 400;
             http.resp_Body := bytes_NewReader (json.error_envelope "app is not deployed") |}).
  assert (httpClient_Do example.env (with_client_headers example.env request) = Ok response)
    as Hdo.
  { vm_compute. reflexivity. }
  destruct (C1_makeRequest_unifies_responses example.env request example.world response
              (json.error_envelope "app is not deployed") Hdo eq_refl) as [Hrefused _].
  destruct (Hrefused ltac:(discriminate)) as (_ & Henvelope & _).
  apply (Henvelope "app is not deployed"); [reflexivity|discriminate|reflexivity].
Defined.

(** ** The authorization header *)

Section Authorization.
Context (env : Env).

Lemma Authorization_with_client_headers request :
  http.req_Header (with_client_headers env request) !! "Authorization"
  = Some [authHeader env].
Proof.
  unfold with_client_headers, http.Header_Set. cbn [http.req_Header http.Request_set_Header].
  change (http.CanonicalMIMEHeaderKey "Authorization") with "Authorization".
  change (http.CanonicalMIMEHeaderKey "CortexAPIVersion") with "Cortexapiversion".
  rewrite lookup_insert_ne by done. by rewrite lookup_insert_eq.
Qed.

Lemma Authorization_StreamLogs_header :
  StreamLogs_header env !! "Authorization" = Some [authHeader env].
Proof.
  unfold StreamLogs_header, http.Header_Set.
  change (http.CanonicalMIMEHeaderKey "Authorization") with "Authorization".
  change (http.CanonicalMIMEHeaderKey "CortexAPIVersion") with "Cortexapiversion".
  rewrite lookup_insert_ne by done. by rewrite lookup_insert_eq.
Qed.

Lemma emits_authorized_refl w : emits_authorized env w w.
Proof. exists []. by rewrite app_nil_r. Qed.

Lemma makeRequest_authorized request w :
  emits_authorized env w (makeRequest env request w).2.
Proof.
  exists [emit_request (with_client_headers env request)].
  split; [apply makeRequest_emitted|].
  apply Forall_singleton, Authorization_with_client_headers.
Qed.

Lemma HTTPGet_authorized endpoint qParams w :
  emits_authorized env w (HTTPGet env endpoint qParams w).2.
Proof.
  unfold HTTPGet. destruct (operatorRequest _ _ _ _ _).
  - apply makeRequest_authorized.
  - apply emits_authorized_refl.
Qed.

Lemma HTTPPostJSON_authorized endpoint jsonRequestData qParams w :
  emits_authorized env w (HTTPPostJSON env endpoint jsonRequestData qParams w).2.
Proof.
  unfold HTTPPostJSON. destruct (operatorRequest _ _ _ _ _).
  - apply makeRequest_authorized.
  - apply emits_authorized_refl.
Qed.

Lemma HTTPUpload_authorized endpoint input qParams w :
  emits_authorized env w (HTTPUpload env endpoint input qParams w).2.
Proof.
  unfold HTTPUpload.
  destruct (for_range _ _ _) as [writer [err|]]; [apply emits_authorized_refl|].
  destruct (for_range _ _ _) as [writer' [err|]]; [apply emits_authorized_refl|].
  cbn [multipart.Close]. destruct (operatorRequest _ _ _ _ _).
  - apply makeRequest_authorized.
  - apply emits_authorized_refl.
Qed.

(** [StreamLogs] dials once, with its header, if the request is built. *)
Lemma StreamLogs_emitted appName resourceName resourceType verbose w :
  match operatorRequest env "GET" "/logs/read" None [] with
  | Err _ => (StreamLogs env appName resourceName resourceType verbose w).2 = w
  | Ok req =>
      emitted (StreamLogs env appName resourceName resourceType verbose w).2
      = emitted w
        ++ [emit_handshake (StreamLogs_wsURL req appName resourceName resourceType verbose)
              (StreamLogs_header env)]
  end.
Proof.
  unfold StreamLogs. fold (StreamLogs_header env).
  destruct (operatorRequest _ _ _ _ _) as [req|err]; [|done].
  destruct (dial_response _) as [response|]; [|done].
  destruct (dial_err _); [|done].
  destruct (ioutil_ReadAll _) as [bodyBytes err]. destruct (_ || _); [done|].
  destruct (json.Unmarshal _ _) as [output err']. by destruct (_ || _).
Qed.

Lemma StreamLogs_authorized appName resourceName resourceType verbose w :
  emits_authorized env w (StreamLogs env appName resourceName resourceType verbose w).2.
Proof.
  pose proof (StreamLogs_emitted appName resourceName resourceType verbose w) as H.
  destruct (operatorRequest _ _ _ _ _) as [req|err].
  - eexists. split; [exact H|]. apply Forall_singleton, Authorization_StreamLogs_header.
  - rewrite H. apply emits_authorized_refl.
Qed.

(** C2.  [authHeader] is [CortexAWS <accessKeyId>|<secretAccessKey>], made
    from the configuration, and every request the client hands to the
    network carries it as the one value of its [Authorization] header:
    the requests of [makeRequest], hence of [HTTPGet], [HTTPPostJSON],
    [HTTPPostJSONData], [HTTPUpload] and [HTTPUploadZip], and the websocket
    handshake of [StreamLogs], which is made whenever its request could be
    built. *)
Theorem C2_authorization_header_on_every_request :
  authHeader env
  = "CortexAWS " +:+ AWSAccessKeyID (getValidCliConfig env) +:+ "|"
    +:+ AWSSecretAccessKey (getValidCliConfig env)
  ∧ (∀ request w, emits_authorized env w (makeRequest env request w).2)
  ∧ (∀ endpoint qParams w, emits_authorized env w (HTTPGet env endpoint qParams w).2)
  ∧ (∀ endpoint jsonRequestData qParams w,
       emits_authorized env w (HTTPPostJSON env endpoint jsonRequestData qParams w).2)
  ∧ (∀ (RequestData : Type) (json_Marshal : RequestData → result string)
       endpoint requestData qParams w,
       emits_authorized env w
         (HTTPPostJSONData env json_Marshal endpoint requestData qParams w).2)
  ∧ (∀ endpoint input qParams w,
       emits_authorized env w (HTTPUpload env endpoint input qParams w).2)
  ∧ (∀ (ZipInput : Type) (ZipToMem : ZipInput → result string)
       endpoint zipInput fileName qParams w,
       emits_authorized env w
         (HTTPUploadZip env ZipToMem endpoint zipInput fileName qParams w).2)
  ∧ (∀ appName resourceName resourceType verbose w,
       emits_authorized env w
         (StreamLogs env appName resourceName resourceType verbose w).2
       ∧ ∀ req, operatorRequest env "GET" "/logs/read" None [] = Ok req →
           ∃ wsURL header,
             emitted (StreamLogs env appName resourceName resourceType verbose w).2
             = emitted w ++ [emit_handshake wsURL header]
             ∧ header !! "Authorization" = Some [authHeader env]).
Proof.
  split; [reflexivity|].
  split; [apply makeRequest_authorized|].
  split; [apply HTTPGet_authorized|].
  split; [apply HTTPPostJSON_authorized|].
  split.
  { intros RequestData json_Marshal endpoint requestData qParams w.
    unfold HTTPPostJSONData. destruct (json_Marshal requestData).
    - apply HTTPPostJSON_authorized.
    - apply emits_authorized_refl. }
  split; [apply HTTPUpload_authorized|].
  split.
  { intros ZipInput ZipToMem endpoint zipInput fileName qParams w.
    unfold HTTPUploadZip. destruct (ZipToMem zipInput).
    - apply HTTPUpload_authorized.
    - apply emits_authorized_refl. }
  intros appName resourceName resourceType verbose w.
  split; [apply StreamLogs_authorized|].
  intros req Hreq.
  pose proof (StreamLogs_emitted appName resourceName resourceType verbose w) as H.
  rewrite Hreq in H. eexists _, _. split; [exact H|]. apply Authorization_StreamLogs_header.
Qed.

End Authorization.

(** ** Failures of the websocket handshake *)

Section Handshake.
Context (env : Env).

(** C8, as amended.  For every attempt of [StreamLogs] whose request
    could be built:
    - with no handshake response, the process exits with
      [ErrFailedToConnect] of the sanitized URL;
    - with a response and a refused handshake, the body of the response is
      read; if reading fails or the body is empty the process exits with
      [ErrFailedToConnect] of the sanitized URL; otherwise it exits with
      the unified message of the body, which is the message [makeRequest]
      gives for a refused request with that body. *)
Theorem C8_StreamLogs_connection_failures appName resourceName resourceType verbose w req :
  operatorRequest env "GET" "/logs/read" None [] = Ok req →
  let wsURL := StreamLogs_wsURL req appName resourceName resourceType verbose in
  let dialed := dialer_Dial env wsURL (StreamLogs_header env) in
  let outcome := (StreamLogs env appName resourceName resourceType verbose w).1 in
  let failed_to_connect :=
    stream_exit (exit_message (ErrFailedToConnect env (CleanURL env wsURL))) in
  (dial_response dialed = None → outcome = failed_to_connect)
  ∧ (∀ response bodyBytes readErr,
       dial_response dialed = Some response → dial_err dialed ≠ None →
       ioutil_ReadAll (http.resp_Body response) = (bodyBytes, readErr) →
       (readErr ≠ None ∨ bodyBytes = "" → outcome = failed_to_connect)
       ∧ (readErr = None → bodyBytes ≠ "" →
            outcome = stream_exit (exit_message (unified_message bodyBytes))
            ∧ ∀ request w' refused,
                httpClient_Do env (with_client_headers env request) = Ok refused →
                http.StatusCode refused ≠ 200%Z →
                ioutil_ReadAll (http.resp_Body refused) = (bodyBytes, None) →
                (makeRequest env request w').1
                = Err (errors_New (unified_message bodyBytes)))).
Proof.
  intros Hreq wsURL dialed outcome failed.
  subst outcome. unfold StreamLogs. rewrite Hreq. fold (StreamLogs_header env).
  fold wsURL. fold dialed. split.
  - by intros ->.
  - intros response bodyBytes readErr -> Herr Hread.
    destruct (dial_err dialed) as [e|]; [|done]. rewrite Hread. split.
    + intros [Hr|Hb].
      * by rewrite bool_decide_eq_true_2.
      * subst bodyBytes. by rewrite orb_true_r.
    + intros -> Hb. apply String.eqb_neq in Hb. rewrite Hb.
      rewrite bool_decide_eq_false_2 by (intros H; by apply H). cbn [orb]. split.
      * unfold unified_message. destruct (json.Unmarshal _ _) as [output err].
        by destruct (_ || _).
      * intros request w' refused. apply makeRequest_refused.
Qed.

End Handshake.

(** C8, as amended, at a handshake refused with an envelope. *)
Lemma C8_StreamLogs_connection_failures_witness :
  (StreamLogs (example.env_with (example.refusing (json.error_envelope "unauthorized")))
     "app" "api" "deployment" true example.world).1
  = stream_exit (exit_message "unauthorized").
Proof.
  pose (env := example.env_with (example.refusing (json.error_envelope "unauthorized"))).
  pose (req :=
          {| http.req_Method := "GET";
             http.req_URL := {| url.Base := "http://operator.example:8888/logs/read";
                                url.ForceQuery := false; url.RawQuery := "";
                                url.Fragment := "" |};
             http.req_Header := ∅;
             http.req_Body := None |}).
  assert (operatorRequest env "GET" "/logs/read" None [] = Ok req) as Hreq.
  { vm_compute. reflexivity. }
  pose proof (C8_StreamLogs_connection_failures env "app" "api" "deployment" true
                example.world req Hreq) as H.
  cbv zeta in H. destruct H as [_ H].
  destruct (H {| http.StatusCode := 401;
                 http.resp_Body := bytes_NewReader (json.error_envelope "unauthorized") |}
              (json.error_envelope "unauthorized") None
              eq_refl ltac:(discriminate) eq_refl) as [_ Hmsg].
  destruct (Hmsg eq_refl ltac:(discriminate)) as [Hout _].
  fold env. rewrite Hout. vm_compute. reflexivity.
Defined.

(** Against C8 as stated: for a handshake refused with an empty body the
    process exits with the failed-to-connect message, not with the message
    the response unifier makes of an empty body, which is the empty raw
    body. *)
Lemma C8_counterexample :
  let outcome :=
    (StreamLogs (example.env_with (example.refusing "")) "app" "api" "deployment" true
       example.world).1 in
  outcome
  = stream_exit
      (exit_message
         "failed to connect to ws://operator.example:8888/logs/read?appName=app&resourceName=api&resourceType=deployment&verbose=true")
  ∧ unified_message "" = ""
  ∧ outcome ≠ stream_exit (exit_message (unified_message "")).
Proof.
  cbv zeta. split; [vm_compute; reflexivity|]. split; [vm_compute; reflexivity|].
  vm_compute. discriminate.
Qed.

(** ** Multipart uploads *)

Section Uploads.
Context (env : Env).

Lemma operatorRequest_Body method endpoint body qParams req :
  operatorRequest env method endpoint body qParams = Ok req → http.req_Body req = body.
Proof.
  unfold operatorRequest, http_NewRequest. destruct (negb _); [done|].
  destruct (url_Parse_error env _); [done|]. by intros [= <-].
Qed.

Lemma operatorRequest_POST endpoint body qParams :
  url_Parse_error env (CortexURL (getValidCliConfig env) +:+ endpoint) = None →
  ∃ req, operatorRequest env "POST" endpoint body qParams = Ok req.
Proof.
  intros Hurl. unfold operatorRequest, http_NewRequest. rewrite Hurl.
  change (negb (validMethod _)) with false. cbv iota. eauto.
Qed.

(** The request [operatorRequest] builds for a method that is a token. *)
Lemma operatorRequest_built method endpoint body qParams :
  validMethod method = true →
  url_Parse_error env (CortexURL (getValidCliConfig env) +:+ endpoint) = None →
  operatorRequest env method endpoint body qParams
  = Ok {| http.req_Method := method;
          http.req_URL :=
            url.URL_set_RawQuery
              (url.Values_Encode
                 (merged env
                    (url.URL_Query (url.split_url (CortexURL (getValidCliConfig env) +:+ endpoint)))
                    qParams))
              (url.split_url (CortexURL (getValidCliConfig env) +:+ endpoint));
          http.req_Header := ∅;
          http.req_Body := body |}.
Proof.
  intros Hm Hurl. unfold operatorRequest, http_NewRequest.
  assert (String.eqb method "" = false) as ->.
  { unfold validMethod in Hm. by destruct (String.eqb method ""). }
  rewrite Hm, Hurl. cbn [negb]. reflexivity.
Qed.

Lemma range_singleton {A : Type} (k : string) (v : A) :
  range env ({[ k := v ]} : gmap string A) = [(k, v)].
Proof.
  unfold range. apply Permutation_singleton_r.
  rewrite (range_map_perm (env_range env)). by rewrite map_to_list_singleton.
Qed.

Lemma range_NoDup {A : Type} (m : gmap string A) : NoDup (range env m).*1.
Proof. unfold range. rewrite (range_map_perm (env_range env)). apply NoDup_fst_map_to_list. Qed.

Lemma range_elem_of {A : Type} (m : gmap string A) k v :
  (k, v) ∈ range env m ↔ m !! k = Some v.
Proof.
  unfold range. rewrite (range_map_perm (env_range env)). apply elem_of_map_to_list.
Qed.

End Uploads.

Section MultipartReading.
Import bytes.

(** *** Searching a text *)

Lemma contains_string_false_prefix sub s :
  contains_string sub s = false → strip_prefix sub s = None.
Proof. destruct s; cbn [contains_string]; by destruct (strip_prefix sub _). Qed.

Lemma contains_string_false_tail sub c s :
  contains_string sub (String c s) = false → contains_string sub s = false.
Proof. cbn [contains_string]. by destruct (strip_prefix sub _). Qed.

(** A text [p] without a carriage return that does not start [d] does
    not start [d] followed by a carriage return either. *)
Lemma strip_prefix_before_CR p d t :
  p ≠ "" → forallb_string (λ c, negb (Ascii.eqb c "013")) p = true →
  strip_prefix p d = None →
  strip_prefix p (d +:+ String "013" t) = None.
Proof.
  revert p. induction d as [|c d IH]; intros p Hne Hp Hd.
  - destruct p as [|a p]; [done|]. cbn [forallb_string] in Hp.
    apply andb_true_iff in Hp as [Ha _]. apply negb_true_iff in Ha.
    cbn [append strip_prefix]. by rewrite Ha.
  - destruct p as [|a p]; [done|]. cbn [forallb_string] in Hp.
    apply andb_true_iff in Hp as [Ha Hp].
    cbn [append strip_prefix] in *. destruct (Ascii.eqb a c); [|done].
    destruct p as [|b p]; [by destruct d|]. by apply IH.
Qed.

Lemma alnum_not_CR boundary :
  forallb_string is_alnum boundary = true →
  forallb_string (λ c, negb (Ascii.eqb c "013")) boundary = true.
Proof.
  apply forallb_string_impl. intros c Hc. destruct (Ascii.eqb_spec c "013") as [->|]; done.
Qed.

Lemma alnum_not_LF boundary :
  forallb_string is_alnum boundary = true →
  forallb_string (λ c, negb (Ascii.eqb c "010")) boundary = true.
Proof.
  apply forallb_string_impl. intros c Hc. destruct (Ascii.eqb_spec c "010") as [->|]; done.
Qed.


(** *** The content of a part *)


Lemma strip_prefix_cons a p c s :
  strip_prefix (String a p) (String c s) = if Ascii.eqb a c then strip_prefix p s else None.
Proof. reflexivity. Qed.

Lemma delimiter_not_in_content boundary c d t :
  forallb_string is_alnum boundary = true →
  contains_string (String "-" (String "-" boundary)) (String c d) = false →
  strip_prefix (delimiter boundary) (String c d +:+ delimiter boundary +:+ t) = None.
Proof.
  intros Hb Hfree. unfold delimiter.
  change (String c d +:+ ?x) with (String c (d +:+ x)). rewrite strip_prefix_cons.
  change (String "013" ?x +:+ t) with (String "013" (x +:+ t)).
  destruct (Ascii.eqb "013" c); [|done].
  apply strip_prefix_before_CR; [done| |].
  - cbn [forallb_string]. by rewrite alnum_not_CR.
  - destruct d as [|x d]; [done|]. rewrite strip_prefix_cons.
    destruct (Ascii.eqb "010" x); [|done].
    apply contains_string_false_tail, contains_string_false_tail in Hfree.
    by apply contains_string_false_prefix.
Qed.

Lemma scan_content fuel boundary data t :
  forallb_string is_alnum boundary = true →
  contains_string (String "-" (String "-" boundary)) data = false →
  multipart_reader.matchAfterPrefix t = true →
  (String.length data < fuel)%nat →
  multipart_reader.scan fuel (delimiter boundary) (data +:+ delimiter boundary +:+ t)
  = Some (data, delimiter boundary +:+ t).
Proof.
  intros Hb Hfree Ht. revert fuel. induction data as [|c d IH]; intros fuel Hfuel.
  - destruct fuel as [|fuel]; [cbn in Hfuel; lia|].
    cbn [append multipart_reader.scan]. rewrite strip_prefix_app. by rewrite Ht.
  - destruct fuel as [|fuel]; [cbn in Hfuel; lia|].
    cbn [multipart_reader.scan].
    rewrite (delimiter_not_in_content boundary c d t Hb Hfree).
    change (String c d +:+ ?x) with (String c (d +:+ x)). cbv iota.
    rewrite IH; [done| |cbn in Hfuel; lia].
    by apply contains_string_false_tail in Hfree.
Qed.

Lemma content_read boundary data t :
  forallb_string is_alnum boundary = true →
  free_of_boundary boundary data = true →
  multipart_reader.matchAfterPrefix t = true →
  multipart_reader.content boundary multipart.CRLF (data +:+ delimiter boundary +:+ t)
  = Some (data, delimiter boundary +:+ t).
Proof.
  intros Hb Hfree Ht. unfold free_of_boundary in Hfree. apply negb_true_iff in Hfree.
  change ("--" +:+ boundary) with (String "-" (String "-" boundary)) in Hfree.
  unfold multipart_reader.content.
  change (multipart.CRLF +:+ "--" +:+ boundary) with (delimiter boundary).
  change ("--" +:+ boundary) with (String "-" (String "-" boundary)).
  assert (strip_prefix (String "-" (String "-" boundary)) (data +:+ delimiter boundary +:+ t)
          = None) as ->.
  { unfold delimiter. change (String "013" ?x +:+ t) with (String "013" (x +:+ t)).
    apply strip_prefix_before_CR; [done| |by apply contains_string_false_prefix].
    cbn [forallb_string]. by rewrite alnum_not_CR. }
  apply scan_content; [done|done|done|].
  rewrite length_app_s. lia.
Qed.

End MultipartReading.

Section HeaderReading.
Import bytes.

(** *** The lines of a header *)

Lemma append_nil_r (s : string) : s +:+ "" = s.
Proof. induction s; simpl; congruence. Qed.

Lemma dropCR_line line : textproto.dropCR (line +:+ String "013" "") = line.
Proof.
  induction line as [|c line IH]; [done|].
  change (String c line +:+ ?x) with (String c (line +:+ x)). cbn [textproto.dropCR].
  rewrite IH. by destruct line.
Qed.

Lemma eqb_app_nonempty (a : string) c (b : string) : String.eqb (a +:+ String c b) "" = false.
Proof. by destruct a. Qed.

(** A line that ends in a carriage return and a line feed is read
    without them. *)
Lemma readLineSlice_line line rest :
  forallb_string (λ c, negb (Ascii.eqb c "010")) line = true →
  textproto.readLineSlice (line +:+ multipart.CRLF +:+ rest) = Some (line, rest).
Proof.
  intros Hline. unfold textproto.readLineSlice, multipart.CRLF.
  change (String "013" (String "010" "") +:+ rest) with (String "013" (String "010" rest)).
  rewrite eqb_app_nonempty.
  assert (line +:+ String "013" (String "010" rest)
          = (line +:+ String "013" "") +:+ String "010" rest) as ->.
  { by rewrite app_assoc_s. }
  unfold textproto.LF. rewrite Cut_app_sep.
  - by rewrite dropCR_line.
  - by rewrite forallb_string_app, Hline.
Qed.

Lemma TrimRight_end p s c :
  p c = false → textproto.TrimRight p (s +:+ String c "") = s +:+ String c "".
Proof.
  intros Hc. induction s as [|a s IH].
  - cbn. by rewrite Hc.
  - change (String a s +:+ ?x) with (String a (s +:+ x)). cbn [textproto.TrimRight].
    rewrite IH. by rewrite eqb_app_nonempty.
Qed.

(** A field on one line, followed by a line that does not continue it. *)
Lemma readContinuedLineSlice_field a line z c rest :
  textproto.is_blank a = false → textproto.is_blank z = false →
  textproto.is_blank c = false →
  forallb_string (λ c, negb (Ascii.eqb c "010")) (String a (line +:+ String z "")) = true →
  contains_byte ":" (String a (line +:+ String z "")) = true →
  textproto.readContinuedLineSlice
    (String a (line +:+ String z "") +:+ multipart.CRLF +:+ String c rest)
  = Some (String a (line +:+ String z ""), String c rest).
Proof.
  intros Ha Hz Hc Hline Hcolon. unfold textproto.readContinuedLineSlice.
  rewrite (readLineSlice_line _ _ Hline).
  change (String.eqb (String a ?x) "") with false. cbv iota. rewrite Hcolon. cbn [negb].
  unfold textproto.trim. cbn [textproto.TrimLeft]. rewrite Ha.
  change (String a (line +:+ String z "")) with (String a line +:+ String z "").
  rewrite (TrimRight_end _ _ _ Hz).
  destruct (String.length (String c rest)); cbn [textproto.continuation]; by rewrite ?Hc.
Qed.

Lemma readContinuedLineSlice_end rest :
  textproto.readContinuedLineSlice (multipart.CRLF +:+ rest) = Some ("", rest).
Proof. reflexivity. Qed.

End HeaderReading.

Section NamesInHeaders.
Import bytes.

(** *** Names between quotes *)

Lemma escapeQuotes_cons c s :
  multipart.escapeQuotes (String c s)
  = multipart.escapeQuotes (String c "") +:+ multipart.escapeQuotes s.
Proof.
  cbn [multipart.escapeQuotes].
  destruct (_ || _); [done|]. destruct (Ascii.eqb c "013"); [done|].
  by destruct (Ascii.eqb c "010").
Qed.

(** What is written for a name holds neither a carriage return nor a
    line feed. *)
Lemma escapeQuotes_one_line name :
  forallb_string (λ c, negb (Ascii.eqb c "010")) (multipart.escapeQuotes name) = true.
Proof.
  induction name as [|c name IH]; [done|]. rewrite escapeQuotes_cons, forallb_string_app, IH.
  rewrite andb_true_r. cbn [multipart.escapeQuotes].
  destruct (Ascii.eqb_spec c "\") as [->|]; [done|].
  destruct (Ascii.eqb_spec c "034") as [->|]; [done|]. cbn [orb].
  destruct (Ascii.eqb_spec c "013") as [->|]; [done|].
  destruct (Ascii.eqb_spec c "010") as [->|]; [done|].
  cbn [forallb_string]. rewrite andb_true_r. by apply negb_true_iff, Ascii.eqb_neq.
Qed.

Lemma printable_valid c : printable c = true → textproto.validHeaderValueByte c = true.
Proof. each_byte c; vm_compute; done. Qed.

Lemma printable_not_CR c : printable c = true → Ascii.eqb c "013" = false.
Proof. each_byte c; vm_compute; done. Qed.

Lemma printable_not_LF c : printable c = true → Ascii.eqb c "010" = false.
Proof. each_byte c; vm_compute; done. Qed.

Lemma escapeQuotes_valid name :
  forallb_string printable name = true →
  forallb_string textproto.validHeaderValueByte (multipart.escapeQuotes name) = true.
Proof.
  induction name as [|c name IH]; [done|]. cbn [forallb_string].
  intros [Hc Hname]%andb_prop.
  rewrite escapeQuotes_cons, forallb_string_app, (IH Hname), andb_true_r.
  cbn [multipart.escapeQuotes].
  rewrite (printable_not_CR c Hc), (printable_not_LF c Hc).
  destruct (_ || _); cbn [forallb_string]; by rewrite (printable_valid c Hc).
Qed.

(** The reader takes a name between quotes back as it was, if the name
    holds no carriage return and no line feed. *)
Lemma consumeQuoted_escapeQuotes name rest :
  forallb_string printable name = true →
  mime.consumeQuoted (multipart.escapeQuotes name +:+ String "034" rest) = Some (name, rest).
Proof.
  induction name as [|c name IH]; [done|]. cbn [forallb_string].
  intros [Hc Hname]%andb_prop. cbn [multipart.escapeQuotes].
  rewrite (printable_not_CR c Hc), (printable_not_LF c Hc).
  destruct (Ascii.eqb_spec c "\") as [->|Hb].
  { cbn [orb]. change (String "\" (String "\" ?x) +:+ ?y) with (String "\" (String "\" (x +:+ y))).
    cbn [mime.consumeQuoted]. change (Ascii.eqb "\" mime.quote) with false.
    change (Ascii.eqb "\" "\" && mime.isTSpecial "\") with true. cbv iota.
    by rewrite (IH Hname). }
  destruct (Ascii.eqb_spec c "034") as [->|Hq].
  { cbn [orb]. change (String "\" (String "034" ?x) +:+ ?y)
      with (String "\" (String "034" (x +:+ y))).
    cbn [mime.consumeQuoted]. change (Ascii.eqb "\" mime.quote) with false.
    change (Ascii.eqb "\" "\" && mime.isTSpecial "034") with true. cbv iota.
    by rewrite (IH Hname). }
  cbn [orb]. change (String c ?x +:+ ?y) with (String c (x +:+ y)).
  cbn [mime.consumeQuoted].
  assert (Ascii.eqb c mime.quote = false) as -> by by apply Ascii.eqb_neq.
  assert (Ascii.eqb c "\" = false) as -> by by apply Ascii.eqb_neq.
  rewrite (printable_not_CR c Hc), (printable_not_LF c Hc). cbn [andb orb].
  specialize (IH Hname).
  destruct (multipart.escapeQuotes name +:+ String "034" rest) as [|x y] eqn:Heq.
  { by destruct (multipart.escapeQuotes name). }
  by rewrite IH.
Qed.

End NamesInHeaders.

Section Dispositions.
Import bytes.

(** *** The disposition of a part *)

Lemma eqb_shorter (rest : string) c (a : string) :
  String.eqb rest (String c (a +:+ rest)) = false.
Proof.
  apply String.eqb_neq. intros Heq. apply (f_equal String.length) in Heq.
  cbn [String.length] in Heq. rewrite length_app_s in Heq. lia.
Qed.

Lemma TrimLeft_stop p c s : p c = false → textproto.TrimLeft p (String c s) = String c s.
Proof. intros Hc. cbn [textproto.TrimLeft]. by rewrite Hc. Qed.

Lemma TrimLeft_skip p c s :
  p c = true → textproto.TrimLeft p (String c s) = textproto.TrimLeft p s.
Proof. intros Hc. cbn [textproto.TrimLeft]. by rewrite Hc. Qed.

Lemma TrimLeft_token key x :
  key ≠ "" → forallb_string mime.isTokenChar key = true →
  textproto.TrimLeft mime.isSpace (key +:+ x) = key +:+ x.
Proof.
  intros Hkey Htoken. destruct key as [|k key]; [done|]. cbn [forallb_string] in Htoken.
  apply andb_true_iff in Htoken as [Hk _].
  change (String k key +:+ x) with (String k (key +:+ x)). apply TrimLeft_stop.
  revert Hk. clear. each_byte k; vm_compute; done.
Qed.

(** A parameter written as a semicolon, a space, its name, an equals
    sign and its value between quotes is read back. *)
Lemma consumeMediaParam_quoted key value rest :
  key ≠ "" → forallb_string mime.isTokenChar key = true →
  map_string to_lower key = key →
  forallb_string printable value = true →
  mime.consumeMediaParam
    (String ";" (String " " (key +:+ String "=" (multipart.quoted
                                                   (multipart.escapeQuotes value) +:+ rest))))
  = (key, value, rest).
Proof.
  intros Hkey Htoken Hlower Hvalue. unfold mime.consumeMediaParam.
  rewrite (TrimLeft_stop mime.isSpace ";") by done.
  change (Ascii.eqb ";" ";") with true. cbn [negb].
  rewrite (TrimLeft_skip mime.isSpace " ") by done.
  rewrite (TrimLeft_token key _ Hkey Htoken).
  unfold mime.consumeToken. rewrite (span_maximal mime.isTokenChar key _ Htoken).
  2:{ intros c t [= <- _]. done. }
  rewrite Hlower. apply String.eqb_neq in Hkey. rewrite Hkey.
  rewrite (TrimLeft_stop mime.isSpace "=") by done.
  change (Ascii.eqb "=" "=") with true. cbn [negb].
  unfold multipart.quoted.
  change (String "034" ?x +:+ rest) with (String "034" (x +:+ rest)).
  rewrite (TrimLeft_stop mime.isSpace "034") by done.
  unfold mime.consumeValue. change (Ascii.eqb "034" mime.quote) with true. cbn [negb].
  rewrite app_assoc_s. change (String "034" "" +:+ rest) with (String "034" rest).
  rewrite (consumeQuoted_escapeQuotes value rest Hvalue).
  assert (String.eqb rest
            (String "034" (multipart.escapeQuotes value +:+ String "034" rest)) = false)
    as ->; [|by rewrite andb_false_r].
  apply String.eqb_neq. intros Heq. apply (f_equal String.length) in Heq.
  cbn [String.length] in Heq. rewrite length_app_s in Heq. cbn [String.length] in Heq. lia.
Qed.

Lemma parameters_S fuel params v :
  mime.parameters (S fuel) params v
  = let v := textproto.TrimLeft mime.isSpace v in
    if String.eqb v "" then Some params
    else
      let '(key, value, rest) := mime.consumeMediaParam v in
      if String.eqb key "" then
        if String.eqb (mime.TrimSpace rest) ";" then Some params else None
      else if contains_byte "*" key then None
      else
        match params !! key with
        | Some old => if String.eqb old value then mime.parameters fuel params rest else None
        | None => mime.parameters fuel (<[key := value]> params) rest
        end.
Proof. reflexivity. Qed.

(** [ParseMediaType] reads the disposition [CreateFormFile] writes. *)
Lemma ParseMediaType_FileContentDisposition fieldname filename :
  forallb_string printable fieldname = true →
  forallb_string printable filename = true →
  mime.ParseMediaType (multipart.FileContentDisposition fieldname filename)
  = Some ("form-data", <["filename" := filename]> (<["name" := fieldname]> ∅)).
Proof.
  intros Hfield Hfile. unfold mime.ParseMediaType, multipart.FileContentDisposition.
  change ("form-data; name=" +:+ ?x)
    with ("form-data" +:+ String ";" (String " " ("name" +:+ String "=" x))).
  rewrite Cut_app_sep by done.
  change (mime.TrimSpace (map_string to_lower "form-data")) with "form-data".
  change (mime.checkMediaTypeDisposition "form-data") with true. cbn [negb].
  change ("; filename=" +:+ ?x)
    with (String ";" (String " " ("filename" +:+ String "=" x))).
  rewrite <-(append_nil_r (multipart.quoted (multipart.escapeQuotes filename))).
  set (v2 := String ";" (String " " ("filename" +:+ String "="
               (multipart.quoted (multipart.escapeQuotes filename) +:+ "")))).
  set (v1 := String ";" (String " " ("name" +:+ String "="
               (multipart.quoted (multipart.escapeQuotes fieldname) +:+ v2)))).
  assert (∃ k, String.length v1 = S (S k)) as [k Hlen] by (by eexists).
  cbn [fmap option_fmap option_map].
  assert (mime.parameters (S (String.length v1)) ∅ v1
          = Some (<["filename" := filename]> (<["name" := fieldname]> ∅))) as ->; [|done].
  rewrite Hlen, parameters_S. cbv zeta. subst v1.
  rewrite (TrimLeft_stop mime.isSpace ";") by done.
  change (String.eqb (String ";" ?x) "") with false. cbv iota.
  rewrite (consumeMediaParam_quoted "name" fieldname v2) by done.
  change (String.eqb "name" "") with false. cbv iota.
  change (contains_byte "*" "name") with false. cbv iota.
  rewrite lookup_empty, parameters_S. cbv zeta. subst v2.
  rewrite (TrimLeft_stop mime.isSpace ";") by done.
  change (String.eqb (String ";" ?x) "") with false. cbv iota.
  rewrite (consumeMediaParam_quoted "filename" filename "") by done.
  change (String.eqb "filename" "") with false. cbv iota.
  change (contains_byte "*" "filename") with false. cbv iota.
  rewrite lookup_insert_ne by done. rewrite lookup_empty, parameters_S. done.
Qed.

End Dispositions.

Section PartHeaders.
Import bytes.

(** *** The header of a part *)

Lemma fields_S fuel m s :
  textproto.fields (S fuel) m s
  = match textproto.readContinuedLineSlice s with
    | None => None
    | Some (kv, rest) =>
        if String.eqb kv "" then Some (m, rest)
        else
          match Cut ":" kv with
          | (k, Some v) =>
              match textproto.canonicalMIMEHeaderKey k with
              | None => None
              | Some key =>
                  if negb (forallb_string textproto.validHeaderValueByte v) then None
                  else
                    let value := textproto.TrimLeft textproto.is_blank v in
                    textproto.fields fuel (<[key := default [] (m !! key) ++ [value]]> m) rest
              end
          | (_, None) => None
          end
    end.
Proof. reflexivity. Qed.


Lemma disposition_line_eq fieldname filename :
  "Content-Disposition: " +:+ multipart.FileContentDisposition fieldname filename
  = String "C" (disposition_line fieldname filename +:+ String "034" "").
Proof.
  unfold multipart.FileContentDisposition, disposition_line, multipart.quoted.
  change ("Content-Disposition: " +:+ "form-data; name=" +:+ ?x)
    with (String "C" ("ontent-Disposition: form-data; name=" +:+ x)).
  f_equal. rewrite !app_assoc_s.
  change (String "034" ?x +:+ ?y) with (String "034" (x +:+ y)).
  by rewrite !app_assoc_s.
Qed.

Lemma FileContentDisposition_valid fieldname filename :
  forallb_string printable fieldname = true → forallb_string printable filename = true →
  forallb_string textproto.validHeaderValueByte
    (String " " (multipart.FileContentDisposition fieldname filename)) = true.
Proof.
  intros Hfield Hfile. unfold multipart.FileContentDisposition, multipart.quoted.
  cbn [forallb_string]. change (textproto.validHeaderValueByte " ") with true.
  rewrite !forallb_string_app. cbn [forallb_string].
  rewrite !forallb_string_app. cbn [forallb_string].
  by rewrite !escapeQuotes_valid.
Qed.

Lemma FileContentDisposition_one_line fieldname filename :
  forallb_string (λ c, negb (Ascii.eqb c "010"))
    (String "C" (disposition_line fieldname filename +:+ String "034" "")) = true.
Proof.
  rewrite <-disposition_line_eq.
  unfold multipart.FileContentDisposition, multipart.quoted.
  rewrite !forallb_string_app. cbn [forallb_string].
  rewrite !forallb_string_app. cbn [forallb_string].
  by rewrite !escapeQuotes_one_line.
Qed.


Lemma ReadMIMEHeader_form_file fieldname filename rest :
  forallb_string printable fieldname = true → forallb_string printable filename = true →
  textproto.ReadMIMEHeader
    ("Content-Disposition: " +:+ multipart.FileContentDisposition fieldname filename
     +:+ multipart.CRLF +:+ "Content-Type: application/octet-stream"
     +:+ multipart.CRLF +:+ multipart.CRLF +:+ rest)
  = Some (form_file_header fieldname filename, rest).
Proof.
  intros Hfield Hfile.
  rewrite <-app_assoc_s, disposition_line_eq.
  set (line1 := String "C" (disposition_line fieldname filename +:+ String "034" "")).
  change ("Content-Type: application/octet-stream" +:+ ?x)
    with (String "C" ("ontent-Type: application/octet-strea" +:+ String "m" "") +:+ x).
  set (line2 := String "C" ("ontent-Type: application/octet-strea" +:+ String "m" "")).
  unfold textproto.ReadMIMEHeader.
  assert (∃ t, line1 +:+ multipart.CRLF +:+ line2 +:+ multipart.CRLF +:+ multipart.CRLF +:+ rest
               = String "C" t) as [t Ht] by (by eexists).
  rewrite Ht. change (textproto.is_blank "C") with false. cbv iota. rewrite <-Ht. clear t Ht.
  assert (∃ k, String.length
                 (line1 +:+ multipart.CRLF +:+ line2 +:+ multipart.CRLF +:+ multipart.CRLF +:+ rest)
               = S (S k)) as [k ->].
  { rewrite !length_app_s. subst line1 line2. cbn [String.length Nat.add]. by eexists. }
  rewrite fields_S.
  change (line2 +:+ ?x) with (String "C" ("ontent-Type: application/octet-stream" +:+ x)) at 1.
  unfold line1 at 1.
  rewrite (readContinuedLineSlice_field "C" _ "034" "C");
    [|done|done|done|apply FileContentDisposition_one_line|done].
  change (String.eqb (String "C" ?x) "") with false. cbv iota.
  rewrite <-disposition_line_eq.
  change ("Content-Disposition: " +:+ ?x)
    with ("Content-Disposition" +:+ String ":" (String " " x)).
  rewrite Cut_app_sep by done.
  change (textproto.canonicalMIMEHeaderKey "Content-Disposition")
    with (Some "Content-Disposition").
  rewrite (FileContentDisposition_valid _ _ Hfield Hfile). cbn [negb]. cbv zeta.
  rewrite (TrimLeft_skip textproto.is_blank " ") by done.
  assert (textproto.TrimLeft textproto.is_blank
            (multipart.FileContentDisposition fieldname filename)
          = multipart.FileContentDisposition fieldname filename) as -> by done.
  rewrite lookup_empty. cbn [default app].
  rewrite fields_S.
  change (String "C" ("ontent-Type: application/octet-stream" +:+ ?x)) with (line2 +:+ x).
  unfold line2 at 1.
  change (multipart.CRLF +:+ multipart.CRLF +:+ rest)
    with (multipart.CRLF +:+ String "013" (String "010" rest)).
  rewrite (readContinuedLineSlice_field "C" _ "m" "013") by done.
  change (String.eqb (String "C" ?x) "") with false. cbv iota.
  change (Cut ":" (String "C" ("ontent-Type: application/octet-strea" +:+ String "m" "")))
    with ("Content-Type", Some " application/octet-stream").
  cbv iota beta.
  change (textproto.canonicalMIMEHeaderKey "Content-Type") with (Some "Content-Type").
  change (forallb_string textproto.validHeaderValueByte " application/octet-stream") with true.
  cbn [negb]. cbv zeta.
  change (textproto.TrimLeft textproto.is_blank " application/octet-stream")
    with "application/octet-stream".
  rewrite lookup_insert_ne by done. rewrite lookup_empty. cbn [default app].
  rewrite fields_S.
  change (String "013" (String "010" rest)) with (multipart.CRLF +:+ rest).
  by rewrite readContinuedLineSlice_end.
Qed.

End PartHeaders.

Section PartsOfABody.
Import bytes.

(** *** From one part to the next *)

Lemma nextLine_S fuel boundary r expectNewPart :
  multipart_reader.nextLine (S fuel) boundary r expectNewPart
  = match Cut textproto.LF (multipart_reader.input r) with
    | (line, None) =>
        if multipart_reader.isFinalBoundary boundary (multipart_reader.nl r) line
        then multipart_reader.next_EOF else multipart_reader.next_error
    | (line, Some rest) =>
        let line := line +:+ String textproto.LF EmptyString in
        let '(delimiter, nl') := multipart_reader.isBoundaryDelimiterLine boundary r line in
        if delimiter then
          multipart_reader.newPart boundary
            {| multipart_reader.input := rest; multipart_reader.nl := nl';
               multipart_reader.partsRead := S (multipart_reader.partsRead r) |}
        else if multipart_reader.isFinalBoundary boundary (multipart_reader.nl r) line
        then multipart_reader.next_EOF
        else if expectNewPart then multipart_reader.next_error
        else
          let r' := {| multipart_reader.input := rest;
                       multipart_reader.nl := multipart_reader.nl r;
                       multipart_reader.partsRead := multipart_reader.partsRead r |} in
          if Nat.eqb (multipart_reader.partsRead r) 0
          then multipart_reader.nextLine fuel boundary r' false
          else if String.eqb line (multipart_reader.nl r)
               then multipart_reader.nextLine fuel boundary r' true
               else multipart_reader.next_error
    end.
Proof. reflexivity. Qed.

(** The line of a delimiter is cut off at its line feed. *)
Lemma Cut_boundary_line boundary dashes rest :
  forallb_string is_alnum boundary = true →
  forallb_string (λ c, negb (Ascii.eqb c "010")) dashes = true →
  Cut textproto.LF (("--" +:+ boundary) +:+ dashes +:+ multipart.CRLF +:+ rest)
  = ((("--" +:+ boundary) +:+ dashes) +:+ String "013" "", Some rest).
Proof.
  intros Hb Hd.
  assert (("--" +:+ boundary) +:+ dashes +:+ multipart.CRLF +:+ rest
          = ((("--" +:+ boundary) +:+ dashes) +:+ String "013" "")
            +:+ String "010" rest) as ->.
  { by rewrite !app_assoc_s. }
  apply Cut_app_sep. rewrite !forallb_string_app. cbn [forallb_string].
  by rewrite (alnum_not_LF _ Hb), Hd.
Qed.

Lemma isBoundaryDelimiterLine_delimiter boundary i k :
  multipart_reader.isBoundaryDelimiterLine boundary
    {| multipart_reader.input := i; multipart_reader.nl := multipart.CRLF;
       multipart_reader.partsRead := k |}
    (("--" +:+ boundary) +:+ multipart.CRLF)
  = (true, multipart.CRLF).
Proof.
  unfold multipart_reader.isBoundaryDelimiterLine. rewrite strip_prefix_app.
  cbn [multipart_reader.partsRead multipart_reader.nl].
  change (multipart_reader.skipLWSPChar multipart.CRLF) with multipart.CRLF.
  cbv zeta.
  change (String.eqb multipart.CRLF (String textproto.LF "")) with false.
  by rewrite andb_false_r.
Qed.

Lemma isBoundaryDelimiterLine_closing boundary i k :
  multipart_reader.isBoundaryDelimiterLine boundary
    {| multipart_reader.input := i; multipart_reader.nl := multipart.CRLF;
       multipart_reader.partsRead := k |}
    (("--" +:+ boundary) +:+ "--" +:+ multipart.CRLF)
  = (false, multipart.CRLF).
Proof.
  unfold multipart_reader.isBoundaryDelimiterLine. rewrite strip_prefix_app.
  cbn [multipart_reader.partsRead multipart_reader.nl].
  change (multipart_reader.skipLWSPChar ("--" +:+ multipart.CRLF))
    with ("--" +:+ multipart.CRLF).
  cbv zeta.
  change (String.eqb ("--" +:+ multipart.CRLF) (String textproto.LF "")) with false.
  by rewrite andb_false_r.
Qed.

Lemma isFinalBoundary_closing boundary :
  multipart_reader.isFinalBoundary boundary multipart.CRLF
    (("--" +:+ boundary) +:+ "--" +:+ multipart.CRLF)
  = true.
Proof.
  unfold multipart_reader.isFinalBoundary.
  assert (("--" +:+ boundary) +:+ "--" +:+ multipart.CRLF
          = ("--" +:+ boundary +:+ "--") +:+ multipart.CRLF) as ->.
  { by rewrite !app_assoc_s. }
  by rewrite strip_prefix_app.
Qed.

(** A delimiter line opens a part. *)
Lemma nextLine_delimiter fuel boundary k rest expectNewPart :
  forallb_string is_alnum boundary = true →
  multipart_reader.nextLine (S fuel) boundary
    {| multipart_reader.input := ("--" +:+ boundary) +:+ multipart.CRLF +:+ rest;
       multipart_reader.nl := multipart.CRLF; multipart_reader.partsRead := k |}
    expectNewPart
  = multipart_reader.newPart boundary
      {| multipart_reader.input := rest; multipart_reader.nl := multipart.CRLF;
         multipart_reader.partsRead := S k |}.
Proof.
  intros Hb. rewrite nextLine_S. cbn [multipart_reader.input multipart_reader.nl].
  change (("--" +:+ boundary) +:+ multipart.CRLF +:+ rest)
    with (("--" +:+ boundary) +:+ "" +:+ multipart.CRLF +:+ rest).
  rewrite (Cut_boundary_line boundary "" rest Hb eq_refl).
  cbv zeta.
  assert (((("--" +:+ boundary) +:+ "") +:+ String "013" "") +:+ String textproto.LF ""
          = ("--" +:+ boundary) +:+ multipart.CRLF) as ->.
  { by rewrite !app_assoc_s. }
  by rewrite isBoundaryDelimiterLine_delimiter.
Qed.

(** The closing delimiter ends the body. *)
Lemma nextLine_closing fuel boundary k expectNewPart :
  forallb_string is_alnum boundary = true →
  multipart_reader.nextLine (S fuel) boundary
    {| multipart_reader.input := ("--" +:+ boundary) +:+ "--" +:+ multipart.CRLF;
       multipart_reader.nl := multipart.CRLF; multipart_reader.partsRead := k |}
    expectNewPart
  = multipart_reader.next_EOF.
Proof.
  intros Hb. rewrite nextLine_S. cbn [multipart_reader.input multipart_reader.nl].
  change (("--" +:+ boundary) +:+ "--" +:+ multipart.CRLF)
    with (("--" +:+ boundary) +:+ "--" +:+ multipart.CRLF +:+ "").
  rewrite (Cut_boundary_line boundary "--" "" Hb eq_refl).
  cbv zeta.
  assert (((("--" +:+ boundary) +:+ "--") +:+ String "013" "") +:+ String textproto.LF ""
          = ("--" +:+ boundary) +:+ "--" +:+ multipart.CRLF) as ->.
  { by rewrite !app_assoc_s. }
  by rewrite isBoundaryDelimiterLine_closing, isFinalBoundary_closing.
Qed.

(** The line end after the content of a part, or before the first one. *)
Lemma nextLine_line_end fuel boundary k rest :
  multipart_reader.nextLine (S fuel) boundary
    {| multipart_reader.input := multipart.CRLF +:+ rest;
       multipart_reader.nl := multipart.CRLF; multipart_reader.partsRead := k |}
    false
  = multipart_reader.nextLine fuel boundary
      {| multipart_reader.input := rest; multipart_reader.nl := multipart.CRLF;
         multipart_reader.partsRead := k |}
      (negb (Nat.eqb k 0)).
Proof.
  rewrite nextLine_S. cbn [multipart_reader.input multipart_reader.nl].
  change (Cut textproto.LF (multipart.CRLF +:+ rest)) with (String "013" "", Some rest).
  cbv iota beta zeta.
  change (multipart_reader.isBoundaryDelimiterLine boundary _ (String "013" "" +:+ String textproto.LF ""))
    with (false, multipart.CRLF).
  cbv iota beta.
  change (multipart_reader.isFinalBoundary boundary multipart.CRLF
            (String "013" "" +:+ String textproto.LF "")) with false.
  cbv iota. cbn [multipart_reader.partsRead].
  by destruct (Nat.eqb k 0).
Qed.

End PartsOfABody.

Section FormsReadBack.
Import bytes.

(** *** A part and what follows it *)

Lemma part_header_app name rest :
  part_header name +:+ rest
  = "Content-Disposition: " +:+ multipart.FileContentDisposition name name
    +:+ multipart.CRLF +:+ "Content-Type: application/octet-stream"
    +:+ multipart.CRLF +:+ multipart.CRLF +:+ rest.
Proof. unfold part_header. by rewrite !app_assoc_s. Qed.

Lemma newPart_form_file boundary name data t k :
  forallb_string printable name = true →
  forallb_string is_alnum boundary = true →
  free_of_boundary boundary data = true →
  multipart_reader.matchAfterPrefix t = true →
  multipart_reader.newPart boundary
    {| multipart_reader.input := part_header name +:+ data +:+ delimiter boundary +:+ t;
       multipart_reader.nl := multipart.CRLF; multipart_reader.partsRead := k |}
  = multipart_reader.next_part
      {| multipart_reader.Header := form_file_header name name;
         multipart_reader.Data := data |}
      {| multipart_reader.input := delimiter boundary +:+ t;
         multipart_reader.nl := multipart.CRLF; multipart_reader.partsRead := k |}.
Proof.
  intros Hname Hb Hdata Ht. unfold multipart_reader.newPart.
  cbn [multipart_reader.input multipart_reader.nl multipart_reader.partsRead].
  rewrite part_header_app, (ReadMIMEHeader_form_file _ _ _ Hname Hname).
  by rewrite (content_read _ _ _ Hb Hdata Ht).
Qed.

(** What follows the content of a part starts with a delimiter, and goes
    on with a line end or two dashes. *)
Lemma after_a_part boundary entries :
  ∃ t, parts_bytes boundary false entries +:+ delimiter boundary +:+ "--" +:+ multipart.CRLF
       = delimiter boundary +:+ t
       ∧ multipart_reader.matchAfterPrefix t = true.
Proof.
  destruct entries as [|entry entries].
  - by exists ("--" +:+ multipart.CRLF).
  - eexists. cbn [parts_bytes]. rewrite !app_assoc_s. split; [reflexivity|done].
Qed.

Lemma delimiter_app boundary t :
  delimiter boundary +:+ t = multipart.CRLF +:+ ("--" +:+ boundary) +:+ t.
Proof. reflexivity. Qed.

Lemma parts_S fuel boundary r :
  multipart_reader.parts (S fuel) boundary r
  = match multipart_reader.NextPart boundary r with
    | multipart_reader.next_part p r' =>
        (λ ps, p :: ps) <$> multipart_reader.parts fuel boundary r'
    | multipart_reader.next_EOF => Some []
    | multipart_reader.next_error => None
    end.
Proof. reflexivity. Qed.

Lemma NextPart_nonempty boundary r :
  boundary ≠ "" →
  multipart_reader.NextPart boundary r
  = multipart_reader.nextLine (S (String.length (multipart_reader.input r))) boundary r false.
Proof.
  intros Hne. unfold multipart_reader.NextPart.
  by destruct (String.eqb_spec boundary "").
Qed.

(** [NextPart] at the three places of a body where it is called. *)
Lemma NextPart_first_delimiter boundary rest k :
  boundary ≠ "" → forallb_string is_alnum boundary = true →
  multipart_reader.NextPart boundary
    {| multipart_reader.input := ("--" +:+ boundary) +:+ multipart.CRLF +:+ rest;
       multipart_reader.nl := multipart.CRLF; multipart_reader.partsRead := k |}
  = multipart_reader.newPart boundary
      {| multipart_reader.input := rest; multipart_reader.nl := multipart.CRLF;
         multipart_reader.partsRead := S k |}.
Proof.
  intros Hne Hb. rewrite (NextPart_nonempty _ _ Hne). by apply nextLine_delimiter.
Qed.

Lemma NextPart_delimiter boundary rest k :
  boundary ≠ "" → forallb_string is_alnum boundary = true →
  multipart_reader.NextPart boundary
    {| multipart_reader.input := delimiter boundary +:+ multipart.CRLF +:+ rest;
       multipart_reader.nl := multipart.CRLF; multipart_reader.partsRead := k |}
  = multipart_reader.newPart boundary
      {| multipart_reader.input := rest; multipart_reader.nl := multipart.CRLF;
         multipart_reader.partsRead := S k |}.
Proof.
  intros Hne Hb. rewrite (NextPart_nonempty _ _ Hne). cbn [multipart_reader.input].
  change (String.length (delimiter boundary +:+ multipart.CRLF +:+ rest))
    with (S (S (String.length (("--" +:+ boundary) +:+ multipart.CRLF +:+ rest)))).
  change (delimiter boundary +:+ multipart.CRLF +:+ rest)
    with (multipart.CRLF +:+ ("--" +:+ boundary) +:+ multipart.CRLF +:+ rest).
  rewrite nextLine_line_end. by apply nextLine_delimiter.
Qed.

Lemma NextPart_closing boundary k :
  boundary ≠ "" → forallb_string is_alnum boundary = true →
  multipart_reader.NextPart boundary
    {| multipart_reader.input := delimiter boundary +:+ "--" +:+ multipart.CRLF;
       multipart_reader.nl := multipart.CRLF; multipart_reader.partsRead := k |}
  = multipart_reader.next_EOF.
Proof.
  intros Hne Hb. rewrite (NextPart_nonempty _ _ Hne). cbn [multipart_reader.input].
  change (String.length (delimiter boundary +:+ "--" +:+ multipart.CRLF))
    with (S (S (String.length (("--" +:+ boundary) +:+ "--" +:+ multipart.CRLF)))).
  change (delimiter boundary +:+ "--" +:+ multipart.CRLF)
    with (multipart.CRLF +:+ ("--" +:+ boundary) +:+ "--" +:+ multipart.CRLF).
  rewrite nextLine_line_end. by apply nextLine_closing.
Qed.

(** After the first part: the parts that are left, then the end. *)
Lemma parts_after_the_first boundary entries :
  boundary ≠ "" → forallb_string is_alnum boundary = true →
  Forall (λ entry, forallb_string printable entry.1 = true
                   ∧ free_of_boundary boundary entry.2 = true) entries →
  ∀ fuel k, (List.length entries < fuel)%nat →
  multipart_reader.parts fuel boundary
    {| multipart_reader.input :=
         parts_bytes boundary false entries +:+ delimiter boundary +:+ "--" +:+ multipart.CRLF;
       multipart_reader.nl := multipart.CRLF; multipart_reader.partsRead := k |}
  = Some (part_read <$> entries).
Proof.
  intros Hne Hb. induction 1 as [|entry entries [Hname Hdata] _ IH]; intros fuel k Hfuel.
  - destruct fuel as [|fuel]; [cbn in Hfuel; lia|].
    rewrite parts_S. cbn [parts_bytes].
    change ("" +:+ delimiter boundary +:+ "--" +:+ multipart.CRLF)
      with (delimiter boundary +:+ "--" +:+ multipart.CRLF).
    by rewrite (NextPart_closing _ _ Hne Hb).
  - destruct fuel as [|fuel]; [cbn in Hfuel; lia|].
    rewrite parts_S. cbn [parts_bytes]. rewrite !app_assoc_s.
    rewrite (NextPart_delimiter _ _ _ Hne Hb).
    destruct (after_a_part boundary entries) as (t & Ht & Hmatch).
    rewrite Ht, (newPart_form_file _ _ _ _ _ Hname Hb Hdata Hmatch), <-Ht.
    rewrite IH; [done|]. cbn [List.length] in Hfuel. lia.
Qed.

(** A closed form from its first byte. *)
Lemma parts_of_a_form boundary entries fuel :
  boundary ≠ "" → forallb_string is_alnum boundary = true →
  Forall (λ entry, forallb_string printable entry.1 = true
                   ∧ free_of_boundary boundary entry.2 = true) entries →
  (List.length entries < fuel)%nat →
  multipart_reader.parts fuel boundary
    (multipart_reader.NewReader (upload_bytes boundary entries))
  = Some (part_read <$> entries).
Proof.
  intros Hne Hb Hentries Hfuel. unfold multipart_reader.NewReader, upload_bytes.
  destruct Hentries as [|entry entries [Hname Hdata] Hentries].
  - by apply (parts_after_the_first boundary [] Hne Hb).
  - destruct fuel as [|fuel]; [cbn in Hfuel; lia|].
    rewrite parts_S. cbn [parts_bytes]. rewrite !app_assoc_s.
    change ("--" +:+ boundary +:+ ?x) with (("--" +:+ boundary) +:+ x).
    rewrite (NextPart_first_delimiter _ _ _ Hne Hb).
    destruct (after_a_part boundary entries) as (t & Ht & Hmatch).
    rewrite Ht, (newPart_form_file _ _ _ _ _ Hname Hb Hdata Hmatch), <-Ht.
    rewrite (parts_after_the_first _ _ Hne Hb Hentries); [done|].
    cbn [List.length] in Hfuel. lia.
Qed.

Lemma parts_bytes_length boundary first entries :
  (List.length entries ≤ String.length (parts_bytes boundary first entries))%nat.
Proof.
  revert first. induction entries as [|entry entries IH]; intros first; [done|].
  cbn [parts_bytes List.length]. rewrite !length_app_s. specialize (IH false).
  change (String.length multipart.CRLF) with 2. lia.
Qed.

Lemma FormName_part_read entry :
  forallb_string printable entry.1 = true →
  multipart_reader.FormName (part_read entry) = entry.1.
Proof.
  intros Hname. unfold multipart_reader.FormName, part_read, form_file_header, textproto.Get.
  cbn [multipart_reader.Header].
  rewrite lookup_insert_ne by done. rewrite lookup_insert_eq.
  rewrite (ParseMediaType_FileContentDisposition _ _ Hname Hname).
  change (String.eqb "form-data" "form-data") with true. cbv iota.
  rewrite lookup_insert_ne by done. by rewrite lookup_insert_eq.
Qed.

Lemma filename_part_read entry :
  forallb_string printable entry.1 = true →
  multipart_reader.filename (part_read entry) = entry.1.
Proof.
  intros Hname. unfold multipart_reader.filename, part_read, form_file_header, textproto.Get.
  cbn [multipart_reader.Header].
  rewrite lookup_insert_ne by done. rewrite lookup_insert_eq.
  rewrite (ParseMediaType_FileContentDisposition _ _ Hname Hname).
  by rewrite lookup_insert_eq.
Qed.

(** A reader of a closed form gets every entry back, in order, under its
    logical name as form name and as file name, with its content. *)
Lemma uploads_read_upload_bytes boundary entries :
  plain_boundary boundary = true →
  entries_legible boundary entries →
  uploads_read boundary (upload_bytes boundary entries)
  = Some ((λ entry, (entry.1, entry.1, entry.2)) <$> entries).
Proof.
  intros Hplain Hentries. unfold plain_boundary in Hplain.
  apply andb_prop in Hplain as [[Hne Hb]%andb_prop _].
  apply negb_true_iff in Hne. apply String.eqb_neq in Hne.
  assert (Forall (λ entry, forallb_string printable entry.1 = true
                           ∧ free_of_boundary boundary entry.2 = true) entries) as Hok.
  { eapply Forall_impl; [exact Hentries|]. intros entry [Hn Hd]. split; [|done].
    unfold upload_name in Hn. by apply andb_prop in Hn as [[? _]%andb_prop _]. }
  unfold uploads_read, multipart_reader.ReadAll.
  rewrite (parts_of_a_form _ _ _ Hne Hb Hok).
  - f_equal. rewrite <-list_fmap_compose. apply Forall_fmap_ext_1.
    eapply Forall_impl; [exact Hok|]. intros entry [Hn _]. cbn.
    by rewrite FormName_part_read, filename_part_read.
  - unfold upload_bytes. rewrite length_app_s.
    pose proof (parts_bytes_length boundary true entries). lia.
Qed.

End FormsReadBack.

Section FormsWritten.
Context (env : Env).
Import bytes.

(** *** What the loops of [HTTPUpload] write *)

Lemma add_entries_nil writer : add_entries [] writer = writer.
Proof. destruct writer. unfold add_entries. cbn. by rewrite append_nil_r. Qed.

Lemma add_entries_cons entry entries writer :
  add_entries entries (add_entries [entry] writer) = add_entries (entry :: entries) writer.
Proof.
  unfold add_entries.
  cbn [multipart.boundary multipart.written multipart.lastpart parts_bytes negb].
  f_equal; [|by destruct entries].
  by rewrite append_nil_r, !app_assoc_s.
Qed.

Lemma add_entries_app entries1 entries2 writer :
  add_entries entries2 (add_entries entries1 writer) = add_entries (entries1 ++ entries2) writer.
Proof.
  revert writer. induction entries1 as [|entry entries1 IH]; intros writer.
  - by rewrite add_entries_nil.
  - by rewrite <-add_entries_cons, IH, <-app_comm_cons, add_entries_cons.
Qed.

Lemma addFileToMultipart_ok fileName writer reader :
  failure reader = None →
  addFileToMultipart env fileName writer reader
  = (add_entries [(fileName, content reader)] writer, None).
Proof.
  intros Hok.
  unfold addFileToMultipart, multipart.CreateFormFile, multipart.CreatePart, io_Copy,
    multipart.Write, add_entries.
  cbn [multipart.boundary multipart.written multipart.lastpart foldr parts_bytes fst snd].
  rewrite Hok. do 2 f_equal. unfold part_header, delimiter.
  rewrite !append_nil_r. destruct (multipart.lastpart writer); cbn [negb].
  - rewrite !app_assoc_s. reflexivity.
  - rewrite !app_assoc_s. reflexivity.
Qed.

Lemma for_range_files (l : list (string * string)) writer :
  Forall (λ kv, is_Some (file_content env kv.2)) l →
  for_range
    (λ fileName filePath writer,
       match os_Open env filePath with
       | Err err => (writer, Some (errors_Wrap err (ErrReadFile env filePath)))
       | Ok file => addFileToMultipart env fileName writer file
       end) l writer
  = (add_entries ((λ kv, (kv.1, default "" (file_content env kv.2))) <$> l) writer, None).
Proof.
  intros Hl. revert writer. induction Hl as [|[n p] l [data Hdata] _ IH]; intros writer.
  - by rewrite add_entries_nil.
  - cbn [for_range]. cbn [snd] in Hdata. unfold file_content in Hdata.
    rewrite fmap_cons. cbn [fst snd]. unfold file_content at 1.
    destruct (os_Open env p) as [file|]; [|done].
    destruct (failure file) eqn:Hfail; [done|]. injection Hdata as <-.
    rewrite addFileToMultipart_ok by done. rewrite IH. cbn [default].
    by rewrite add_entries_cons.
Qed.

Lemma for_range_bytes (l : list (string * string)) writer :
  for_range
    (λ fileName fileBytes writer,
       addFileToMultipart env fileName writer (bytes_NewReader fileBytes)) l writer
  = (add_entries l writer, None).
Proof.
  revert writer. induction l as [|[n b] l IH]; intros writer.
  - by rewrite add_entries_nil.
  - cbn [for_range]. rewrite addFileToMultipart_ok by done. rewrite IH.
    by rewrite add_entries_cons.
Qed.

(** An unquoted boundary in the content type. *)
Lemma FormDataContentType_alnum writer :
  forallb_string is_alnum (multipart.boundary writer) = true →
  multipart.FormDataContentType writer
  = "multipart/form-data; boundary=" +:+ multipart.boundary writer.
Proof.
  intros Hb. unfold multipart.FormDataContentType. cbv zeta.
  match goal with |- context [forallb_string ?q _] =>
    assert (forallb_string q (multipart.boundary writer) = true) as ->; [|done];
    revert Hb; apply forallb_string_impl end.
  intros c. by each_byte c.
Qed.

(** The request [HTTPUpload] sends when every file can be read. *)
Lemma HTTPUpload_sent endpoint input qParams w :
  (∀ fileName filePath, FilePaths input !! fileName = Some filePath →
     is_Some (file_content env filePath)) →
  url_Parse_error env (CortexURL (getValidCliConfig env) +:+ endpoint) = None →
  ∃ writer req,
    multipart.boundary writer = randomBoundary env
    ∧ multipart.Writer_bytes writer
      = upload_bytes (randomBoundary env) (upload_entries env input)
    ∧ operatorRequest env "POST" endpoint (Some (http.payload_multipart writer)) qParams
      = Ok req
    ∧ HTTPUpload env endpoint input qParams w
      = makeRequest env
          (http.Request_set_Header
             (http.Header_Set "Content-Type"
                (multipart.FormDataContentType writer) (http.req_Header req))
             req) w.
Proof.
  intros Hfiles Hurl. unfold HTTPUpload. rewrite for_range_files.
  2:{ apply Forall_forall. intros [n p] Hin. cbn [snd]. apply (Hfiles n).
      by apply (range_elem_of env). }
  rewrite for_range_bytes, add_entries_app. fold (upload_entries env input).
  cbn [multipart.Close].
  match goal with |- context [operatorRequest env "POST" endpoint (Some (http.payload_multipart ?wr)) qParams] =>
    destruct (operatorRequest_POST env endpoint (Some (http.payload_multipart wr)) qParams Hurl)
      as [req Hreq]; exists wr, req end.
  rewrite Hreq. split; [done|]. split; [|done].
  unfold multipart.Writer_bytes, add_entries, multipart.NewWriter, upload_bytes.
  cbn [multipart.boundary multipart.written multipart.lastpart negb].
  by rewrite !app_assoc_s.
Qed.

End FormsWritten.

Section UploadsReadBack.
Context (env : Env).
Import bytes.

(** *** The request of an upload *)

(** The request [HTTPUpload] sends when every file can be read, the bytes
    of its body and what a reader finds in them. *)
Lemma HTTPUpload_read_back endpoint input qParams w :
  (∀ fileName filePath, FilePaths input !! fileName = Some filePath →
     is_Some (file_content env filePath)) →
  url_Parse_error env (CortexURL (getValidCliConfig env) +:+ endpoint) = None →
  plain_boundary (randomBoundary env) = true →
  entries_legible (randomBoundary env) (upload_entries env input) →
  ∃ request body,
    emitted (HTTPUpload env endpoint input qParams w).2 = emitted w ++ [emit_request request]
    ∧ http.req_Method request = "POST"
    ∧ http.req_Body request = Some body
    ∧ http.req_Header request !! "Content-Type"
      = Some ["multipart/form-data; boundary=" +:+ randomBoundary env]
    ∧ http.Payload_bytes body = upload_bytes (randomBoundary env) (upload_entries env input)
    ∧ uploads_read (randomBoundary env) (http.Payload_bytes body)
      = Some ((λ entry, (entry.1, entry.1, entry.2)) <$> upload_entries env input).
Proof.
  intros Hfiles Hurl Hplain Hentries.
  destruct (HTTPUpload_sent env endpoint input qParams w Hfiles Hurl)
    as (writer & req & Hboundary & Hbytes & Hreq & ->).
  rewrite (operatorRequest_built env "POST" endpoint _ qParams eq_refl Hurl) in Hreq.
  injection Hreq as <-.
  rewrite FormDataContentType_alnum, Hboundary.
  2:{ rewrite Hboundary. unfold plain_boundary in Hplain.
      by apply andb_prop in Hplain as [[_ ?]%andb_prop _]. }
  eexists _, (http.payload_multipart writer).
  split; [apply makeRequest_emitted|].
  split; [done|]. split; [done|]. split; [done|].
  cbn [http.Payload_bytes]. rewrite Hbytes. split; [done|].
  by apply uploads_read_upload_bytes.
Qed.

Lemma filter_fmap_named {A B : Type} (h : A → B) (key : B → string) (key' : A → string)
    (l : list A) name :
  (∀ a, key (h a) = key' a) →
  filter (λ b, key b = name) (h <$> l) = h <$> filter (λ a, key' a = name) l.
Proof.
  intros Hkey. induction l as [|a l IH]; [done|].
  rewrite fmap_cons. destruct (decide (key' a = name)) as [Ha|Ha].
  - rewrite !filter_cons_True by (by rewrite ?Hkey). by rewrite fmap_cons, IH.
  - rewrite !filter_cons_False by (by rewrite ?Hkey). done.
Qed.

Lemma filter_range_None {A : Type} (l : list (string * A)) name :
  name ∉ l.*1 → filter (λ kv, kv.1 = name) l = [].
Proof.
  induction l as [|[k x] l IH]; intros Hk; [done|].
  rewrite fmap_cons in Hk. apply not_elem_of_cons in Hk as [Hne Hk]. cbn [fst] in Hne.
  rewrite filter_cons_False by (cbn; congruence). by apply IH.
Qed.

(** Among the entries of a map, one has a given name of the map. *)
Lemma filter_range {A : Type} (m : gmap string A) name :
  filter (λ kv, kv.1 = name) (range env m)
  = match m !! name with Some v => [(name, v)] | None => [] end.
Proof.
  pose proof (range_NoDup env m) as Hnd.
  assert (∀ v, (name, v) ∈ range env m ↔ m !! name = Some v) as Hin.
  { intros v. apply range_elem_of. }
  revert Hnd Hin. generalize (range env m). intros l Hnd Hin.
  destruct (m !! name) as [v|].
  - assert ((name, v) ∈ l) as Hv by (by apply Hin). clear Hin.
    induction l as [|[k x] l IH]; [by apply elem_of_nil in Hv|].
    rewrite fmap_cons in Hnd. apply NoDup_cons in Hnd as [Hk Hnd]. cbn [fst] in Hk.
    apply elem_of_cons in Hv as [[= <- <-]|Hv].
    + rewrite filter_cons_True by done. f_equal. by apply filter_range_None.
    + assert (k ≠ name) as Hne.
      { intros ->. apply Hk. apply list_elem_of_fmap. by exists (name, v). }
      rewrite filter_cons_False by (cbn; congruence). by apply IH.
  - apply filter_range_None. intros Hel.
    apply list_elem_of_fmap in Hel as [[k v] [-> Hel]]. cbn [fst] in Hin.
    by apply Hin in Hel.
Qed.

(** The entries of an upload under a name: the file, then the buffer. *)
Lemma filter_upload_entries input name :
  filter (λ entry, entry.1 = name) (upload_entries env input)
  = match FilePaths input !! name with
    | Some filePath => [(name, default "" (file_content env filePath))]
    | None => []
    end
    ++ match Bytes input !! name with
       | Some fileBytes => [(name, fileBytes)]
       | None => []
       end.
Proof.
  unfold upload_entries. rewrite filter_app. f_equal.
  - rewrite (filter_fmap_named _ fst fst) by done. rewrite filter_range.
    by destruct (FilePaths input !! name).
  - apply filter_range.
Qed.

(** C6, as amended.  For an upload spec with one file-path entry and one
    in-memory entry, a file that can be read and a URL that can be built,
    when the two logical names are upload names (printable, not empty, at
    most 255 bytes) and neither content holds the boundary after two
    dashes: [HTTPUpload] hands to the network a [POST] that announces the
    boundary and whose body is the closed form of the two entries, the
    one of the file first; a reader of that body finds exactly two parts,
    the first with the name of the file as form name and as file name and
    the content of the file, the second with the name of the buffer and
    its bytes, both untouched. *)
Theorem C6_upload_of_one_file_and_one_buffer endpoint qParams w fileName filePath data
    memName memBytes :
  file_content env filePath = Some data →
  url_Parse_error env (CortexURL (getValidCliConfig env) +:+ endpoint) = None →
  plain_boundary (randomBoundary env) = true →
  upload_name fileName = true → upload_name memName = true →
  free_of_boundary (randomBoundary env) data = true →
  free_of_boundary (randomBoundary env) memBytes = true →
  let input := {| FilePaths := {[ fileName := filePath ]};
                  Bytes := {[ memName := memBytes ]} |} in
  ∃ request body,
    emitted (HTTPUpload env endpoint input qParams w).2 = emitted w ++ [emit_request request]
    ∧ http.req_Method request = "POST"
    ∧ http.req_Body request = Some body
    ∧ http.req_Header request !! "Content-Type"
      = Some ["multipart/form-data; boundary=" +:+ randomBoundary env]
    ∧ http.Payload_bytes body
      = upload_bytes (randomBoundary env) [(fileName, data); (memName, memBytes)]
    ∧ uploads_read (randomBoundary env) (http.Payload_bytes body)
      = Some [(fileName, fileName, data); (memName, memName, memBytes)].
Proof.
  intros Hdata Hurl Hplain HfileName HmemName Hfree Hfree' input.
  assert (upload_entries env input = [(fileName, data); (memName, memBytes)]) as Hentries.
  { unfold upload_entries, input. cbn [FilePaths Bytes]. rewrite !range_singleton.
    cbn [fmap list_fmap fst snd app]. by rewrite Hdata. }
  destruct (HTTPUpload_read_back endpoint input qParams w)
    as (request & body & Hemit & Hmethod & Hbody & Htype & Hbytes & Hread); [|done|done|..].
  { intros n p Hn. cbn [FilePaths input] in Hn.
    apply lookup_singleton_Some in Hn as [_ <-]. by rewrite Hdata. }
  { rewrite Hentries. by repeat constructor. }
  rewrite Hentries in Hbytes, Hread. by exists request, body.
Qed.

(** C7, as amended.  For an upload spec whose two mappings both have the
    logical name [name], whose files can all be read and whose URL can be
    built, when the logical names are upload names and no content holds
    the boundary after two dashes: a reader of the body [HTTPUpload]
    sends finds two parts under that name, first the one with the content
    of the file, then the one with the in-memory bytes.  Nothing is
    overwritten. *)
Theorem C7_colliding_names_give_two_parts endpoint input qParams w name filePath data
    memBytes :
  FilePaths input !! name = Some filePath → Bytes input !! name = Some memBytes →
  file_content env filePath = Some data →
  (∀ fileName other, FilePaths input !! fileName = Some other →
     is_Some (file_content env other)) →
  url_Parse_error env (CortexURL (getValidCliConfig env) +:+ endpoint) = None →
  plain_boundary (randomBoundary env) = true →
  entries_legible (randomBoundary env) (upload_entries env input) →
  ∃ request body read,
    emitted (HTTPUpload env endpoint input qParams w).2 = emitted w ++ [emit_request request]
    ∧ http.req_Body request = Some body
    ∧ uploads_read (randomBoundary env) (http.Payload_bytes body) = Some read
    ∧ filter (λ part, part.1.1 = name) read = [(name, name, data); (name, name, memBytes)].
Proof.
  intros Hfile Hmem Hdata Hfiles Hurl Hplain Hentries.
  destruct (HTTPUpload_read_back endpoint input qParams w Hfiles Hurl Hplain Hentries)
    as (request & body & Hemit & _ & Hbody & _ & _ & Hread).
  eexists request, body, _. split; [exact Hemit|]. split; [exact Hbody|].
  split; [exact Hread|].
  rewrite (filter_fmap_named _ (λ part, part.1.1) fst) by done.
  by rewrite filter_upload_entries, Hfile, Hmem, Hdata.
Qed.

End UploadsReadBack.

(** C6, as amended, at the one file of the example and a two-byte buffer. *)
Lemma C6_upload_of_one_file_and_one_buffer_witness :
  ∃ request body,
    emitted (HTTPUpload example.env "/deploy"
               {| FilePaths := {[ "app.yaml" := "/tmp/app.yaml" ]};
                  Bytes := {[ "project.zip" := "PK" ]} |} [] example.world).2
    = [emit_request request]
    ∧ http.req_Body request = Some body
    ∧ uploads_read "4b1d0c5e" (http.Payload_bytes body)
      = Some [("app.yaml", "app.yaml", "kind: app"); ("project.zip", "project.zip", "PK")].
Proof.
  destruct (C6_upload_of_one_file_and_one_buffer example.env "/deploy" [] example.world
              "app.yaml" "/tmp/app.yaml" "kind: app" "project.zip" "PK"
              eq_refl eq_refl eq_refl eq_refl eq_refl eq_refl eq_refl)
    as (request & body & Hemit & _ & Hbody & _ & _ & Hread).
  exists request, body. split; [exact Hemit|]. split; [exact Hbody|exact Hread].
Defined.

(** Against C6 as stated: a logical name with a line end in it.  The
    writer puts [%0D%0A] for the line end, so the reader of the body
    finds the part of the file under another name, and no part under the
    logical name. *)
Lemma C6_counterexample :
  let name := "app" +:+ multipart.CRLF +:+ "yaml" in
  let input := {| FilePaths := {[ name := "/tmp/app.yaml" ]};
                  Bytes := {[ "project.zip" := "PK" ]} |} in
  let body :=
    http.payload_multipart
      {| multipart.boundary := "4b1d0c5e";
         multipart.written :=
           upload_bytes "4b1d0c5e" [(name, "kind: app"); ("project.zip", "PK")];
         multipart.lastpart := false |} in
  let request :=
    with_client_headers example.env
      {| http.req_Method := "POST";
         http.req_URL := url.split_url "http://operator.example:8888/deploy";
         http.req_Header := {[ "Content-Type" := ["multipart/form-data; boundary=4b1d0c5e"] ]};
         http.req_Body := Some body |} in
  let read := [("app%0D%0Ayaml", "app%0D%0Ayaml", "kind: app");
               ("project.zip", "project.zip", "PK")] in
  emitted (HTTPUpload example.env "/deploy" input [] example.world).2
  = [emit_request request]
  ∧ uploads_read "4b1d0c5e" (http.Payload_bytes body) = Some read
  ∧ filter (λ part, part.1.1 = name) read = [].
Proof.
  cbv zeta. split; [vm_compute; reflexivity|]. split; vm_compute; reflexivity.
Qed.

(** C7, as amended, at the name [f] in both mappings. *)
Lemma C7_colliding_names_give_two_parts_witness :
  ∃ request body read,
    emitted (HTTPUpload example.env "/deploy"
               {| FilePaths := {[ "f" := "/tmp/app.yaml" ]}; Bytes := {[ "f" := "PK" ]} |}
               [] example.world).2
    = [emit_request request]
    ∧ http.req_Body request = Some body
    ∧ uploads_read "4b1d0c5e" (http.Payload_bytes body) = Some read
    ∧ filter (λ part, part.1.1 = "f") read = [("f", "f", "kind: app"); ("f", "f", "PK")].
Proof.
  apply (C7_colliding_names_give_two_parts example.env "/deploy"
           {| FilePaths := {[ "f" := "/tmp/app.yaml" ]}; Bytes := {[ "f" := "PK" ]} |}
           [] example.world "f" "/tmp/app.yaml" "kind: app" "PK").
  - reflexivity.
  - reflexivity.
  - reflexivity.
  - intros fileName other Hl. cbn [FilePaths] in Hl.
    apply lookup_singleton_Some in Hl as [_ <-]. by eexists.
  - reflexivity.
  - reflexivity.
  - unfold entries_legible, upload_entries. cbn [FilePaths Bytes].
    rewrite !range_singleton. repeat constructor.
Defined.

(** Against C7 as stated: with the name [f] in both mappings a reader of
    the body sent finds two parts named [f], the content of the file and
    the in-memory bytes, not a single part with the later content. *)
Lemma C7_counterexample :
  let input := {| FilePaths := {[ "f" := "/tmp/app.yaml" ]}; Bytes := {[ "f" := "PK" ]} |} in
  let body :=
    http.payload_multipart
      {| multipart.boundary := "4b1d0c5e";
         multipart.written := upload_bytes "4b1d0c5e" [("f", "kind: app"); ("f", "PK")];
         multipart.lastpart := false |} in
  let request :=
    with_client_headers example.env
      {| http.req_Method := "POST";
         http.req_URL := url.split_url "http://operator.example:8888/deploy";
         http.req_Header := {[ "Content-Type" := ["multipart/form-data; boundary=4b1d0c5e"] ]};
         http.req_Body := Some body |} in
  let read := [("f", "f", "kind: app"); ("f", "f", "PK")] in
  emitted (HTTPUpload example.env "/deploy" input [] example.world).2
  = [emit_request request]
  ∧ uploads_read "4b1d0c5e" (http.Payload_bytes body) = Some read
  ∧ filter (λ part, part.1.1 = "f") read = read
  ∧ ¬ ∃ part, filter (λ part, part.1.1 = "f") read = [part].
Proof.
  cbv zeta. split; [vm_compute; reflexivity|]. split; [vm_compute; reflexivity|].
  split; [vm_compute; reflexivity|].
  intros [part Hpart]. vm_compute in Hpart. discriminate Hpart.
Qed.

(** ** Log frames and the completion marker *)

Section LogFrames.
Import bytes.

Lemma consumed_app a b : regexp.consumed (a +:+ b) b = a.
Proof.
  unfold regexp.consumed. rewrite length_app_s.
  replace (String.length a + String.length b - String.length b) with (String.length a) by lia.
  apply substring_prefix.
Qed.

(** [c+] when the continuation accepts whatever the longest run leaves. *)
Lemma plus_loop_greedy {R : Type} class s (k : string → option R) :
  (∀ t, is_Some (k t)) →
  regexp.plus_loop class s k
  = if String.eqb (bytes.span class s).1 "" then None else k (bytes.span class s).2.
Proof.
  intros Hk. induction s as [|c s IH]; cbn; [done|].
  destruct (class c); [|done]. rewrite IH.
  destruct (bytes.span class s) as [w t] eqn:Hspan. cbn.
  destruct (String.eqb_spec w "") as [->|Hw].
  - pose proof (span_empty class s) as He. rewrite Hspan in He. cbn in He.
    by rewrite He.
  - by destruct (Hk t) as [r ->].
Qed.

(** [c+] when the continuation refuses every text that begins with a
    byte of the class: no shorter run can be taken instead. *)
Lemma plus_loop_delimited {R : Type} class s (k : string → option R) :
  (∀ c t, class c = true → k (String c t) = None) →
  regexp.plus_loop class s k
  = if String.eqb (bytes.span class s).1 "" then None else k (bytes.span class s).2.
Proof.
  intros Hk. induction s as [|c s IH]; cbn; [done|].
  destruct (class c) eqn:Hc; [|done]. rewrite IH.
  pose proof (span_app class s) as Happ. pose proof (span_forallb class s) as Hall.
  destruct (bytes.span class s) as [w t] eqn:Hspan. cbn in *.
  destruct (String.eqb_spec w "") as [->|Hw].
  - cbn in Happ. by subst.
  - destruct (k t) as [r|] eqn:Hkt; [done|].
    destruct w as [|a w]; [done|]. cbn in Hall. apply andb_prop in Hall as [Ha _].
    subst s. cbn. by apply Hk.
Qed.

Lemma find_from_unfold r input s :
  regexp.find_from r input s
  = match regexp.run r input s (replicate (S (regexp.NumSubexp r)) "")
            (λ s' caps, Some (<[0%nat := regexp.consumed s s']> caps)) with
    | Some m => Some m
    | None => match s with
              | String _ s' => regexp.find_from r input s'
              | EmptyString => None
              end
    end.
Proof. by destruct s. Qed.

Lemma run_lastLogRe_Bol {R : Type} input s caps (k : string → list string → option R) :
  String.length s ≠ String.length input → regexp.run lastLogRe input s caps k = None.
Proof.
  intros Hne. unfold lastLogRe. cbn [regexp.run].
  apply Nat.eqb_neq in Hne. by rewrite Hne.
Qed.

Lemma find_from_lastLogRe_later input s :
  String.length s < String.length input → regexp.find_from lastLogRe input s = None.
Proof.
  induction s as [|c s IH]; intros Hlen; rewrite find_from_unfold;
    rewrite run_lastLogRe_Bol by lia; [done|].
  apply IH. cbn in Hlen. lia.
Qed.

Lemma word_not_comma c : regexp.word c = true → Ascii.eqb "," c = false.
Proof. destruct (Ascii.eqb_spec "," c) as [<-|]; [discriminate|done]. Qed.

(** The pattern of [lastLogRe] finds what [completion_marker] reads off. *)
Lemma FindStringSubmatch_lastLogRe msgStr :
  regexp.FindStringSubmatch lastLogRe msgStr
  = match completion_marker msgStr with
    | Some (identifier, timestamp) =>
        Some ["workload: " +:+ identifier +:+ ", completed: " +:+ timestamp;
              identifier; timestamp]
    | None => None
    end.
Proof.
  unfold regexp.FindStringSubmatch. rewrite find_from_unfold.
  assert (match msgStr with
          | String _ s' => regexp.find_from lastLogRe msgStr s'
          | EmptyString => None
          end = None) as ->.
  { destruct msgStr as [|c s]; [done|]. apply find_from_lastLogRe_later. cbn. lia. }
  unfold completion_marker, lastLogRe. cbn [regexp.run regexp.NumSubexp Nat.max replicate].
  rewrite Nat.eqb_refl.
  destruct (strip_prefix "workload: " msgStr) as [s1|] eqn:Hs1; [|done].
  apply strip_prefix_Some in Hs1.
  rewrite plus_loop_delimited.
  2:{ intros c t Hc. cbn [strip_prefix]. by rewrite (word_not_comma c Hc). }
  pose proof (span_app regexp.word s1) as Happ1.
  destruct (bytes.span regexp.word s1) as [identifier s2]. cbn [fst snd] in *.
  destruct (String.eqb identifier ""); [done|].
  destruct (strip_prefix ", completed: " s2) as [s3|] eqn:Hs3; [|done].
  apply strip_prefix_Some in Hs3.
  rewrite plus_loop_greedy by (intros t; by eexists).
  pose proof (span_app regexp.non_space s3) as Happ3.
  destruct (bytes.span regexp.non_space s3) as [timestamp rest]. cbn [fst snd] in *.
  destruct (String.eqb timestamp ""); [done|].
  subst s3 s2 s1 msgStr.
  rewrite !consumed_app.
  replace ("workload: " +:+ identifier +:+ ", completed: " +:+ timestamp +:+ rest)
    with (("workload: " +:+ identifier +:+ ", completed: " +:+ timestamp) +:+ rest).
  2:{ by rewrite !app_assoc_s. }
  rewrite consumed_app. done.
Qed.

Lemma MatchString_lastLogRe msgStr :
  regexp.MatchString lastLogRe msgStr = bool_decide (is_Some (completion_marker msgStr)).
Proof.
  unfold regexp.MatchString. rewrite FindStringSubmatch_lastLogRe.
  destruct (completion_marker msgStr) as [[identifier timestamp]|].
  - rewrite !bool_decide_eq_true_2; [done|by eexists|by eexists].
  - rewrite !bool_decide_eq_false_2; [done|by intros [? ?]|by intros [? ?]].
Qed.

(** What [completion_marker] accepts: the marker, with the longest runs
    for the identifier and the timestamp, and anything after it. *)
Lemma completion_marker_Some msgStr identifier timestamp :
  completion_marker msgStr = Some (identifier, timestamp) ↔
  ∃ rest,
    msgStr = "workload: " +:+ identifier +:+ ", completed: " +:+ timestamp +:+ rest
    ∧ identifier ≠ "" ∧ forallb_string regexp.word identifier = true
    ∧ timestamp ≠ "" ∧ forallb_string regexp.non_space timestamp = true
    ∧ (∀ c t, rest = String c t → regexp.non_space c = false).
Proof.
  unfold completion_marker. split.
  - destruct (strip_prefix "workload: " msgStr) as [s1|] eqn:Hs1; [|done].
    apply strip_prefix_Some in Hs1.
    pose proof (span_app regexp.word s1) as Happ1.
    pose proof (span_forallb regexp.word s1) as Hall1.
    destruct (bytes.span regexp.word s1) as [id s2]. cbn [fst snd] in *.
    destruct (String.eqb_spec id ""); [done|].
    destruct (strip_prefix ", completed: " s2) as [s3|] eqn:Hs3; [|done].
    apply strip_prefix_Some in Hs3.
    pose proof (span_app regexp.non_space s3) as Happ3.
    pose proof (span_forallb regexp.non_space s3) as Hall3.
    pose proof (span_rest regexp.non_space s3) as Hrest3.
    destruct (bytes.span regexp.non_space s3) as [ts rest]. cbn [fst snd] in *.
    destruct (String.eqb_spec ts ""); [done|].
    intros [= <- <-]. exists rest. subst. done.
  - intros (rest & -> & Hid & Hword & Hts & Hns & Hrest).
    rewrite strip_prefix_app.
    rewrite (span_maximal regexp.word identifier _ Hword).
    2:{ intros c t [= <- _]. done. }
    apply String.eqb_neq in Hid. rewrite Hid.
    rewrite strip_prefix_app.
    rewrite (span_maximal regexp.non_space timestamp rest Hns Hrest).
    apply String.eqb_neq in Hts. by rewrite Hts.
Qed.

End LogFrames.

(** ** What the reader prints for a frame *)

Section Frames.
Context (env : Env).

(** C4.  For every frame [msgStr] received, [lastLogRe] matches exactly
    when the frame begins with the marker
    [workload: <identifier>, completed: <timestamp>], and
    - if it does and the timestamp parses as RFC 3339, the turn prints,
      after an empty line, the line [Completed on] followed by
      the local rendering of the timestamp, and the loop goes on;
    - if it does and the timestamp does not parse, the turn prints the
      frame as it is, and the loop goes on;
    - if it does not, the turn prints the frame as it is. *)
Theorem C4_completion_marker_frames msgStr out :
  regexp.MatchString lastLogRe msgStr = bool_decide (is_Some (completion_marker msgStr))
  ∧ (∀ identifier timestamp parsed,
       completion_marker msgStr = Some (identifier, timestamp) →
       time_Parse_RFC3339 env timestamp = Ok parsed →
       handleConnection_turn env (Ok msgStr) out
       = reader_continue
           (fmt_Println (LF +:+ "Completed on " +:+ LocalTimestampHuman env parsed) out))
  ∧ (∀ identifier timestamp err,
       completion_marker msgStr = Some (identifier, timestamp) →
       time_Parse_RFC3339 env timestamp = Err err →
       handleConnection_turn env (Ok msgStr) out = reader_continue (fmt_Println msgStr out))
  ∧ (completion_marker msgStr = None →
       handleConnection_turn env (Ok msgStr) out = reader_continue (fmt_Println msgStr out)).
Proof.
  split; [apply MatchString_lastLogRe|].
  assert (∀ a b c : string, default "" (default [] (Some [a; b; c]) !! 2%nat) = c) as Hidx
    by reflexivity.
  unfold handleConnection_turn.
  rewrite MatchString_lastLogRe, FindStringSubmatch_lastLogRe.
  repeat split.
  - intros identifier timestamp parsed -> Hparse.
    rewrite bool_decide_eq_true_2 by (by eexists). rewrite Hidx.
    by rewrite Hparse.
  - intros identifier timestamp err -> Hparse.
    rewrite bool_decide_eq_true_2 by (by eexists). rewrite Hidx.
    by rewrite Hparse.
  - intros ->. by rewrite bool_decide_eq_false_2 by (by intros [? ?]).
Qed.

End Frames.

(** C4 at a marker with a timestamp, a marker without one, and a plain
    frame, with the clock of the example set to UTC. *)
Lemma C4_completion_marker_frames_witness :
  handleConnection_turn example.env (Ok "workload: job1, completed: 2024-01-01T00:00:00Z") ""
  = reader_continue (LF +:+ "Completed on 2024-01-01 00:00:00 UTC" +:+ LF)
  ∧ handleConnection_turn example.env (Ok "workload: job1, completed: not-a-time") ""
    = reader_continue ("workload: job1, completed: not-a-time" +:+ LF)
  ∧ handleConnection_turn example.env (Ok "starting workload job1") ""
    = reader_continue ("starting workload job1" +:+ LF).
Proof.
  split; [|split].
  - destruct (C4_completion_marker_frames example.env
                "workload: job1, completed: 2024-01-01T00:00:00Z" "") as (_ & H & _).
    apply (H "job1" "2024-01-01T00:00:00Z"
             {| unix_seconds := 1704067200; nanoseconds := 0; zone_offset := 0 |}).
    + vm_compute. reflexivity.
    + vm_compute. reflexivity.
  - destruct (C4_completion_marker_frames example.env
                "workload: job1, completed: not-a-time" "") as (_ & _ & H & _).
    apply (H "job1" "not-a-time" (errors_New "parsing time")).
    + vm_compute. reflexivity.
    + vm_compute. reflexivity.
  - destruct (C4_completion_marker_frames example.env "starting workload job1" "")
      as (_ & _ & _ & H).
    apply H. vm_compute. reflexivity.
Defined.

(** ** The log stream session *)

Section Sessions.
Context (env : Env).

(** The reading loop has no way out but [os.Exit]. *)
Lemma handleConnection_turn_never_returns read out :
  handleConnection_turn env read out ≠ reader_return.
Proof.
  unfold handleConnection_turn. destruct read as [message|err]; [|done].
  destruct (regexp.MatchString _ _); [|done]. by destruct (time_Parse_RFC3339 _ _).
Qed.

(** A failed read ends the process with status 1. *)
Lemma handleConnection_turn_error err out :
  handleConnection_turn env (Err err) out = reader_exit 1.
Proof. reflexivity. Qed.

Lemma session_invariant_start connection : session_invariant (Session_start connection).
Proof. by unfold session_invariant. Qed.

Lemma session_invariant_step s s' :
  session_invariant s → step env s s' → session_invariant s'.
Proof.
  intros (Hdone & Hreader & Hrun & Hret) Hstep. destruct Hstep as [s s' H|s s' H|s s' H].
  - unfold deliver_interrupt in H. destruct (exited s); [done|]. injection H as <-.
    by unfold session_invariant.
  - unfold handleConnection_step in H.
    destruct (exited s); [done|]. rewrite Hreader in H.
    destruct (incoming s) as [|read rest]; [done|].
    pose proof (handleConnection_turn_never_returns read (stdout s)) as Hnever.
    destruct (handleConnection_turn env read (stdout s)); [| |done];
      injection H as <-; by unfold session_invariant.
  - unfold closeConnection_select in H. destruct (exited s); [by apply elem_of_nil in H|].
    destruct (coordinator s) eqn:Hc; [|by apply elem_of_nil in H].
    rewrite Hdone in H. cbn [app] in H.
    destruct (interrupt_queued s); [|by apply elem_of_nil in H].
    apply list_elem_of_singleton in H. subst s'. unfold session_invariant. cbn.
    rewrite (Hrun eq_refl). done.
Qed.

(** The invariant holds in every state a session reaches. *)
Lemma session_invariant_reachable connection s :
  reachable env (Session_start connection) s → session_invariant s.
Proof.
  revert s. apply rtc_ind_r.
  - apply session_invariant_start.
  - intros s1 s2 _ Hstep IH. by apply (session_invariant_step s1).
Qed.

(** C3, as amended.  In every state a log stream session can reach:
    - nothing has closed [done], the completion signal of the reader;
    - if [closeConnection] has returned, it has written the normal-closure
      close frame, and nothing else;
    - if the process has not exited and [closeConnection] is waiting, an
      interrupt delivered now makes its [select] take the interrupt case,
      and no other: the close frame is written and [closeConnection]
      returns, the process still running;
    - if the process has not exited and the next read fails (the server
      closed the stream), the reading goroutine ends the process with
      status 1, [done] stays open and [closeConnection] has not moved. *)
Theorem C3_session_ends_by_interrupt_or_exit connection s :
  reachable env (Session_start connection) s →
  done_closed s = false
  ∧ (coordinator s = goroutine_returned → written s = [normal_closure_frame])
  ∧ (exited s = None → coordinator s = goroutine_running →
       ∃ s1 s2,
         deliver_interrupt s = Some s1 ∧ closeConnection_select s1 = [s2]
         ∧ written s2 = [normal_closure_frame]
         ∧ coordinator s2 = goroutine_returned ∧ exited s2 = None)
  ∧ (∀ err rest, exited s = None → incoming s = Err err :: rest →
       ∃ s', handleConnection_step env s = Some s'
             ∧ exited s' = Some 1%Z ∧ done_closed s' = false
             ∧ coordinator s' = coordinator s ∧ written s' = written s).
Proof.
  intros Hreach. destruct (session_invariant_reachable _ _ Hreach) as (Hdone & Hreader & Hrun & Hret).
  split; [done|]. split; [done|]. split.
  - intros Halive Hwait. unfold deliver_interrupt. rewrite Halive.
    eexists _, _. split; [reflexivity|].
    unfold closeConnection_select.
    cbn [exited coordinator done_closed interrupt_queued written incoming stdout reader].
    rewrite Hwait, Hdone. cbn [app].
    split; [reflexivity|].
    cbn [exited coordinator done_closed interrupt_queued written incoming stdout reader].
    by rewrite (Hrun Hwait).
  - intros err rest Halive Hin. unfold handleConnection_step.
    rewrite Halive, Hreader, Hin. eexists. split; [reflexivity|].
    rewrite handleConnection_turn_error.
    cbn [exited coordinator done_closed interrupt_queued written incoming stdout reader].
    done.
Qed.

End Sessions.

(** C3 at a session that receives one frame and then a failed read. *)
Lemma C3_session_ends_by_interrupt_or_exit_witness :
  let s1 :=
    {| incoming := [Err (errors_New "EOF")]; written := []; done_closed := false;
       interrupt_queued := false; stdout := "starting" +:+ LF;
       reader := goroutine_running; coordinator := goroutine_running; exited := None |} in
  handleConnection_step example.env (Session_start [Ok "starting"; Err (errors_New "EOF")])
  = Some s1
  ∧ done_closed s1 = false
  ∧ ∃ s2, handleConnection_step example.env s1 = Some s2 ∧ exited s2 = Some 1%Z.
Proof.
  intros s1.
  assert (handleConnection_step example.env
            (Session_start [Ok "starting"; Err (errors_New "EOF")]) = Some s1) as Hstep.
  { vm_compute. reflexivity. }
  split; [exact Hstep|].
  destruct (C3_session_ends_by_interrupt_or_exit example.env
              [Ok "starting"; Err (errors_New "EOF")] s1
              (rtc_once _ _ (step_reader example.env _ s1 Hstep)))
    as (Hdone & _ & _ & Hexit).
  split; [exact Hdone|].
  destruct (Hexit (errors_New "EOF") [] eq_refl eq_refl) as (s2 & Hstep2 & Hexited & _).
  exists s2. by split.
Defined.

(** Against C3 as stated: when the server closes the stream and no
    interrupt arrives, the failed read ends the process with status 1, and
    no run of the session reaches a state where it has returned without
    writing the close frame, that is, through the reader's completion
    signal alone. *)
Lemma C3_counterexample :
  let closed_by_server := Session_start [Err (errors_New "websocket: close 1000 (normal)")] in
  let after_read :=
    {| incoming := []; written := []; done_closed := false; interrupt_queued := false;
       stdout := ""; reader := goroutine_running; coordinator := goroutine_running;
       exited := Some 1%Z |} in
  handleConnection_step example.env closed_by_server = Some after_read
  ∧ ¬ (∃ s, reachable example.env closed_by_server s
            ∧ coordinator s = goroutine_returned ∧ written s = []).
Proof.
  cbv zeta. split; [reflexivity|].
  intros (s & Hreach & Hret & Hwritten).
  destruct (session_invariant_reachable _ _ _ Hreach) as (_ & _ & _ & Hframe).
  rewrite (Hframe Hret) in Hwritten. discriminate Hwritten.
Qed.

(** ** The delete endpoint *)

Section DeleteEndpoint.

(** C9.  For every [Delete] request that has its [appName]: if
    [workloads.DeleteApp] reports that the application was not deployed,
    the handler answers with the error [ErrAppNotDeployed(appName)] and
    nothing else; if it reports that it was, the handler answers with the
    fixed message [ResDeploymentDeleted] and nothing else. *)
Theorem C9_Delete_responses (op : endpoints.OperatorEnv) w r cluster appName :
  endpoints.getRequiredQParam op "appName" r = Ok appName →
  let keepCache := endpoints.getOptionalBoolQParam op "keepCache" false r in
  let wasDeployed := (endpoints.workloads_DeleteApp op appName keepCache cluster).1 in
  (wasDeployed = false →
     (endpoints.Delete op w r cluster).1
     = w ++ [endpoints.responded_error (errors_New (endpoints.ErrAppNotDeployed op appName))])
  ∧ (wasDeployed = true →
       (endpoints.Delete op w r cluster).1
       = w ++ [endpoints.responded
                 {| endpoints.Message := endpoints.ResDeploymentDeleted op |}]).
Proof.
  intros Hparam keepCache wasDeployed. subst wasDeployed keepCache.
  unfold endpoints.Delete. rewrite Hparam. cbn [endpoints.RespondIfError].
  destruct (endpoints.workloads_DeleteApp op appName _ cluster) as [wasDeployed cluster'].
  cbn [fst]. split; intros ->; reflexivity.
Qed.

(** C9 at [appName=foo], on a cluster without and with the application. *)
Lemma C9_Delete_responses_witness :
  (endpoints.Delete example.operator_env [] (example.delete_request "appName=foo") ∅).1
  = [endpoints.responded_error (errors_New "app foo is not deployed")]
  ∧ (endpoints.Delete example.operator_env [] (example.delete_request "appName=foo")
       {[ "foo" ]}).1
    = [endpoints.responded {| endpoints.Message := "deployment deleted" |}].
Proof.
  split.
  - destruct (C9_Delete_responses example.operator_env []
                (example.delete_request "appName=foo") (∅ : gset string) "foo"
                ltac:(vm_compute; reflexivity)) as [H _].
    apply H. vm_compute; reflexivity.
  - destruct (C9_Delete_responses example.operator_env []
                (example.delete_request "appName=foo") ({[ "foo" ]} : gset string) "foo"
                ltac:(vm_compute; reflexivity)) as [_ H].
    apply H. vm_compute; reflexivity.
Defined.

End DeleteEndpoint.

(** * Further properties of the client and of the endpoint *)

(** ** The response unifier, further *)

Section MakeRequestMore.
Context (env : Env).

(** X1.  [makeRequest] returns bytes only when the operator answered with
    status 200 and the body was read to its end: the bytes returned are
    then that body.  A refusal, a failed connection or a failed read never
    comes back as a result. *)
Theorem makeRequest_returns_bytes_only_for_200 request w bodyBytes :
  (makeRequest env request w).1 = Ok bodyBytes →
  ∃ response,
    httpClient_Do env (with_client_headers env request) = Ok response
    ∧ http.StatusCode response = 200%Z
    ∧ ioutil_ReadAll (http.resp_Body response) = (bodyBytes, None).
Proof.
  unfold makeRequest. fold (with_client_headers env request).
  destruct (httpClient_Do env _) as [response|err]; [|done].
  destruct (Z.eqb_spec (http.StatusCode response) 200) as [Hs|Hs]; cbn [negb].
  - destruct (ioutil_ReadAll _) as [body [e|]] eqn:Hread; [done|].
    intros [= ->]. by exists response.
  - destruct (ioutil_ReadAll _) as [body [e|]]; [done|].
    destruct (json.Unmarshal _ _) as [output err]. by destruct (_ || _).
Qed.

(** X2.  The error [makeRequest] returns for an answer whose status is
    not 200 and whose body is not empty has a message that is not empty:
    the fall back on the raw body leaves no refusal without a text. *)
Theorem makeRequest_refusal_message_not_empty request w response bodyBytes :
  httpClient_Do env (with_client_headers env request) = Ok response →
  http.StatusCode response ≠ 200%Z →
  ioutil_ReadAll (http.resp_Body response) = (bodyBytes, None) →
  bodyBytes ≠ "" →
  ∃ msg, (makeRequest env request w).1 = Err (errors_New msg) ∧ msg ≠ "".
Proof.
  intros Hdo Hstatus Hread Hne. exists (unified_message bodyBytes).
  split; [by apply (makeRequest_refused env request w response)|].
  unfold unified_message. destruct (json.Unmarshal _ _) as [output err].
  destruct (bool_decide _); cbn [orb]; [done|].
  destruct (String.eqb_spec (json.Error output) ""); done.
Qed.

(** X3.  Whatever comes back, [makeRequest] hands the network exactly one
    request: the one it was given, with its method, URL and body as they
    were, with [Authorization] and [CortexAPIVersion] (stored under its
    canonical key [Cortexapiversion]) set to the client's values in place
    of any the caller had put there, and with every other header
    untouched. *)
Theorem makeRequest_sets_two_headers request w :
  ∃ sent,
    emitted (makeRequest env request w).2 = emitted w ++ [emit_request sent]
    ∧ http.req_Method sent = http.req_Method request
    ∧ http.req_URL sent = http.req_URL request
    ∧ http.req_Body sent = http.req_Body request
    ∧ http.req_Header sent !! "Authorization" = Some [authHeader env]
    ∧ http.req_Header sent !! "Cortexapiversion" = Some [CortexVersion env]
    ∧ ∀ key, key ≠ "Authorization" → key ≠ "Cortexapiversion" →
        http.req_Header sent !! key = http.req_Header request !! key.
Proof.
  exists (with_client_headers env request). split; [apply makeRequest_emitted|].
  unfold with_client_headers, http.Header_Set.
  cbn [http.req_Header http.req_Method http.req_URL http.req_Body http.Request_set_Header].
  change (http.CanonicalMIMEHeaderKey "Authorization") with "Authorization".
  change (http.CanonicalMIMEHeaderKey "CortexAPIVersion") with "Cortexapiversion".
  repeat split.
  - rewrite lookup_insert_ne by done. by rewrite lookup_insert_eq.
  - by rewrite lookup_insert_eq.
  - intros key H1 H2. by rewrite !lookup_insert_ne.
Qed.


(** X26.  The failures of [makeRequest] besides a refusal: when the
    request cannot be made, the error of [httpClient.Do] comes back wrapped
    with [ErrFailedToConnect] of the sanitized URL of the request; when
    the body cannot be read, the error of the read comes back wrapped with
    [ErrRead] if the status was 200, and a bare [ErrRead] without it if
    the status was another. *)
Theorem makeRequest_failures_name_their_cause request w :
  (∀ err,
     httpClient_Do env (with_client_headers env request) = Err err →
     (makeRequest env request w).1
     = Err (errors_Wrap err
              (ErrFailedToConnect env
                 (CleanURL env (url.URL_String (http.req_URL request))))))
  ∧ (∀ response bodyBytes err,
       httpClient_Do env (with_client_headers env request) = Ok response →
       ioutil_ReadAll (http.resp_Body response) = (bodyBytes, Some err) →
       (makeRequest env request w).1
       = if (http.StatusCode response =? 200)%Z
         then Err (errors_Wrap err (ErrRead env))
         else Err (errors_New (ErrRead env))).
Proof.
  split.
  - intros err Hdo. unfold makeRequest. fold (with_client_headers env request).
    by rewrite Hdo.
  - intros response bodyBytes err Hdo Hread. unfold makeRequest.
    fold (with_client_headers env request). rewrite Hdo.
    destruct (http.StatusCode response =? 200)%Z; cbn [negb]; by rewrite Hread.
Qed.

End MakeRequestMore.

(** X1 at the answer 200 of the example's operator. *)
Lemma makeRequest_returns_bytes_only_for_200_witness :
  ∃ response,
    httpClient_Do example.env (with_client_headers example.env (example.get "/resources"))
    = Ok response
    ∧ http.StatusCode response = 200%Z
    ∧ ioutil_ReadAll (http.resp_Body response) = ("{}", None).
Proof.
  assert ((makeRequest example.env (example.get "/resources") example.world).1 = Ok "{}")
    as Hok.
  { vm_compute. reflexivity. }
  exact (makeRequest_returns_bytes_only_for_200 example.env (example.get "/resources")
           example.world "{}" Hok).
Defined.

(** X2 at a gateway's answer 502 with a page as its body. *)
Lemma makeRequest_refusal_message_not_empty_witness :
  ∃ msg,
    (makeRequest example.env (example.get "/gateway") example.world).1
    = Err (errors_New msg)
    ∧ msg ≠ "".
Proof.
  pose (response :=
          {| http.StatusCode := 502;
             http.resp_Body := bytes_NewReader "<html>Bad Gateway</html>" |}).
  assert (httpClient_Do example.env (with_client_headers example.env (example.get "/gateway"))
          = Ok response) as Hdo.
  { vm_compute. reflexivity. }
  apply (makeRequest_refusal_message_not_empty example.env (example.get "/gateway")
           example.world response "<html>Bad Gateway</html>" Hdo);
    [discriminate|reflexivity|discriminate].
Defined.

(** X26 at an operator that is down. *)
Lemma makeRequest_failures_name_their_cause_witness :
  (makeRequest example.env (example.get "/down") example.world).1
  = Err (errors_Wrap (errors_New "dial tcp: connection refused")
           "failed to connect to http://operator.example:8888/down").
Proof.
  destruct (makeRequest_failures_name_their_cause example.env (example.get "/down")
              example.world) as [Hdown _].
  exact (Hdown (errors_New "dial tcp: connection refused") eq_refl).
Defined.

(** ** Error envelopes with more than one member *)

Section EnvelopesMore.
Context (env : Env).

Lemma decode_members_saved members output e :
  (foldl json.decode_member (output, Some e) members).2 = Some e.
Proof.
  revert output. induction members as [|[k v] members IH]; intros output; [done|].
  cbn [foldl]. unfold json.decode_member at 2. cbn [fst snd].
  destruct (json.key_matches "error" k); [|apply IH].
  destruct v; apply IH.
Qed.

(** A member named [error] whose value is neither a string nor [null]
    makes the decoding fail. *)
Lemma decode_members_type_error members output saved :
  Exists (λ kv, json.key_matches "error" kv.1 = true
                ∧ (∀ s, kv.2 ≠ json.Str s) ∧ kv.2 ≠ json.Null) members →
  (foldl json.decode_member (output, saved) members).2 ≠ None.
Proof.
  intros Hex. revert output saved.
  induction Hex as [[k v] members (Hk & Hstr & Hnull)|[k v] members _ IH];
    intros output saved.
  - cbn [foldl]. unfold json.decode_member at 2. cbn [fst snd] in *. rewrite Hk.
    destruct v; try (by destruct (Hstr s)); try done;
      (destruct saved; cbn [json.saveError]; by rewrite decode_members_saved).
  - cbn [foldl]. destruct (json.decode_member (output, saved) (k, v)). apply IH.
Qed.

(** Members that are not named [error], or are and hold [null], leave
    the decoded struct as it is. *)
Lemma decode_members_skipped members st :
  Forall (λ kv, json.key_matches "error" kv.1 = false ∨ kv.2 = json.Null) members →
  foldl json.decode_member st members = st.
Proof.
  intros Hall. induction members as [|[k v] members IH] using rev_ind; [done|].
  apply Forall_app in Hall as [Hall Hkv]. rewrite Forall_singleton in Hkv.
  rewrite foldl_snoc, (IH Hall). destruct st as [output saved]. unfold json.decode_member.
  cbn beta in Hkv. cbn [fst snd] in *.
  destruct Hkv as [Hk|Hv]; [by rewrite Hk|]. subst v. by destruct (json.key_matches _ _).
Qed.

(** Members each of which is not named [error] or holds a string or
    [null] are decoded without an error. *)
Lemma decode_members_well_typed members output :
  Forall (λ kv, json.key_matches "error" kv.1 = false
                ∨ (∃ s, kv.2 = json.Str s) ∨ kv.2 = json.Null) members →
  (foldl json.decode_member (output, None) members).2 = None.
Proof.
  intros Hall. induction members as [|[k v] members IH] using rev_ind; [done|].
  apply Forall_app in Hall as [Hall Hkv]. rewrite Forall_singleton in Hkv.
  specialize (IH Hall).
  rewrite foldl_snoc. destruct (foldl _ _ members) as [output' saved]. cbn [snd] in IH.
  subst saved. unfold json.decode_member. cbn beta in Hkv. cbn [fst snd] in *.
  destruct Hkv as [Hk|[[s Hv]|Hv]]; [by rewrite Hk| |]; subst v;
    by destruct (json.key_matches _ _).
Qed.

(** X4.  When the body of a refused request is a JSON object in which
    the names that match [error] (letter case apart) all hold strings or
    [null], [makeRequest] reports the string of the last such member that
    holds one, if it is not empty; members with other names are ignored. *)
Theorem makeRequest_takes_the_last_error_member request w response bodyBytes before key msg
    after :
  httpClient_Do env (with_client_headers env request) = Ok response →
  http.StatusCode response ≠ 200%Z →
  ioutil_ReadAll (http.resp_Body response) = (bodyBytes, None) →
  json.parse bodyBytes = Some (json.Object (before ++ (key, json.Str msg) :: after)) →
  json.key_matches "error" key = true →
  msg ≠ "" →
  Forall (λ kv, json.key_matches "error" kv.1 = false
                ∨ (∃ s, kv.2 = json.Str s) ∨ kv.2 = json.Null) before →
  Forall (λ kv, json.key_matches "error" kv.1 = false ∨ kv.2 = json.Null) after →
  (makeRequest env request w).1 = Err (errors_New msg).
Proof.
  intros Hdo Hstatus Hread Hparse Hkey Hmsg Hbefore Hafter.
  rewrite (makeRequest_refused env request w response bodyBytes Hdo Hstatus Hread).
  assert (json.Unmarshal bodyBytes {| json.Error := "" |} = ({| json.Error := msg |}, None))
    as Hdec.
  { unfold json.Unmarshal. rewrite Hparse. rewrite foldl_app. cbn [foldl].
    pose proof (decode_members_well_typed before {| json.Error := "" |} Hbefore) as Hok.
    destruct (foldl json.decode_member _ before) as [output saved]. cbn [snd] in Hok.
    subst saved. unfold json.decode_member at 2. cbn [fst snd]. rewrite Hkey.
    by apply decode_members_skipped. }
  rewrite unified_message_field; by rewrite Hdec.
Qed.

(** X5.  A refused request whose body is JSON but no envelope is
    reported by its raw body: so for a body that is [null], a boolean, a
    number, a string or an array, and for an object in which a member
    named [error] holds something else than a string or [null]. *)
Theorem makeRequest_gives_other_JSON_back_raw request w response bodyBytes v :
  httpClient_Do env (with_client_headers env request) = Ok response →
  http.StatusCode response ≠ 200%Z →
  ioutil_ReadAll (http.resp_Body response) = (bodyBytes, None) →
  json.parse bodyBytes = Some v →
  match v with
  | json.Object members =>
      Exists (λ kv, json.key_matches "error" kv.1 = true
                    ∧ (∀ s, kv.2 ≠ json.Str s) ∧ kv.2 ≠ json.Null) members
  | _ => True
  end →
  (makeRequest env request w).1 = Err (errors_New bodyBytes).
Proof.
  intros Hdo Hstatus Hread Hparse Hv.
  rewrite (makeRequest_refused env request w response bodyBytes Hdo Hstatus Hread).
  rewrite unified_message_raw; [done|].
  unfold json.Unmarshal. rewrite Hparse.
  destruct v; try (by left); try (by right).
  left. by apply decode_members_type_error.
Qed.

End EnvelopesMore.

(** X4 at a body with two members named [error], one of them in upper case, and a member of another name. *)
Lemma makeRequest_takes_the_last_error_member_witness :
  let body :=
    "{" +:+ json.string_literal "error"
              (":" +:+ json.string_literal "first"
                 ("," +:+ json.string_literal "Error"
                    (":" +:+ json.string_literal "second"
                       ("," +:+ json.string_literal "code" ":404}")))) in
  (makeRequest (example.answering 404 body) (example.get "/deploy") example.world).1
  = Err (errors_New "second").
Proof.
  intros body.
  pose (response := {| http.StatusCode := 404; http.resp_Body := bytes_NewReader body |}).
  assert (json.parse body
          = Some (json.Object
                    ([("error", json.Str "first")]
                     ++ ("Error", json.Str "second") :: [("code", json.Number "404")])))
    as Hparse.
  { vm_compute. reflexivity. }
  apply (makeRequest_takes_the_last_error_member (example.answering 404 body)
           (example.get "/deploy") example.world response body
           [("error", json.Str "first")] "Error" "second" [("code", json.Number "404")]
           eq_refl ltac:(discriminate) eq_refl Hparse eq_refl ltac:(discriminate)).
  - apply Forall_singleton. right. left. by exists "first".
  - apply Forall_singleton. by left.
Defined.

(** X5 at a body whose [error] member holds an object. *)
Lemma makeRequest_gives_other_JSON_back_raw_witness :
  let body := "{" +:+ json.string_literal "error" ":{}}" in
  (makeRequest (example.answering 500 body) (example.get "/deploy") example.world).1
  = Err (errors_New body).
Proof.
  intros body.
  pose (response := {| http.StatusCode := 500; http.resp_Body := bytes_NewReader body |}).
  assert (json.parse body = Some (json.Object [("error", json.Object [])])) as Hparse.
  { vm_compute. reflexivity. }
  apply (makeRequest_gives_other_JSON_back_raw (example.answering 500 body)
           (example.get "/deploy") example.world response body
           (json.Object [("error", json.Object [])])
           eq_refl ltac:(discriminate) eq_refl Hparse).
  apply Exists_cons_hd. split; [reflexivity|]. split; [intros s|]; discriminate.
Defined.

(** ** The requests of the entry points *)

Section EntryPoints.
Context (env : Env).

Lemma operatorRequest_rejected method endpoint body qParams err :
  validMethod method = true →
  url_Parse_error env (CortexURL (getValidCliConfig env) +:+ endpoint) = Some err →
  operatorRequest env method endpoint body qParams
  = Err (errors_Wrap err (ErrCantMakeRequest env)).
Proof.
  intros Hm Hurl. unfold operatorRequest, http_NewRequest.
  assert (String.eqb method "" = false) as ->.
  { unfold validMethod in Hm. by destruct (String.eqb method ""). }
  by rewrite Hm, Hurl.
Qed.

(** X6.  For a URL that parses, [HTTPGet] hands the network exactly one
    request: a [GET] without a body, with the two client headers and no
    other, on the URL made of the configured base and the endpoint, whose
    query string is the encoding of the endpoint's own parameters with the
    mappings written over them. *)
Theorem HTTPGet_sends_one_GET endpoint qParams w :
  let rawURL := CortexURL (getValidCliConfig env) +:+ endpoint in
  url_Parse_error env rawURL = None →
  ∃ sent,
    emitted (HTTPGet env endpoint qParams w).2 = emitted w ++ [emit_request sent]
    ∧ http.req_Method sent = "GET"
    ∧ http.req_Body sent = None
    ∧ http.req_Header sent
      = <["Cortexapiversion" := [CortexVersion env]]>
          (<["Authorization" := [authHeader env]]> ∅)
    ∧ url.Base (http.req_URL sent) = url.Base (url.split_url rawURL)
    ∧ url.Fragment (http.req_URL sent) = url.Fragment (url.split_url rawURL)
    ∧ url.RawQuery (http.req_URL sent)
      = url.Values_Encode (merged env (url.URL_Query (url.split_url rawURL)) qParams).
Proof.
  intros rawURL Hurl. unfold HTTPGet.
  rewrite (operatorRequest_built env "GET" endpoint None qParams eq_refl Hurl).
  eexists. split; [apply makeRequest_emitted|]. by repeat split.
Qed.

(** X7.  For a URL that parses, [HTTPPostJSON] hands the network exactly
    one request: a [POST] whose body is the bytes it was given, unchanged,
    with [Content-Type: application/json] beside the two client headers,
    and with the merged query string. *)
Theorem HTTPPostJSON_sends_the_bytes endpoint jsonRequestData qParams w :
  let rawURL := CortexURL (getValidCliConfig env) +:+ endpoint in
  url_Parse_error env rawURL = None →
  ∃ sent,
    emitted (HTTPPostJSON env endpoint jsonRequestData qParams w).2
    = emitted w ++ [emit_request sent]
    ∧ http.req_Method sent = "POST"
    ∧ http.Payload_bytes <$> http.req_Body sent = Some jsonRequestData
    ∧ http.req_Header sent
      = <["Cortexapiversion" := [CortexVersion env]]>
          (<["Authorization" := [authHeader env]]>
             (<["Content-Type" := ["application/json"]]> ∅))
    ∧ url.RawQuery (http.req_URL sent)
      = url.Values_Encode (merged env (url.URL_Query (url.split_url rawURL)) qParams).
Proof.
  intros rawURL Hurl. unfold HTTPPostJSON.
  rewrite (operatorRequest_built env "POST" endpoint _ qParams eq_refl Hurl).
  eexists. split; [apply makeRequest_emitted|]. by repeat split.
Qed.

(** X8.  [HTTPPostJSONData] posts what [json.Marshal] makes of the data:
    if marshalling fails it returns that error wrapped with
    [ErrMarshalJson] and sends nothing; otherwise it sends one [POST]
    whose body is the encoding, with [Content-Type: application/json]. *)
Theorem HTTPPostJSONData_sends_the_encoding {RequestData : Type}
    (json_Marshal : RequestData → result string) endpoint requestData qParams w :
  url_Parse_error env (CortexURL (getValidCliConfig env) +:+ endpoint) = None →
  match json_Marshal requestData with
  | Err err =>
      HTTPPostJSONData env json_Marshal endpoint requestData qParams w
      = (Err (errors_Wrap err (ErrMarshalJson env)), w)
  | Ok jsonRequestData =>
      ∃ sent,
        emitted (HTTPPostJSONData env json_Marshal endpoint requestData qParams w).2
        = emitted w ++ [emit_request sent]
        ∧ http.req_Method sent = "POST"
        ∧ http.Payload_bytes <$> http.req_Body sent = Some jsonRequestData
        ∧ http.req_Header sent !! "Content-Type" = Some ["application/json"]
  end.
Proof.
  intros Hurl. unfold HTTPPostJSONData.
  destruct (json_Marshal requestData) as [jsonRequestData|err]; [|done].
  unfold HTTPPostJSON.
  rewrite (operatorRequest_built env "POST" endpoint _ qParams eq_refl Hurl).
  eexists. split; [apply makeRequest_emitted|]. by repeat split.
Qed.

(** X9.  When the URL made of the configured base and the endpoint does
    not parse, nothing is sent: [HTTPGet] and [HTTPPostJSON] return the
    error of [url.Parse] wrapped with [ErrCantMakeRequest], and [HTTPUpload]
    returns an error too, the world being left as it was. *)
Theorem rejected_URL_sends_nothing endpoint qParams input jsonRequestData w err :
  url_Parse_error env (CortexURL (getValidCliConfig env) +:+ endpoint) = Some err →
  let failed := Err (errors_Wrap err (ErrCantMakeRequest env)) in
  HTTPGet env endpoint qParams w = (failed, w)
  ∧ HTTPPostJSON env endpoint jsonRequestData qParams w = (failed, w)
  ∧ (HTTPUpload env endpoint input qParams w).2 = w
  ∧ ∃ e, (HTTPUpload env endpoint input qParams w).1 = Err e.
Proof.
  intros Hurl failed. repeat split.
  - unfold HTTPGet. by rewrite (operatorRequest_rejected "GET" endpoint _ qParams err eq_refl Hurl).
  - unfold HTTPPostJSON.
    by rewrite (operatorRequest_rejected "POST" endpoint _ qParams err eq_refl Hurl).
  - unfold HTTPUpload.
    destruct (for_range _ _ _) as [writer [e|]]; [done|].
    destruct (for_range _ _ _) as [writer' [e|]]; [done|].
    cbn [multipart.Close].
    by rewrite (operatorRequest_rejected "POST" endpoint _ qParams err eq_refl Hurl).
  - unfold HTTPUpload.
    destruct (for_range _ _ _) as [writer [e|]]; [by eexists|].
    destruct (for_range _ _ _) as [writer' [e|]]; [by eexists|].
    cbn [multipart.Close].
    rewrite (operatorRequest_rejected "POST" endpoint _ qParams err eq_refl Hurl). by eexists.
Qed.

End EntryPoints.

(** X6 at an endpoint with a parameter of its own and one mapping. *)
Lemma HTTPGet_sends_one_GET_witness :
  ∃ sent,
    emitted (HTTPGet example.env "/resources?verbose=true" [{[ "appName" := "my app" ]}]
               example.world).2
    = [emit_request sent]
    ∧ http.req_Method sent = "GET"
    ∧ http.req_Body sent = None
    ∧ url.Base (http.req_URL sent) = "http://operator.example:8888/resources"
    ∧ url.RawQuery (http.req_URL sent) = "appName=my+app&verbose=true".
Proof.
  destruct (HTTPGet_sends_one_GET example.env "/resources?verbose=true"
              [{[ "appName" := "my app" ]}] example.world eq_refl)
    as (sent & Hemit & Hmethod & Hbody & _ & Hbase & _ & Hquery).
  exists sent. split; [exact Hemit|]. split; [exact Hmethod|]. split; [exact Hbody|].
  split; [exact Hbase|].
  assert (url.Values_Encode
            (merged example.env
               (url.URL_Query (url.split_url
                  (CortexURL (getValidCliConfig example.env) +:+ "/resources?verbose=true")))
               [{[ "appName" := "my app" ]}])
          = "appName=my+app&verbose=true") as Henc.
  { vm_compute. reflexivity. }
  exact (eq_trans Hquery Henc).
Defined.

(** X7 at an empty JSON object. *)
Lemma HTTPPostJSON_sends_the_bytes_witness :
  ∃ sent,
    emitted (HTTPPostJSON example.env "/deploy" "{}" [] example.world).2 = [emit_request sent]
    ∧ http.req_Method sent = "POST"
    ∧ http.Payload_bytes <$> http.req_Body sent = Some "{}".
Proof.
  destruct (HTTPPostJSON_sends_the_bytes example.env "/deploy" "{}" [] example.world eq_refl)
    as (sent & Hemit & Hmethod & Hbody & _).
  exists sent. split; [exact Hemit|]. split; [exact Hmethod|exact Hbody].
Defined.

(** X8 at a boolean, marshalled as JSON does. *)
Lemma HTTPPostJSONData_sends_the_encoding_witness :
  ∃ sent,
    emitted (HTTPPostJSONData example.env (λ force : bool, Ok (strconv_FormatBool force))
               "/deploy" true [] example.world).2
    = [emit_request sent]
    ∧ http.Payload_bytes <$> http.req_Body sent = Some "true"
    ∧ http.req_Header sent !! "Content-Type" = Some ["application/json"].
Proof.
  destruct (HTTPPostJSONData_sends_the_encoding example.env
              (λ force : bool, Ok (strconv_FormatBool force)) "/deploy" true [] example.world
              eq_refl)
    as (sent & Hemit & _ & Hbody & Htype).
  exists sent. split; [exact Hemit|]. split; [exact Hbody|exact Htype].
Defined.

(** X9 at an endpoint with a line feed in it. *)
Lemma rejected_URL_sends_nothing_witness :
  let endpoint := "/deploy" +:+ LF in
  let failed :=
    Err (errors_Wrap (errors_New "net/url: invalid control character in URL")
           "unable to make request") in
  HTTPGet example.env endpoint [] example.world = (failed, example.world)
  ∧ HTTPPostJSON example.env endpoint "{}" [] example.world = (failed, example.world).
Proof.
  intros endpoint failed.
  destruct (rejected_URL_sends_nothing example.env endpoint []
              {| FilePaths := ∅; Bytes := ∅ |} "{}" example.world
              (errors_New "net/url: invalid control character in URL") eq_refl)
    as (Hget & Hpost & _).
  split; [exact Hget|exact Hpost].
Defined.

(** ** The request builder, further *)

Section RequestBuilder.
Import bytes url.

(** X10.  The request [operatorRequest] builds does not depend on the
    order in which [range] visits the entries of a mapping: within one
    mapping the keys are distinct, and the query string is written with
    its keys sorted. *)
Theorem operatorRequest_independent_of_map_order (order : MapRange) env method endpoint body
    qParams :
  operatorRequest (Env_with_range order env) method endpoint body qParams
  = operatorRequest env method endpoint body qParams.
Proof.
  unfold operatorRequest. cbn [Env_with_range getValidCliConfig ErrCantMakeRequest].
  change (http_NewRequest (Env_with_range order env)) with (http_NewRequest env).
  destruct (http_NewRequest env _ _ _) as [req|err]; [|done].
  fold (merged (Env_with_range order env) (URL_Query (http.req_URL req)) qParams).
  fold (merged env (URL_Query (http.req_URL req)) qParams).
  by rewrite (merged_any_order _ env).
Qed.

Lemma QueryEscape_query_bytes s : forallb_string query_byte (QueryEscape s) = true.
Proof.
  induction s as [|c s IH]; [done|]. rewrite QueryEscape_cons.
  rewrite forallb_string_app, IH, andb_true_r.
  unfold escape_byte. each_byte c; vm_compute; reflexivity.
Qed.

Lemma encode_add_query_bytes (items : list string) buf :
  forallb_string query_byte buf = true →
  Forall (λ item, forallb_string query_byte item = true) items →
  forallb_string query_byte (foldl encode_add buf items) = true.
Proof.
  intros Hbuf Hitems. revert buf Hbuf.
  induction Hitems as [|item items Hitem _ IH]; intros buf Hbuf; [done|].
  cbn [foldl]. apply IH. unfold encode_add.
  destruct (String.eqb buf ""); rewrite ?forallb_string_app, ?Hbuf, ?Hitem; done.
Qed.

Lemma Values_Encode_query_bytes v : forallb_string query_byte (Values_Encode v) = true.
Proof.
  rewrite Values_Encode_flat. apply encode_add_query_bytes; [done|].
  apply Forall_fmap, Forall_forall. intros [k val] _. unfold encode_binding, encode_pair.
  cbn [fst snd compose]. by rewrite !forallb_string_app, !QueryEscape_query_bytes.
Qed.

(** X11.  The query string [operatorRequest] writes is made of letters,
    digits, [-], [_], [.], [~], the [%] and [+] of escapes and the
    separators [&] and [=] only, whatever bytes the keys and values of the
    mappings and of the endpoint hold: no space, control byte, [#], [?] or
    byte above 127 gets into the URL unescaped. *)
Theorem operatorRequest_query_is_escaped env method endpoint body qParams req :
  operatorRequest env method endpoint body qParams = Ok req →
  forallb_string query_byte (RawQuery (http.req_URL req)) = true.
Proof.
  unfold operatorRequest. destruct (http_NewRequest env _ _ _) as [req0|err]; [|done].
  intros [= <-]. cbn [http.req_URL http.Request_set_URL URL_set_RawQuery RawQuery].
  apply Values_Encode_query_bytes.
Qed.

End RequestBuilder.

(** X11 at a value with a space and an ampersand, and an endpoint with an escape in lower case. *)
Lemma operatorRequest_query_is_escaped_witness :
  let req :=
    {| http.req_Method := "GET";
       http.req_URL :=
         {| url.Base := "http://operator.example:8888/resources"; url.ForceQuery := false;
            url.RawQuery := "appName=my+app%26co&q=a%3Db"; url.Fragment := "" |};
       http.req_Header := ∅;
       http.req_Body := None |} in
  operatorRequest example.env "GET" "/resources?q=a%3db" None [{[ "appName" := "my app&co" ]}]
  = Ok req
  ∧ bytes.forallb_string query_byte (url.RawQuery (http.req_URL req)) = true.
Proof.
  intros req.
  assert (operatorRequest example.env "GET" "/resources?q=a%3db" None
            [{[ "appName" := "my app&co" ]}] = Ok req) as Hreq.
  { vm_compute. reflexivity. }
  split; [exact Hreq|].
  exact (operatorRequest_query_is_escaped example.env "GET" "/resources?q=a%3db" None
           [{[ "appName" := "my app&co" ]}] req Hreq).
Defined.

(** ** Uploads of any size *)

Section UploadsMore.
Context (env : Env).

Lemma length_range {A : Type} (m : gmap string A) : length (range env m) = size m.
Proof.
  unfold range. rewrite (range_map_perm (env_range env)). apply length_map_to_list.
Qed.

(** X12.  For an upload whose files can all be read and a URL that
    parses, when the logical names are upload names (printable, not
    empty, at most 255 bytes) and no content holds the boundary after two
    dashes: [HTTPUpload] sends one request whose body is the closed form
    of the entries of the two mappings, the files first, then the
    buffers; a reader of that body finds one part per entry, in that
    order, each under its logical name as form name and as file name and
    with the content of its source; the number of parts is the sum of the
    sizes of the mappings; and under a name there is the entry of the
    file of that name, if there is one, followed by the entry of the
    buffer of that name, if there is one. *)
Theorem HTTPUpload_one_part_per_entry endpoint input qParams w :
  (∀ fileName filePath, FilePaths input !! fileName = Some filePath →
     is_Some (file_content env filePath)) →
  url_Parse_error env (CortexURL (getValidCliConfig env) +:+ endpoint) = None →
  plain_boundary (randomBoundary env) = true →
  entries_legible (randomBoundary env) (upload_entries env input) →
  ∃ request body files buffers,
    emitted (HTTPUpload env endpoint input qParams w).2 = emitted w ++ [emit_request request]
    ∧ http.req_Body request = Some body
    ∧ http.Payload_bytes body = upload_bytes (randomBoundary env) (files ++ buffers)
    ∧ uploads_read (randomBoundary env) (http.Payload_bytes body)
      = Some ((λ entry, (entry.1, entry.1, entry.2)) <$> files ++ buffers)
    ∧ files ≡ₚ (λ kv, (kv.1, default "" (file_content env kv.2)))
                 <$> map_to_list (FilePaths input)
    ∧ buffers ≡ₚ map_to_list (Bytes input)
    ∧ length (files ++ buffers) = size (FilePaths input) + size (Bytes input)
    ∧ ∀ name,
        filter (λ entry, entry.1 = name) (files ++ buffers)
        = match FilePaths input !! name with
          | Some filePath => [(name, default "" (file_content env filePath))]
          | None => []
          end
          ++ match Bytes input !! name with
             | Some fileBytes => [(name, fileBytes)]
             | None => []
             end.
Proof.
  intros Hfiles Hurl Hplain Hentries.
  destruct (HTTPUpload_read_back env endpoint input qParams w Hfiles Hurl Hplain Hentries)
    as (request & body & Hemit & _ & Hbody & _ & Hbytes & Hread).
  exists request, body,
    ((λ kv, (kv.1, default "" (file_content env kv.2))) <$> range env (FilePaths input)),
    (range env (Bytes input)).
  split; [exact Hemit|]. split; [exact Hbody|]. split; [exact Hbytes|].
  split; [exact Hread|].
  split. { unfold range. by rewrite (range_map_perm (env_range env)). }
  split. { unfold range. by rewrite (range_map_perm (env_range env)). }
  split. { by rewrite length_app, length_fmap, !length_range. }
  intros name. apply filter_upload_entries.
Qed.

(** X13.  The request of [HTTPUpload] is a [POST] whose [Content-Type]
    header names the boundary its body is written with, and the body ends
    with the closing delimiter of that boundary.  (The boundary is made of
    letters and digits, as [multipart.NewWriter] draws it, so the header
    carries it without quotes.) *)
Theorem HTTPUpload_announces_its_boundary endpoint input qParams w :
  (∀ fileName filePath, FilePaths input !! fileName = Some filePath →
     is_Some (file_content env filePath)) →
  url_Parse_error env (CortexURL (getValidCliConfig env) +:+ endpoint) = None →
  bytes.forallb_string bytes.is_alnum (randomBoundary env) = true →
  ∃ request body before,
    emitted (HTTPUpload env endpoint input qParams w).2 = emitted w ++ [emit_request request]
    ∧ http.req_Method request = "POST"
    ∧ http.req_Body request = Some body
    ∧ http.req_Header request !! "Content-Type"
      = Some ["multipart/form-data; boundary=" +:+ randomBoundary env]
    ∧ http.Payload_bytes body
      = before +:+ multipart.CRLF +:+ "--" +:+ randomBoundary env +:+ "--" +:+ multipart.CRLF.
Proof.
  intros Hfiles Hurl Halnum.
  destruct (HTTPUpload_sent env endpoint input qParams w Hfiles Hurl)
    as (writer & req & Hboundary & Hbytes & Hreq & ->).
  rewrite (operatorRequest_built env "POST" endpoint _ qParams eq_refl Hurl) in Hreq.
  injection Hreq as <-.
  rewrite FormDataContentType_alnum, Hboundary by (by rewrite Hboundary).
  eexists _, (http.payload_multipart writer),
    (parts_bytes (randomBoundary env) true (upload_entries env input)).
  split; [apply makeRequest_emitted|].
  split; [done|]. split; [done|]. split; [done|].
  cbn [http.Payload_bytes]. by rewrite Hbytes.
Qed.

(** The loop of [HTTPUpload] over the files stops at the first file that
    cannot be opened or read. *)
Lemma for_range_files_failure (l : list (string * string)) writer :
  (∃ kv, kv ∈ l ∧ file_content env kv.2 = None) →
  ∃ kv err writer',
    kv ∈ l
    ∧ ((os_Open env kv.2 = Err err
        ∧ for_range
            (λ fileName filePath writer,
               match os_Open env filePath with
               | Err err => (writer, Some (errors_Wrap err (ErrReadFile env filePath)))
               | Ok file => addFileToMultipart env fileName writer file
               end) l writer
          = (writer', Some (errors_Wrap err (ErrReadFile env kv.2))))
       ∨ (∃ file, os_Open env kv.2 = Ok file ∧ failure file = Some err
          ∧ for_range
              (λ fileName filePath writer,
                 match os_Open env filePath with
                 | Err err => (writer, Some (errors_Wrap err (ErrReadFile env filePath)))
                 | Ok file => addFileToMultipart env fileName writer file
                 end) l writer
            = (writer', Some (errors_Wrap err (ErrCantMakeRequest env))))).
Proof.
  revert writer. induction l as [|[n p] l IH]; intros writer (kv & Hin & Hnone).
  { by apply elem_of_nil in Hin. }
  cbn [for_range].
  destruct (os_Open env p) as [file|err] eqn:Hopen.
  - destruct (failure file) as [err|] eqn:Hfail.
    + exists (n, p), err. eexists. split; [left|]. right. exists file.
      split; [done|]. split; [done|].
      unfold addFileToMultipart, multipart.CreateFormFile, io_Copy. by rewrite Hfail.
    + rewrite addFileToMultipart_ok by done.
      apply elem_of_cons in Hin as [->|Hin].
      { unfold file_content in Hnone. cbn [snd] in Hnone. by rewrite Hopen, Hfail in Hnone. }
      destruct (IH (add_entries [(n, content file)] writer)) as (kv' & err & writer' & Hin' & H).
      { by exists kv. }
      exists kv', err, writer'. split; [by right|]. exact H.
  - exists (n, p), err, writer. split; [left|]. by left.
Qed.

(** X14.  If one of the files of an upload cannot be opened or read to
    its end, [HTTPUpload] sends nothing, whatever else the upload holds:
    it returns the error of a file that could not be opened, wrapped with
    [ErrReadFile] of its path, or the error of a file that could not be
    read, wrapped with [ErrCantMakeRequest]. *)
Theorem HTTPUpload_unreadable_file_sends_nothing endpoint input qParams w :
  (∃ fileName filePath,
     FilePaths input !! fileName = Some filePath ∧ file_content env filePath = None) →
  (HTTPUpload env endpoint input qParams w).2 = w
  ∧ ∃ fileName filePath err,
      FilePaths input !! fileName = Some filePath
      ∧ ((os_Open env filePath = Err err
          ∧ (HTTPUpload env endpoint input qParams w).1
            = Err (errors_Wrap err (ErrReadFile env filePath)))
         ∨ (∃ file, os_Open env filePath = Ok file ∧ failure file = Some err
            ∧ (HTTPUpload env endpoint input qParams w).1
              = Err (errors_Wrap err (ErrCantMakeRequest env)))).
Proof.
  intros (fileName & filePath & Hin & Hnone).
  destruct (for_range_files_failure (range env (FilePaths input))
              (multipart.NewWriter (randomBoundary env)))
    as ([n p] & err & writer' & Hin' & H).
  { exists (fileName, filePath). split; [by apply range_elem_of|done]. }
  apply range_elem_of in Hin'. cbn [snd] in H. unfold HTTPUpload.
  destruct H as [[Hopen ->]|(file & Hopen & Hfail & ->)].
  - split; [done|]. exists n, p, err. split; [done|]. by left.
  - split; [done|]. exists n, p, err. split; [done|]. right. by exists file.
Qed.

Lemma range_empty {A : Type} : range env (∅ : gmap string A) = [].
Proof.
  unfold range. apply Permutation_nil_r.
  rewrite (range_map_perm (env_range env)). by rewrite map_to_list_empty.
Qed.

(** X15.  [HTTPUploadZip] uploads the archive as the one part of the
    form: for a file name that is an upload name and an archive that does
    not hold the boundary after two dashes, the body of the one [POST] it
    sends is the closed form of the one entry, and a reader of it finds
    exactly one part, under the file name as form name and as file name,
    with the bytes of the archive.  If zipping fails it returns that
    error, wrapped, and sends nothing. *)
Theorem HTTPUploadZip_sends_the_archive {ZipInput : Type} (ZipToMem : ZipInput → result string)
    endpoint zipInput fileName qParams w :
  url_Parse_error env (CortexURL (getValidCliConfig env) +:+ endpoint) = None →
  plain_boundary (randomBoundary env) = true →
  upload_name fileName = true →
  match ZipToMem zipInput with
  | Err err =>
      HTTPUploadZip env ZipToMem endpoint zipInput fileName qParams w
      = (Err (errors_Wrap err "failed to zip configuration file"), w)
  | Ok zipBytes =>
      free_of_boundary (randomBoundary env) zipBytes = true →
      ∃ request body,
        emitted (HTTPUploadZip env ZipToMem endpoint zipInput fileName qParams w).2
        = emitted w ++ [emit_request request]
        ∧ http.req_Method request = "POST"
        ∧ http.req_Body request = Some body
        ∧ http.Payload_bytes body = upload_bytes (randomBoundary env) [(fileName, zipBytes)]
        ∧ uploads_read (randomBoundary env) (http.Payload_bytes body)
          = Some [(fileName, fileName, zipBytes)]
  end.
Proof.
  intros Hurl Hplain Hname. unfold HTTPUploadZip.
  destruct (ZipToMem zipInput) as [zipBytes|err]; [|done]. intros Hfree.
  assert (upload_entries env {| FilePaths := ∅; Bytes := {[fileName := zipBytes]} |}
          = [(fileName, zipBytes)]) as Hentries.
  { unfold upload_entries. cbn [FilePaths Bytes]. by rewrite range_empty, range_singleton. }
  destruct (HTTPUpload_read_back env endpoint
              {| FilePaths := ∅; Bytes := {[fileName := zipBytes]} |} qParams w)
    as (request & body & Hemit & Hmethod & Hbody & _ & Hbytes & Hread); [|done|done|..].
  { intros n p Hn. cbn in Hn. by rewrite lookup_empty in Hn. }
  { rewrite Hentries. by repeat constructor. }
  rewrite Hentries in Hbytes, Hread. by exists request, body.
Qed.

End UploadsMore.

(** X12 at one file and two buffers, one of them under the name of the file. *)
Lemma HTTPUpload_one_part_per_entry_witness :
  ∃ request body files buffers,
    emitted (HTTPUpload example.env "/deploy"
               {| FilePaths := {[ "app.yaml" := "/tmp/app.yaml" ]};
                  Bytes := {[ "app.yaml" := "kind: api"; "project.zip" := "PK" ]} |}
               [] example.world).2
    = [emit_request request]
    ∧ http.req_Body request = Some body
    ∧ uploads_read "4b1d0c5e" (http.Payload_bytes body)
      = Some ((λ entry, (entry.1, entry.1, entry.2)) <$> files ++ buffers)
    ∧ length (files ++ buffers) = 3%nat
    ∧ filter (λ entry, entry.1 = "app.yaml") (files ++ buffers)
      = [("app.yaml", "kind: app"); ("app.yaml", "kind: api")]
    ∧ filter (λ entry, entry.1 = "project.zip") (files ++ buffers) = [("project.zip", "PK")]
    ∧ filter (λ entry, entry.1 = "other") (files ++ buffers) = [].
Proof.
  pose (input := {| FilePaths := {[ "app.yaml" := "/tmp/app.yaml" ]};
                    Bytes := {[ "app.yaml" := "kind: api"; "project.zip" := "PK" ]} |}).
  assert (∀ fileName filePath, FilePaths input !! fileName = Some filePath →
            is_Some (file_content example.env filePath)) as Hfiles.
  { intros fileName filePath Hin. unfold input in Hin. cbn [FilePaths] in Hin.
    apply lookup_singleton_Some in Hin as [_ <-]. by eexists. }
  assert (entries_legible "4b1d0c5e" (upload_entries example.env input)) as Hentries.
  { assert (upload_entries example.env input
            = [("app.yaml", "kind: app"); ("app.yaml", "kind: api"); ("project.zip", "PK")])
      as ->.
    { vm_compute. reflexivity. }
    repeat constructor. }
  destruct (HTTPUpload_one_part_per_entry example.env "/deploy" input [] example.world
              Hfiles eq_refl eq_refl Hentries)
    as (request & body & files & buffers & Hemit & Hbody & _ & Hread & _ & _ & Hlen & Hfile).
  exists request, body, files, buffers. split; [exact Hemit|]. split; [exact Hbody|].
  split; [exact Hread|]. split; [exact Hlen|]. split; [exact (Hfile "app.yaml")|].
  split; [exact (Hfile "project.zip")|exact (Hfile "other")].
Defined.

(** X13 at one buffer. *)
Lemma HTTPUpload_announces_its_boundary_witness :
  ∃ request body before,
    emitted (HTTPUpload example.env "/deploy"
               {| FilePaths := ∅; Bytes := {[ "project.zip" := "PK" ]} |}
               [] example.world).2
    = [emit_request request]
    ∧ http.req_Body request = Some body
    ∧ http.req_Header request !! "Content-Type"
      = Some ["multipart/form-data; boundary=4b1d0c5e"]
    ∧ http.Payload_bytes body
      = before +:+ multipart.CRLF +:+ "--4b1d0c5e--" +:+ multipart.CRLF.
Proof.
  pose (input := {| FilePaths := ∅; Bytes := {[ "project.zip" := "PK" ]} |}).
  assert (∀ fileName filePath, FilePaths input !! fileName = Some filePath →
            is_Some (file_content example.env filePath)) as Hfiles.
  { intros fileName filePath Hin. unfold input in Hin. cbn [FilePaths] in Hin.
    by apply lookup_empty_Some in Hin. }
  destruct (HTTPUpload_announces_its_boundary example.env "/deploy" input [] example.world
              Hfiles eq_refl eq_refl)
    as (request & body & before & Hemit & _ & Hbody & Htype & Hbytes).
  exists request, body, before. split; [exact Hemit|]. split; [exact Hbody|].
  split; [exact Htype|exact Hbytes].
Defined.

(** X14 at a path the file system of the example does not have. *)
Lemma HTTPUpload_unreadable_file_sends_nothing_witness :
  let input := {| FilePaths := {[ "app.yaml" := "/tmp/missing.yaml" ]};
                  Bytes := {[ "project.zip" := "PK" ]} |} in
  (HTTPUpload example.env "/deploy" input [] example.world).2 = example.world
  ∧ ∃ fileName filePath err,
      FilePaths input !! fileName = Some filePath
      ∧ ((os_Open example.env filePath = Err err
          ∧ (HTTPUpload example.env "/deploy" input [] example.world).1
            = Err (errors_Wrap err (ErrReadFile example.env filePath)))
         ∨ (∃ file, os_Open example.env filePath = Ok file ∧ failure file = Some err
            ∧ (HTTPUpload example.env "/deploy" input [] example.world).1
              = Err (errors_Wrap err (ErrCantMakeRequest example.env)))).
Proof.
  intros input.
  apply (HTTPUpload_unreadable_file_sends_nothing example.env "/deploy" input [] example.world).
  exists "app.yaml", "/tmp/missing.yaml". split; reflexivity.
Defined.

(** X15 with concatenation standing for the zipping. *)
Lemma HTTPUploadZip_sends_the_archive_witness :
  ∃ request body,
    emitted (HTTPUploadZip example.env (λ files : list string, Ok (String.concat "" files))
               "/deploy" ["P"; "K"] "project.zip" [] example.world).2
    = [emit_request request]
    ∧ http.req_Body request = Some body
    ∧ uploads_read "4b1d0c5e" (http.Payload_bytes body)
      = Some [("project.zip", "project.zip", "PK")].
Proof.
  destruct (HTTPUploadZip_sends_the_archive example.env
              (λ files : list string, Ok (String.concat "" files))
              "/deploy" ["P"; "K"] "project.zip" [] example.world eq_refl eq_refl eq_refl
              eq_refl)
    as (request & body & Hemit & _ & Hbody & _ & Hread).
  exists request, body. split; [exact Hemit|]. split; [exact Hbody|exact Hread].
Defined.

(** ** The start of a log stream *)

Section LogStreamStart.
Import bytes url.
Context (env : Env).

Lemma Cut_absent c s : contains_byte c s = false → Cut c s = (s, None).
Proof.
  intros H. apply contains_byte_false in H. induction s as [|x s IH]; [done|].
  cbn [forallb_string] in H. apply andb_true_iff in H as [Hx Hs].
  cbn [Cut]. apply negb_true_iff in Hx. rewrite Hx. by rewrite (IH Hs).
Qed.

Lemma contains_byte_app c s t :
  contains_byte c (s +:+ t) = contains_byte c s || contains_byte c t.
Proof.
  unfold contains_byte. rewrite forallb_string_app. by rewrite negb_andb.
Qed.

Lemma split_url_plain s :
  contains_byte "?" s = false → contains_byte "#" s = false →
  split_url s = {| Base := s; ForceQuery := false; RawQuery := ""; Fragment := "" |}.
Proof. intros Hq Hf. unfold split_url. by rewrite (Cut_absent _ _ Hf), (Cut_absent _ _ Hq). Qed.

(** The query string of the four parameters of [StreamLogs]. *)
Lemma Values_Encode_StreamLogs appName resourceName resourceType verbose :
  Values_Encode
    (Values_Set "verbose" verbose
       (Values_Set "appName" appName
          (Values_Set "resourceType" resourceType
             (Values_Set "resourceName" resourceName ∅))))
  = "appName=" +:+ QueryEscape appName +:+ "&resourceName=" +:+ QueryEscape resourceName
    +:+ "&resourceType=" +:+ QueryEscape resourceType +:+ "&verbose=" +:+ QueryEscape verbose.
Proof.
  rewrite Values_Encode_flat. unfold Values_Set.
  set (m := <["verbose":=[verbose]]> _).
  assert (merge_sort string_le (map_to_list m).*1
          = ["appName"; "resourceName"; "resourceType"; "verbose"]) as ->.
  { subst m. vm_compute. reflexivity. }
  assert (m !! "appName" = Some [appName]) as H1 by done.
  assert (m !! "resourceName" = Some [resourceName]) as H2 by done.
  assert (m !! "resourceType" = Some [resourceType]) as H3 by done.
  assert (m !! "verbose" = Some [verbose]) as H4 by done.
  unfold bindings. rewrite !bind_cons, H1, H2, H3, H4. cbn [mbind list_bind].
  cbn [default fmap list_fmap app foldl encode_binding fst snd]. unfold encode_add, encode_pair. cbn [fst snd].
  unfold id, encode_binding, encode_pair. cbn [fmap list_fmap app fst snd].
  change (QueryEscape "appName") with "appName".
  change (QueryEscape "resourceName") with "resourceName".
  change (QueryEscape "resourceType") with "resourceType".
  change (QueryEscape "verbose") with "verbose".
  cbn [foldl append String.eqb Ascii.eqb]. 
  by rewrite !app_assoc_s.
Qed.

Lemma append_empty_r (s : string) : s +:+ "" = s.
Proof. induction s; simpl; congruence. Qed.

Lemma URL_String_query base q :
  String.eqb q "" = false →
  URL_String {| Base := base; ForceQuery := false; RawQuery := q; Fragment := "" |}
  = base +:+ "?" +:+ q.
Proof.
  intros Hq. unfold URL_String. cbn [Base ForceQuery RawQuery Fragment orb].
  rewrite Hq. cbn [negb]. change (String.eqb "" "") with true. cbv iota.
  by rewrite append_empty_r.
Qed.

Lemma Replace1_prefix old new s : Replace1 old new (old +:+ s) = new +:+ s.
Proof.
  destruct old as [|c old]; [by destruct s|].
  change (String c old +:+ s) with (String c (old +:+ s)). cbn [Replace1].
  change (String c (old +:+ s)) with (String c old +:+ s). by rewrite strip_prefix_app.
Qed.

(** The bytes of a plain origin. *)
Lemma plain_origin_bytes s :
  plain_origin s = true →
  forallb_string (λ c, host_byte c || Ascii.eqb c ":" || Ascii.eqb c "/") s = true.
Proof.
  unfold plain_origin. intros H.
  assert (∃ scheme hostport,
            s = scheme +:+ hostport
            ∧ forallb_string (λ c, host_byte c || Ascii.eqb c ":" || Ascii.eqb c "/") scheme
              = true
            ∧ (let '(host, port) := span host_byte hostport in
               negb (String.eqb host "")
               && match port with
                  | EmptyString => true
                  | String c digits =>
                      Ascii.eqb c ":" && negb (String.eqb digits "")
                      && forallb_string is_digit digits
                  end) = true) as (scheme & hostport & -> & Hscheme & Hhost).
  { destruct (strip_prefix "http://" s) as [hostport|] eqn:Hhttp.
    - apply strip_prefix_Some in Hhttp. by exists "http://", hostport.
    - destruct (strip_prefix "https://" s) as [hostport|] eqn:Hhttps; [|done].
      apply strip_prefix_Some in Hhttps. by exists "https://", hostport. }
  clear H. rewrite forallb_string_app, Hscheme. cbn [andb].
  pose proof (span_app host_byte hostport) as Happ.
  pose proof (span_forallb host_byte hostport) as Hall.
  destruct (span host_byte hostport) as [host port]. cbn [fst snd] in Happ, Hall.
  subst hostport. rewrite forallb_string_app.
  rewrite (forallb_string_impl host_byte _ host (λ c Hc, orb_true_intro _ _ (or_introl (orb_true_intro _ _ (or_introl Hc)))) Hall).
  cbn [andb].
  apply andb_prop in Hhost as [_ Hport]. destruct port as [|c digits]; [done|].
  apply andb_prop in Hport as [[Hc _]%andb_prop Hdigits].
  cbn [forallb_string]. rewrite Hc, orb_true_r. cbn [orb andb].
  revert Hdigits. apply forallb_string_impl. intros d Hd.
  unfold host_byte. by rewrite Hd, orb_true_r.
Qed.

Lemma plain_origin_no_byte c rest :
  (host_byte c || Ascii.eqb c ":" || Ascii.eqb c "/") = false →
  plain_origin ("http" +:+ rest) = true → contains_byte c rest = false.
Proof.
  intros Hc Hplain. apply plain_origin_bytes in Hplain.
  rewrite forallb_string_app in Hplain. apply andb_prop in Hplain as [_ Hrest].
  unfold contains_byte. apply negb_false_iff. revert Hrest. apply forallb_string_impl.
  intros x Hx. destruct (Ascii.eqb_spec x c) as [->|]; [|done]. by rewrite Hx in Hc.
Qed.

(** X16.  For a configured base URL [http<rest>] that is a plain origin
    (the scheme [http] or [https], a host of lower-case letters, digits,
    dots and dashes, and at most a port of digits), [StreamLogs] dials
    [ws<rest>/logs/read] (so [https] becomes [wss]) with exactly the four
    parameters [appName], [resourceName], [resourceType] and [verbose] in
    its query string, in this order and escaped, and with the two client
    headers and no other. *)
Theorem StreamLogs_dials_the_websocket_URL rest appName resourceName resourceType verbose w :
  CortexURL (getValidCliConfig env) = "http" +:+ rest →
  plain_origin ("http" +:+ rest) = true →
  url_Parse_error env ("http" +:+ rest +:+ "/logs/read") = None →
  emitted (StreamLogs env appName resourceName resourceType verbose w).2
  = emitted w
    ++ [emit_handshake
          ("ws" +:+ rest +:+ "/logs/read" +:+ "?"
           +:+ "appName=" +:+ QueryEscape appName
           +:+ "&resourceName=" +:+ QueryEscape resourceName
           +:+ "&resourceType=" +:+ QueryEscape resourceType
           +:+ "&verbose=" +:+ strconv_FormatBool verbose)
          (<["Cortexapiversion" := [CortexVersion env]]>
             (<["Authorization" := [authHeader env]]> ∅))].
Proof.
  intros Hbase Hplain Hurl.
  pose proof (plain_origin_no_byte "?" rest eq_refl Hplain) as Hq.
  pose proof (plain_origin_no_byte "#" rest eq_refl Hplain) as Hf.
  pose proof (StreamLogs_emitted env appName resourceName resourceType verbose w) as H.
  assert (split_url ("http" +:+ rest +:+ "/logs/read")
          = {| Base := "http" +:+ rest +:+ "/logs/read"; ForceQuery := false;
               RawQuery := ""; Fragment := "" |}) as Hsplit.
  { apply split_url_plain; rewrite !contains_byte_app; [by rewrite Hq|by rewrite Hf]. }
  rewrite (operatorRequest_built env "GET" "/logs/read" None [] eq_refl) in H.
  2:{ by rewrite Hbase, app_assoc_s. }
  rewrite H. do 2 f_equal. f_equal.
  unfold StreamLogs_wsURL. cbn [http.req_URL]. rewrite Hbase, app_assoc_s, Hsplit.
  cbn [merged foldl]. unfold URL_set_RawQuery, URL_Query.
  cbn [Base ForceQuery RawQuery Fragment].
  change (ParseQuery "").1 with (∅ : Values).
  change (Values_Encode ∅) with "". change (ParseQuery "").1 with (∅ : Values).
  rewrite Values_Encode_StreamLogs.
  rewrite URL_String_query by done.
  assert (QueryEscape (strconv_FormatBool verbose) = strconv_FormatBool verbose) as ->.
  { by destruct verbose. }
  rewrite !app_assoc_s. apply Replace1_prefix.
Qed.


(** X17.  [StreamLogs] starts reading only after a handshake that was
    answered and raised no error: the session it starts is on the
    connection [dialer.Dial] returned, with nothing read or written yet,
    and the handshake is the only thing handed to the network. *)
Theorem StreamLogs_starts_only_after_an_accepted_handshake appName resourceName resourceType
    verbose w s :
  (StreamLogs env appName resourceName resourceType verbose w).1 = stream_session s →
  ∃ req response,
    operatorRequest env "GET" "/logs/read" None [] = Ok req
    ∧ let wsURL := StreamLogs_wsURL req appName resourceName resourceType verbose in
      let dialed := dialer_Dial env wsURL (StreamLogs_header env) in
      dial_response dialed = Some response
      ∧ dial_err dialed = None
      ∧ s = Session_start (dial_connection dialed)
      ∧ emitted (StreamLogs env appName resourceName resourceType verbose w).2
        = emitted w ++ [emit_handshake wsURL (StreamLogs_header env)].
Proof.
  intros Hs.
  pose proof (StreamLogs_emitted env appName resourceName resourceType verbose w) as Hemit.
  revert Hs. unfold StreamLogs. fold (StreamLogs_header env).
  destruct (operatorRequest _ _ _ _ _) as [req|err]; [|done].
  destruct (dial_response _) as [response|] eqn:Hresp; [|done].
  destruct (dial_err _) eqn:Herr.
  - destruct (ioutil_ReadAll _) as [bodyBytes err]. destruct (_ || _); [done|].
    destruct (json.Unmarshal _ _) as [output err']. by destruct (_ || _).
  - cbn [fst]. intros [= <-]. by exists req, response.
Qed.

(** X18.  Provided the messages of [ErrFailedToConnect] are not empty,
    [StreamLogs] never ends the process with an empty message: a refusal
    with an empty body is reported as a failure to connect. *)
Theorem StreamLogs_never_exits_without_a_message appName resourceName resourceType verbose
    w msg :
  (∀ cleanURL, ErrFailedToConnect env cleanURL ≠ "") →
  (StreamLogs env appName resourceName resourceType verbose w).1
  = stream_exit (exit_message msg) →
  msg ≠ "".
Proof.
  intros Hmsg. unfold StreamLogs.
  destruct (operatorRequest _ _ _ _ _) as [req|err]; [|done].
  destruct (dial_response _) as [response|]; [|by intros [= <-]].
  destruct (dial_err _); [|done].
  destruct (ioutil_ReadAll _) as [bodyBytes err].
  destruct (bool_decide (err ≠ None)); cbn [orb]; [by intros [= <-]|].
  destruct (String.eqb_spec bodyBytes ""); [by intros [= <-]|].
  destruct (json.Unmarshal _ _) as [output err'].
  destruct (bool_decide (err' ≠ None)); cbn [orb]; [by intros [= <-]|].
  destruct (String.eqb_spec (json.Error output) ""); by intros [= <-].
Qed.

End LogStreamStart.

(** X16 at the configuration of the example. *)
Lemma StreamLogs_dials_the_websocket_URL_witness :
  emitted (StreamLogs example.env "my app" "api" "deployment" true example.world).2
  = [emit_handshake
       ("ws" +:+ "://operator.example:8888" +:+ "/logs/read" +:+ "?"
        +:+ "appName=" +:+ url.QueryEscape "my app"
        +:+ "&resourceName=" +:+ url.QueryEscape "api"
        +:+ "&resourceType=" +:+ url.QueryEscape "deployment"
        +:+ "&verbose=" +:+ strconv_FormatBool true)
       (<["Cortexapiversion" := [CortexVersion example.env]]>
          (<["Authorization" := [authHeader example.env]]> ∅))].
Proof.
  exact (StreamLogs_dials_the_websocket_URL example.env "://operator.example:8888"
           "my app" "api" "deployment" true example.world eq_refl eq_refl eq_refl).
Defined.

(** X17 at a server that accepts the handshake. *)
Lemma StreamLogs_starts_only_after_an_accepted_handshake_witness :
  let env := example.env_with (example.streaming [Ok "starting"]) in
  ∃ req response,
    operatorRequest env "GET" "/logs/read" None [] = Ok req
    ∧ dial_response
        (dialer_Dial env (StreamLogs_wsURL req "app" "api" "deployment" true)
           (StreamLogs_header env))
      = Some response
    ∧ dial_err
        (dialer_Dial env (StreamLogs_wsURL req "app" "api" "deployment" true)
           (StreamLogs_header env))
      = None.
Proof.
  intros env.
  assert ((StreamLogs env "app" "api" "deployment" true example.world).1
          = stream_session (Session_start [Ok "starting"])) as Hs.
  { vm_compute. reflexivity. }
  destruct (StreamLogs_starts_only_after_an_accepted_handshake env "app" "api" "deployment"
              true example.world (Session_start [Ok "starting"]) Hs)
    as (req & response & Hreq & Hresp & Herr & _).
  exists req, response. split; [exact Hreq|]. split; [exact Hresp|exact Herr].
Defined.

(** X18 at a server that refuses the handshake with a plain text. *)
Lemma StreamLogs_never_exits_without_a_message_witness :
  (StreamLogs (example.env_with (example.refusing "unauthorized"))
     "app" "api" "deployment" true example.world).1
  = stream_exit (exit_message "unauthorized")
  ∧ "unauthorized" ≠ "".
Proof.
  assert (∀ cleanURL,
            ErrFailedToConnect (example.env_with (example.refusing "unauthorized")) cleanURL
            ≠ "") as Hmsg.
  { intros cleanURL. discriminate. }
  assert ((StreamLogs (example.env_with (example.refusing "unauthorized"))
             "app" "api" "deployment" true example.world).1
          = stream_exit (exit_message "unauthorized")) as Hexit.
  { vm_compute. reflexivity. }
  split; [exact Hexit|].
  exact (StreamLogs_never_exits_without_a_message
           (example.env_with (example.refusing "unauthorized"))
           "app" "api" "deployment" true example.world "unauthorized" Hmsg Hexit).
Defined.

(** ** Completion markers, further *)

Section FramesMore.
Import bytes.
Context (env : Env).

Lemma span_head_nonempty p c s : p c = true → (bytes.span p (String c s)).1 ≠ "".
Proof. intros Hc. cbn [bytes.span]. rewrite Hc. by destruct (bytes.span p s). Qed.

(** A frame that begins with a marker has one whose timestamp runs up to
    the next white space. *)
Lemma completion_marker_head identifier timestamp rest :
  identifier ≠ "" → forallb_string regexp.word identifier = true →
  timestamp ≠ "" → forallb_string regexp.non_space timestamp = true →
  ∃ timestamp',
    completion_marker
      ("workload: " +:+ identifier +:+ ", completed: " +:+ timestamp +:+ rest)
    = Some (identifier, timestamp').
Proof.
  intros Hid Hword Hts Hns.
  exists (bytes.span regexp.non_space (timestamp +:+ rest)).1.
  apply completion_marker_Some.
  exists (bytes.span regexp.non_space (timestamp +:+ rest)).2.
  rewrite span_app. split; [done|]. split; [done|]. split; [done|].
  split.
  { destruct timestamp as [|c ts]; [done|]. cbn [forallb_string] in Hns.
    apply andb_true_iff in Hns as [Hc _].
    change (String c ts +:+ rest) with (String c (ts +:+ rest)).
    by apply span_head_nonempty. }
  split; [apply span_forallb|]. apply span_rest.
Qed.

(** X19.  What [lastLogRe] finds, in plain terms: a match exists exactly
    when the frame starts with [workload: ], a non-empty run of word
    bytes, [, completed: ] and a byte that is not white space; the groups
    are then that identifier and the run of bytes up to the next white
    space or the end of the frame.  A marker further inside the frame, on
    a later line for one, is no match. *)
Theorem lastLogRe_finds_the_marker_at_the_head msgStr :
  match regexp.FindStringSubmatch lastLogRe msgStr with
  | Some groups =>
      ∃ identifier timestamp rest,
        groups = ["workload: " +:+ identifier +:+ ", completed: " +:+ timestamp;
                  identifier; timestamp]
        ∧ msgStr = "workload: " +:+ identifier +:+ ", completed: " +:+ timestamp +:+ rest
        ∧ identifier ≠ "" ∧ forallb_string regexp.word identifier = true
        ∧ timestamp ≠ "" ∧ forallb_string regexp.non_space timestamp = true
        ∧ (∀ c t, rest = String c t → regexp.non_space c = false)
  | None =>
      ¬ ∃ identifier timestamp rest,
          msgStr = "workload: " +:+ identifier +:+ ", completed: " +:+ timestamp +:+ rest
          ∧ identifier ≠ "" ∧ forallb_string regexp.word identifier = true
          ∧ timestamp ≠ "" ∧ forallb_string regexp.non_space timestamp = true
  end.
Proof.
  rewrite FindStringSubmatch_lastLogRe.
  destruct (completion_marker msgStr) as [[identifier timestamp]|] eqn:Hm.
  - apply completion_marker_Some in Hm as (rest & H). by exists identifier, timestamp, rest.
  - intros (identifier & timestamp & rest & -> & Hid & Hword & Hts & Hns).
    destruct (completion_marker_head identifier timestamp rest Hid Hword Hts Hns) as [ts H].
    congruence.
Qed.

(** X20.  A frame that starts with a completion marker whose timestamp
    parses prints the [Completed on] line only: what follows the
    timestamp in the frame, after a white space, is not printed. *)
Theorem completion_frame_prints_only_the_completion identifier timestamp c rest parsed out :
  identifier ≠ "" → forallb_string regexp.word identifier = true →
  timestamp ≠ "" → forallb_string regexp.non_space timestamp = true →
  regexp.non_space c = false →
  time_Parse_RFC3339 env timestamp = Ok parsed →
  handleConnection_turn env
    (Ok ("workload: " +:+ identifier +:+ ", completed: " +:+ timestamp +:+ String c rest)) out
  = reader_continue
      (out +:+ LF +:+ "Completed on " +:+ LocalTimestampHuman env parsed +:+ LF).
Proof.
  intros Hid Hword Hts Hns Hc Hparse.
  assert (completion_marker
            ("workload: " +:+ identifier +:+ ", completed: " +:+ timestamp +:+ String c rest)
          = Some (identifier, timestamp)) as Hm.
  { apply completion_marker_Some. exists (String c rest). repeat split; try done.
    by intros c' t [= <- _]. }
  assert (∀ a b c : string, default "" (default [] (Some [a; b; c]) !! 2%nat) = c) as Hidx
    by reflexivity.
  unfold handleConnection_turn.
  rewrite MatchString_lastLogRe, FindStringSubmatch_lastLogRe, Hm.
  rewrite bool_decide_eq_true_2 by (by eexists). rewrite Hidx, Hparse.
  unfold fmt_Println. by rewrite !app_assoc_s.
Qed.

End FramesMore.

(** X20 at a marker followed by a second line. *)
Lemma completion_frame_prints_only_the_completion_witness :
  handleConnection_turn example.env
    (Ok ("workload: " +:+ "job1" +:+ ", completed: " +:+ "2024-01-01T00:00:00Z"
         +:+ String "010" "trailing text")) ""
  = reader_continue
      ("" +:+ LF +:+ "Completed on "
       +:+ LocalTimestampHuman example.env
             {| unix_seconds := 1704067200; nanoseconds := 0; zone_offset := 0 |}
       +:+ LF).
Proof.
  assert (time_Parse_RFC3339 example.env "2024-01-01T00:00:00Z"
          = Ok {| unix_seconds := 1704067200; nanoseconds := 0; zone_offset := 0 |})
    as Hparse.
  { vm_compute. reflexivity. }
  exact (completion_frame_prints_only_the_completion example.env "job1"
           "2024-01-01T00:00:00Z" "010"%char "trailing text"
           {| unix_seconds := 1704067200; nanoseconds := 0; zone_offset := 0 |} ""
           ltac:(discriminate) eq_refl ltac:(discriminate) eq_refl eq_refl Hparse).
Defined.

(** ** Runs of a log stream session *)

Section SessionsMore.
Context (env : Env).

Lemma handleConnection_turn_frame msgStr out :
  ∃ out', handleConnection_turn env (Ok msgStr) out = reader_continue out'.
Proof.
  unfold handleConnection_turn. destruct (regexp.MatchString _ _); [|by eexists].
  destruct (time_Parse_RFC3339 env _); by eexists.
Qed.

Lemma transcript_plain frames out :
  Forall (λ msgStr, regexp.MatchString lastLogRe msgStr = false) frames →
  transcript env frames out = out +:+ foldr (λ msgStr rest, msgStr +:+ LF +:+ rest) "" frames.
Proof.
  intros Hplain. revert out.
  induction Hplain as [|msgStr frames Hm _ IH]; intros out.
  - cbn. by rewrite append_empty_r.
  - assert (handleConnection_turn env (Ok msgStr) out
            = reader_continue (fmt_Println msgStr out)) as Hturn.
    { unfold handleConnection_turn. by rewrite Hm. }
    change (transcript env (msgStr :: frames) out)
      with (transcript env frames
              match handleConnection_turn env (Ok msgStr) out with
              | reader_continue out' => out'
              | _ => out
              end).
    rewrite Hturn, IH. cbn [foldr]. unfold fmt_Println. by rewrite !app_assoc_s.
Qed.

(** X21.  At every moment of a log stream session the standard output
    is what the reading loop prints for the frames read so far, in the
    order of the connection, each once, and what is left of the connection
    is what follows them; once the process has exited, its status is 1 and
    the frame after those printed is the failed read.  If none of the
    frames read is a completion marker, the output is these frames, a line
    each. *)
Theorem session_prints_frames_in_order connection s :
  reachable env (Session_start connection) s →
  ∃ read : list string,
    stdout s = transcript env read ""
    ∧ match exited s with
      | None => connection = (Ok <$> read) ++ incoming s
      | Some code =>
          code = 1%Z ∧ ∃ err, connection = (Ok <$> read) ++ Err err :: incoming s
      end
    ∧ (Forall (λ msgStr, regexp.MatchString lastLogRe msgStr = false) read →
       stdout s = foldr (λ msgStr rest, msgStr +:+ LF +:+ rest) "" read).
Proof.
  intros Hreach.
  cut (∃ read : list string,
         stdout s = transcript env read ""
         ∧ match exited s with
           | None => connection = (Ok <$> read) ++ incoming s
           | Some code =>
               code = 1%Z ∧ ∃ err, connection = (Ok <$> read) ++ Err err :: incoming s
           end).
  { intros (read & Hout & Hin). exists read. split; [done|]. split; [done|].
    intros Hplain. rewrite Hout. by rewrite transcript_plain. }
  revert s Hreach. apply rtc_ind_r.
  { by exists []. }
  intros s s' _ Hstep (read & Hout & Hin).
  destruct Hstep as [s s' Hi|s s' Hr|s s' Hc].
  - unfold deliver_interrupt in Hi. destruct (exited s) eqn:He; [done|].
    injection Hi as <-. by exists read.
  - unfold handleConnection_step in Hr.
    destruct (exited s) eqn:He; [done|]. destruct (reader s); [|done].
    destruct (incoming s) as [|got rest] eqn:Hinc; [done|].
    destruct got as [msgStr|err].
    + destruct (handleConnection_turn_frame msgStr (stdout s)) as [out' Hturn].
      rewrite Hturn in Hr. injection Hr as <-. cbn [stdout exited incoming].
      exists (read ++ [msgStr]). split.
      * unfold transcript. rewrite foldl_snoc. fold (transcript env read "").
        by rewrite <-Hout, Hturn.
      * by rewrite fmap_app, <-app_assoc.
    + rewrite handleConnection_turn_error in Hr. injection Hr as <-.
      cbn [stdout exited incoming]. exists read. split; [done|]. split; [done|].
      by exists err.
  - unfold closeConnection_select in Hc.
    destruct (exited s) eqn:He; [by apply elem_of_nil in Hc|].
    destruct (coordinator s); [|by apply elem_of_nil in Hc].
    apply elem_of_app in Hc as [Hc|Hc].
    + destruct (done_closed s); [|by apply elem_of_nil in Hc].
      apply list_elem_of_singleton in Hc as ->. by exists read.
    + destruct (interrupt_queued s); [|by apply elem_of_nil in Hc].
      apply list_elem_of_singleton in Hc as ->. by exists read.
Qed.

(** X22.  As long as no interrupt arrives, [closeConnection] does not
    return, whatever the server sends or however the connection ends:
    [done] is never closed, and nothing is written to the connection. *)
Theorem closeConnection_waits_for_an_interrupt connection s :
  rtc (quiet_step env) (Session_start connection) s →
  coordinator s = goroutine_running ∧ written s = [] ∧ done_closed s = false.
Proof.
  intros Hreach.
  cut (coordinator s = goroutine_running ∧ written s = [] ∧ done_closed s = false
       ∧ interrupt_queued s = false).
  { by intros (? & ? & ? & ?). }
  revert s Hreach. apply rtc_ind_r; [done|].
  intros s s' _ [Hr|Hc] (Hco & Hw & Hd & Hi).
  - unfold handleConnection_step in Hr.
    destruct (exited s); [done|]. destruct (reader s); [|done].
    destruct (incoming s) as [|got rest]; [done|].
    pose proof (handleConnection_turn_never_returns env got (stdout s)) as Hnr.
    destruct (handleConnection_turn env got (stdout s)); [| |done];
      injection Hr as <-; done.
  - unfold closeConnection_select in Hc. rewrite Hd, Hi in Hc.
    destruct (exited s); [by apply elem_of_nil in Hc|].
    destruct (coordinator s); by apply elem_of_nil in Hc.
Qed.


(** The reading loop takes the frames at the head of the connection one
    after the other. *)
Lemma reader_takes_frames frames tail written_ queued out :
  rtc (quiet_step env)
    {| incoming := (Ok <$> frames) ++ tail; written := written_; done_closed := false;
       interrupt_queued := queued; stdout := out; reader := goroutine_running;
       coordinator := goroutine_running; exited := None |}
    {| incoming := tail; written := written_; done_closed := false;
       interrupt_queued := queued; stdout := transcript env frames out;
       reader := goroutine_running; coordinator := goroutine_running; exited := None |}.
Proof.
  revert out. induction frames as [|msgStr frames IH]; intros out; [done|].
  destruct (handleConnection_turn_frame msgStr out) as [out' Hturn].
  eapply rtc_l.
  { left. unfold handleConnection_step. cbn [exited reader incoming fmap list_fmap app stdout].
    rewrite Hturn. reflexivity. }
  cbn [written done_closed interrupt_queued coordinator].
  change (transcript env (msgStr :: frames) out)
    with (transcript env frames
            match handleConnection_turn env (Ok msgStr) out with
            | reader_continue out' => out'
            | _ => out
            end).
  rewrite Hturn. apply IH.
Qed.

(** X23.  When the server sends frames and then closes the stream, the
    session has a run without an interrupt in which all the frames are
    printed, in order, before the failed read ends the process with
    status 1; no close frame was written, and nothing happens after the
    exit. *)
Theorem closed_stream_is_printed_then_the_process_exits frames err tail :
  ∃ s,
    rtc (quiet_step env) (Session_start ((Ok <$> frames) ++ Err err :: tail)) s
    ∧ exited s = Some 1%Z
    ∧ stdout s = transcript env frames ""
    ∧ written s = []
    ∧ ∀ s', ¬ step env s s'.
Proof.
  eexists. split.
  { eapply rtc_r; [apply (reader_takes_frames frames (Err err :: tail) [] false "")|].
    left. unfold handleConnection_step. cbn [exited reader incoming stdout].
    rewrite handleConnection_turn_error. reflexivity. }
  cbn [exited stdout written]. split; [done|]. split; [done|]. split; [done|].
  intros s' Hstep. inversion Hstep as [? ? H|? ? H|? ? H]; subst.
  - discriminate H.
  - discriminate H.
  - by apply elem_of_nil in H.
Qed.

End SessionsMore.

(** X21 after two frames were read. *)
Lemma session_prints_frames_in_order_witness :
  let connection := [Ok "starting"; Ok "ready"; Err (errors_New "EOF")] in
  let s2 :=
    {| incoming := [Err (errors_New "EOF")]; written := []; done_closed := false;
       interrupt_queued := false; stdout := "starting" +:+ LF +:+ "ready" +:+ LF;
       reader := goroutine_running; coordinator := goroutine_running; exited := None |} in
  reachable example.env (Session_start connection) s2
  ∧ ∃ read : list string,
      connection = (Ok <$> read) ++ incoming s2
      ∧ stdout s2 = transcript example.env read "".
Proof.
  intros connection s2.
  pose (s1 :=
          {| incoming := [Ok "ready"; Err (errors_New "EOF")]; written := [];
             done_closed := false; interrupt_queued := false; stdout := "starting" +:+ LF;
             reader := goroutine_running; coordinator := goroutine_running;
             exited := None |}).
  assert (handleConnection_step example.env (Session_start connection) = Some s1) as Hstep1.
  { vm_compute. reflexivity. }
  assert (handleConnection_step example.env s1 = Some s2) as Hstep2.
  { vm_compute. reflexivity. }
  assert (reachable example.env (Session_start connection) s2) as Hreach.
  { apply (rtc_l _ _ s1); [exact (step_reader example.env _ s1 Hstep1)|].
    apply rtc_once. exact (step_reader example.env s1 s2 Hstep2). }
  split; [exact Hreach|].
  destruct (session_prints_frames_in_order example.env connection s2 Hreach)
    as (read & Hout & Hin & _).
  exists read. split; [exact Hin|exact Hout].
Defined.

(** X22 after the one frame of a connection was read. *)
Lemma closeConnection_waits_for_an_interrupt_witness :
  let s1 :=
    {| incoming := []; written := []; done_closed := false; interrupt_queued := false;
       stdout := "starting" +:+ LF; reader := goroutine_running;
       coordinator := goroutine_running; exited := None |} in
  rtc (quiet_step example.env) (Session_start [Ok "starting"]) s1
  ∧ closeConnection_select s1 = []
  ∧ coordinator s1 = goroutine_running ∧ written s1 = [] ∧ done_closed s1 = false.
Proof.
  intros s1.
  assert (handleConnection_step example.env (Session_start [Ok "starting"]) = Some s1)
    as Hstep.
  { vm_compute. reflexivity. }
  assert (rtc (quiet_step example.env) (Session_start [Ok "starting"]) s1) as Hquiet.
  { apply rtc_once. left. exact Hstep. }
  split; [exact Hquiet|]. split; [reflexivity|].
  exact (closeConnection_waits_for_an_interrupt example.env [Ok "starting"] s1 Hquiet).
Defined.

(** ** Credentials and the delete endpoint *)

Section Credentials.
Import bytes.

(** X24.  The header [authHeader] makes can be taken apart again: for an
    access key id without [|], cutting what follows [CortexAWS ] at the
    first [|] gives the id and the secret of the configuration back. *)
Theorem authHeader_gives_the_credentials_back env :
  contains_byte "|" (AWSAccessKeyID (getValidCliConfig env)) = false →
  Cut "|" <$> strip_prefix "CortexAWS " (authHeader env)
  = Some (AWSAccessKeyID (getValidCliConfig env),
          Some (AWSSecretAccessKey (getValidCliConfig env))).
Proof.
  intros Hid. unfold authHeader. rewrite strip_prefix_app. cbn [fmap option_fmap option_map].
  f_equal. change ("|" +:+ ?s) with (String "|"%char s).
  apply Cut_app_sep. by apply contains_byte_false.
Qed.

End Credentials.

Section DeleteMore.
Import endpoints.

(** X25.  [Delete] writes exactly one response, after whatever was
    written before.  Without its [appName] it answers the error of
    [getRequiredQParam] and leaves the cluster alone; with it, it calls
    [DeleteApp] once, with the [keepCache] flag of the request ([false]
    by default), and answers by what [DeleteApp] reported. *)
Theorem Delete_answers_once (op : OperatorEnv) w r (cluster : Cluster op) :
  ∃ response,
    (Delete op w r cluster).1 = w ++ [response]
    ∧ match getRequiredQParam op "appName" r with
      | Err err =>
          response = responded_error err ∧ (Delete op w r cluster).2 = cluster
      | Ok appName =>
          let keepCache := getOptionalBoolQParam op "keepCache" false r in
          (Delete op w r cluster).2 = (workloads_DeleteApp op appName keepCache cluster).2
          ∧ response
            = if (workloads_DeleteApp op appName keepCache cluster).1
              then responded {| Message := ResDeploymentDeleted op |}
              else responded_error (errors_New (ErrAppNotDeployed op appName))
      end.
Proof.
  unfold Delete. destruct (getRequiredQParam op "appName" r) as [appName|err].
  - cbn [RespondIfError]. cbv zeta.
    destruct (workloads_DeleteApp op appName _ cluster) as [[] cluster']; by eexists.
  - by eexists.
Qed.

End DeleteMore.

(** X24 at the credentials of the example. *)
Lemma authHeader_gives_the_credentials_back_witness :
  bytes.Cut "|" <$> bytes.strip_prefix "CortexAWS " (authHeader example.env)
  = Some ("AKIAEXAMPLE", Some "wJalrXUtnFEMI").
Proof. exact (authHeader_gives_the_credentials_back example.env eq_refl). Defined.
